(** * Weekly school timetable generator: model and properties

    A shallow embedding of the three placement phases of the timetable
    engine (schedule_base.py, schedule_generator.py, phase2_mandatory.py,
    phase3_optimization.py), of their driver in main.py and of the forming
    of the exam-practice groups in data_loader.py.

    Conventions of the embedding.
    - Python [int] is [Z]; a [float] that only ever holds integers (the
      Phase 2 slot score) is [Z]; a [float] that holds fractions (the Phase 1
      slot score, the Phase 3 quality metric) is an exact rational [Q].
    - A dataclass is a record; dataclass [==] is structural equality, so it is
      Leibniz equality of records, decided by [decide].
    - [Set[DayOfWeek]] is [gset DayOfWeek]; a [dict] whose iteration order is
      never observed is a [gmap]; a [dict] whose [.values()] order is observed
      (the loader's classrooms) is a list in insertion order.
    - Objects that are mutated and aliased (the lessons Phase 3 moves) live in
      a store: the list [schedule.lessons]; a reference to a lesson is its
      position in that list.
    - Calls to [random] are answered by an explicit oracle argument. *)

From Stdlib Require Import ZArith QArith Qminmax Lia.
From stdpp Require Import gmap strings list fin_maps sorting.

#[local] Open Scope Z_scope.

(** ** schedule_base.py *)

Inductive DayOfWeek := MONDAY | TUESDAY | WEDNESDAY | THURSDAY | FRIDAY.

#[global] Instance DayOfWeek_eq_dec : EqDecision DayOfWeek.
Proof. solve_decision. Defined.

(** The enum values 1..5 of the source. *)
Definition day_value (d : DayOfWeek) : Z :=
  match d with
  | MONDAY => 1 | TUESDAY => 2 | WEDNESDAY => 3 | THURSDAY => 4 | FRIDAY => 5
  end.

Definition day_of_value (z : Z) : option DayOfWeek :=
  match z with
  | 1 => Some MONDAY | 2 => Some TUESDAY | 3 => Some WEDNESDAY
  | 4 => Some THURSDAY | 5 => Some FRIDAY | _ => None
  end.

#[global] Instance DayOfWeek_countable : Countable DayOfWeek.
Proof.
  apply (inj_countable day_value day_of_value). intros []; reflexivity.
Defined.

(** [for day in DayOfWeek]: definition order. *)
Definition all_days : list DayOfWeek :=
  [MONDAY; TUESDAY; WEDNESDAY; THURSDAY; FRIDAY].

Inductive SubjectType := MANDATORY | EGE_PRACTICE | ELECTIVE.

#[global] Instance SubjectType_eq_dec : EqDecision SubjectType.
Proof. solve_decision. Defined.

Record TimeSlot := mkTimeSlot { day : DayOfWeek; lesson_number : Z }.

#[global] Instance TimeSlot_eq_dec : EqDecision TimeSlot.
Proof. solve_decision. Defined.

#[global] Instance TimeSlot_countable : Countable TimeSlot.
Proof.
  apply (inj_countable' (fun s => (day s, lesson_number s))
                        (fun p => mkTimeSlot (fst p) (snd p))).
  intros []; reflexivity.
Defined.

Record Classroom := mkClassroom {
  c_number : string;
  c_capacity : Z;
  c_floor : Z;
  c_responsible_teacher : option string
}.

#[global] Instance Classroom_eq_dec : EqDecision Classroom.
Proof. solve_decision. Defined.

Record Teacher := mkTeacher {
  t_name : string;
  t_subjects : list string;
  t_home_classroom : option string;
  t_unavailable_days : gset DayOfWeek
}.

#[global] Instance Teacher_eq_dec : EqDecision Teacher.
Proof. solve_decision. Defined.

(** [Teacher.is_available] *)
Definition is_available (t : Teacher) (d : DayOfWeek) : bool :=
  bool_decide (d ∉ t_unavailable_days t).

Record Student := mkStudent {
  st_name : string;
  st_class_name : string;
  st_ege_subjects : list string
}.

#[global] Instance Student_eq_dec : EqDecision Student.
Proof. solve_decision. Defined.

Record Subject := mkSubject {
  s_name : string;
  s_subject_type : SubjectType;
  s_hours_per_week : Z;
  s_teacher : Teacher;
  s_classes : list string;
  s_is_grouped : bool;
  s_groups : list string
}.

Record EGEPracticeGroup := mkGroup {
  g_subject : string;
  g_teacher : Teacher;
  g_students : list Student;
  g_hours_per_week : Z
}.

(** [EGEPracticeGroup.student_count] *)
Definition student_count (g : EGEPracticeGroup) : Z :=
  Z.of_nat (length (g_students g)).

Record Lesson := mkLesson {
  l_subject : string;
  l_teacher : Teacher;
  l_class_or_group : string;
  l_classroom : option Classroom;
  l_time_slot : TimeSlot;
  l_is_ege_practice : bool;
  l_students : list Student
}.

#[global] Instance Lesson_eq_dec : EqDecision Lesson.
Proof. solve_decision. Defined.

(** [lesson.time_slot = slot]: the one field that is ever assigned. *)
Definition set_time_slot (l : Lesson) (s : TimeSlot) : Lesson :=
  {| l_subject := l_subject l; l_teacher := l_teacher l;
     l_class_or_group := l_class_or_group l; l_classroom := l_classroom l;
     l_time_slot := s; l_is_ege_practice := l_is_ege_practice l;
     l_students := l_students l |}.

(** [Schedule] is its list of lessons; [add_lesson] appends. *)
Definition add_lesson (lessons : list Lesson) (l : Lesson) : list Lesson :=
  lessons ++ [l].

(** [Schedule.is_classroom_busy]: [l.classroom == classroom] compares an
    optional classroom with a classroom, field by field. *)
Definition is_classroom_busy (lessons : list Lesson) (c : Classroom)
    (s : TimeSlot) : bool :=
  existsb (fun l => bool_decide (l_classroom l = Some c)
                    && bool_decide (l_time_slot l = s)) lessons.

(** Truth value of a Python string: the empty string is false. *)
Definition str_truthy (s : string) : bool :=
  match s with EmptyString => false | _ => true end.

(** The 5 x 7 grid, [TimeSlot(day, lesson) for day in DayOfWeek
    for lesson in range(1, 8)]. *)
Definition all_time_slots : list TimeSlot :=
  d ← all_days; mkTimeSlot d <$> [1; 2; 3; 4; 5; 6; 7].

(** The loader's snapshot, as far as the phases read it. The two dicts are
    keyed by teacher name and by room number (data_loader.py,
    db_adapter.py); they are kept as their [.values()] in insertion
    order. *)
Record Loader := mkLoader {
  teachers : list Teacher;
  classrooms : list Classroom;
  subjects : list Subject;
  ege_groups : list EGEPracticeGroup
}.

(** [loader.classrooms.get(number)] *)
Definition classrooms_get (ld : Loader) (num : string) : option Classroom :=
  List.find (fun c => bool_decide (c_number c = num)) (classrooms ld).

(** ** The three double-booking relations and teacher availability *)

Definition teacher_clash (a b : Lesson) : Prop :=
  t_name (l_teacher a) = t_name (l_teacher b) ∧ l_time_slot a = l_time_slot b.

Definition cohort_clash (a b : Lesson) : Prop :=
  l_class_or_group a = l_class_or_group b ∧ l_time_slot a = l_time_slot b.

Definition classroom_clash (a b : Lesson) : Prop :=
  ∃ ca cb, l_classroom a = Some ca ∧ l_classroom b = Some cb
           ∧ c_number ca = c_number cb ∧ l_time_slot a = l_time_slot b.

(** No two lessons at different positions of the list are related by [R]. *)
Definition no_clash (R : Lesson → Lesson → Prop) (ls : list Lesson) : Prop :=
  ∀ i j a b, ls !! i = Some a → ls !! j = Some b → i ≠ j → ¬ R a b.

(** Every lesson is on a day its teacher works. *)
Definition teachers_available (ls : list Lesson) : Prop :=
  ∀ l, l ∈ ls → is_available (l_teacher l) (day (l_time_slot l)) = true.

(** [sorted(..., key=...)] and [list.sort(key=...)] are stable: [before x y]
    says that [x] may stand in front of [y] (its key is not worse), and an
    element is put in front of the first element it may stand in front of, so
    elements with equal keys keep their order. *)
Fixpoint insert_sorted {A} (before : A → A → bool) (x : A) (l : list A)
    : list A :=
  match l with
  | [] => [x]
  | y :: l' => if before x y then x :: y :: l'
               else y :: insert_sorted before x l'
  end.

Definition stable_sort {A} (before : A → A → bool) (l : list A) : list A :=
  foldr (insert_sorted before) [] l.

(** ** schedule_generator.py (Phase 1) *)

Module Phase1.

(** [evaluate_ege_slot]. [jitter] is the value [random.uniform(-5, 5)]
    returns. The division raises [ZeroDivisionError] when the loader has no
    teacher: [None]. *)
Definition evaluate_ege_slot (ld : Loader) (jitter : Q) (slot : TimeSlot)
    : option Q :=
  let score : Q := 100%Q in
  let score :=
    if lesson_number slot =? 1 then (score - 30)%Q
    else if lesson_number slot =? 7 then (score - 20)%Q
    else if (2 <=? lesson_number slot) && (lesson_number slot <=? 4)
    then (score + 20)%Q
    else score in
  let available_teachers :=
    length (filter (fun t => is_available t (day slot) = true) (teachers ld)) in
  match length (teachers ld) with
  | O => None
  | S _ =>
      let availability_ratio :=
        (inject_Z (Z.of_nat available_teachers)
         / inject_Z (Z.of_nat (length (teachers ld))))%Q in
      let score := (score + availability_ratio * 50)%Q in
      Some (score + jitter)%Q
  end.

(** The first selection loop of [find_ege_practice_slots]: at most two slots
    per day, until enough are selected. *)
Fixpoint select_spread (needed : Z) (sorted_slots : list (TimeSlot * Q))
    (selected : list TimeSlot) : list TimeSlot :=
  match sorted_slots with
  | [] => selected
  | (slot, _) :: rest =>
      if needed <=? Z.of_nat (length selected) then selected
      else
        let day_count :=
          length (filter (fun s => day s = day slot) selected) in
        if (2 <=? day_count)%nat then select_spread needed rest selected
        else select_spread needed rest (selected ++ [slot])
  end.

(** The second loop, entered when the first selected too few: take the
    remaining slots in score order. *)
Fixpoint select_fill (needed : Z) (sorted_slots : list (TimeSlot * Q))
    (selected : list TimeSlot) : list TimeSlot :=
  match sorted_slots with
  | [] => selected
  | (slot, _) :: rest =>
      if bool_decide (slot ∈ selected) then select_fill needed rest selected
      else
        let selected := selected ++ [slot] in
        if needed <=? Z.of_nat (length selected) then selected
        else select_fill needed rest selected
  end.

(** [find_ege_practice_slots]; [jitter slot] is the random term drawn when
    [slot] is scored. *)
Definition find_ege_practice_slots (ld : Loader) (jitter : TimeSlot → Q)
    (num_slots_needed : Z) : option (list TimeSlot) :=
  slot_scores ← mapM (fun slot => pair slot <$>
                        evaluate_ege_slot ld (jitter slot) slot)
                     all_time_slots;
  let sorted_slots :=
    stable_sort (fun x y => Qle_bool y.2 x.2) slot_scores in
  let selected_slots := select_spread num_slots_needed sorted_slots [] in
  Some (if Z.of_nat (length selected_slots) <? num_slots_needed
        then select_fill num_slots_needed sorted_slots selected_slots
        else selected_slots).

(** [find_available_classroom] *)
Definition find_available_classroom (ld : Loader) (schedule : list Lesson)
    (time_slot : TimeSlot) (required_capacity : Z) : option Classroom :=
  let available_classrooms :=
    filter (fun c => (required_capacity <=? c_capacity c)
                     && negb (is_classroom_busy schedule c time_slot) = true)
           (classrooms ld) in
  head (stable_sort (fun x y => c_capacity x <=? c_capacity y)
                    available_classrooms).

(** The body of the inner loop of [place_ege_practices], for the slot at
    position [slot_idx] and one group. *)
Definition place_group (ld : Loader) (slot_idx : nat) (time_slot : TimeSlot)
    (schedule : list Lesson) (group : EGEPracticeGroup) : list Lesson :=
  if g_hours_per_week group <=? Z.of_nat slot_idx then schedule
  else if negb (is_available (g_teacher group) (day time_slot)) then schedule
  else
    let classroom :=
      find_available_classroom ld schedule time_slot (student_count group) in
    let lesson :=
      {| l_subject := "Практикум ЕГЭ: " +:+ g_subject group;
         l_teacher := g_teacher group;
         l_class_or_group := "ЕГЭ-" +:+ g_subject group;
         l_classroom := classroom;
         l_time_slot := time_slot;
         l_is_ege_practice := true;
         l_students := g_students group |} in
    add_lesson schedule lesson.

(** The outer loop, [for slot_idx, time_slot in enumerate(self.ege_slots)]. *)
Fixpoint place_slots (ld : Loader) (slot_idx : nat) (slots : list TimeSlot)
    (schedule : list Lesson) : list Lesson :=
  match slots with
  | [] => schedule
  | time_slot :: rest =>
      place_slots ld (S slot_idx) rest
        (foldl (place_group ld slot_idx time_slot) schedule (ege_groups ld))
  end.

(** [max(group.hours_per_week for group in ege_groups)], for a non-empty
    list. *)
Definition max_hours (g : EGEPracticeGroup) (gs : list EGEPracticeGroup) : Z :=
  foldl (fun m g' => Z.max m (g_hours_per_week g')) (g_hours_per_week g) gs.

(** [place_ege_practices], started on the generator's empty schedule: the
    schedule and [self.ege_slots] afterwards. *)
Definition place_ege_practices (ld : Loader) (jitter : TimeSlot → Q)
    : option (list Lesson * list TimeSlot) :=
  match ege_groups ld with
  | [] => Some ([], [])
  | g :: gs =>
      ege_slots ← find_ege_practice_slots ld jitter (max_hours g gs);
      Some (place_slots ld 0 ege_slots [], ege_slots)
  end.

End Phase1.

(** ** phase2_mandatory.py (Phase 2) *)

Module Phase2.

(** One entry of [stats['conflicts']]. *)
Record Conflict := mkConflict {
  cf_subject : string;
  cf_class : string;
  cf_teacher : string;
  cf_reason : string
}.

Record Stats := mkStats {
  total_required : Z;
  placed : Z;
  failed : Z;
  conflicts : list Conflict
}.

(** An occupancy cache, [Dict[str, Dict[TimeSlot, Lesson]]]. It is a
    defaultdict: reading a missing key gives the empty dict. (The read also
    creates the key; nothing ever looks at the set of keys.) *)
Abbreviation Cache := (gmap string (gmap TimeSlot Lesson)).

Definition cache_row (cache : Cache) (key : string) : gmap TimeSlot Lesson :=
  default ∅ (cache !! key).

(** [cache[key][slot] = lesson] *)
Definition cache_put (cache : Cache) (key : string) (slot : TimeSlot)
    (lesson : Lesson) : Cache :=
  <[key := <[slot := lesson]> (cache_row cache key)]> cache.

Record Placer := mkPlacer {
  schedule : list Lesson;
  ege_slots : gset TimeSlot;
  stats : Stats;
  _teacher_schedule : Cache;
  _class_schedule : Cache;
  _classroom_schedule : Cache
}.

(** [_update_cache] *)
Definition _update_cache (p : Placer) (lesson : Lesson) : Placer :=
  {| schedule := schedule p;
     ege_slots := ege_slots p;
     stats := stats p;
     _teacher_schedule :=
       cache_put (_teacher_schedule p) (t_name (l_teacher lesson))
                 (l_time_slot lesson) lesson;
     _class_schedule :=
       cache_put (_class_schedule p) (l_class_or_group lesson)
                 (l_time_slot lesson) lesson;
     _classroom_schedule :=
       match l_classroom lesson with
       | Some room =>
           cache_put (_classroom_schedule p) (c_number room)
                     (l_time_slot lesson) lesson
       | None => _classroom_schedule p
       end |}.

(** [_build_cache]: the same three assignments for every lesson already in
    the schedule. *)
Definition _build_cache (p : Placer) : Placer :=
  foldl _update_cache p (schedule p).

(** [__init__] *)
Definition init (sched : list Lesson) (ege : list TimeSlot) : Placer :=
  _build_cache
    {| schedule := sched;
       ege_slots := list_to_set ege;
       stats := mkStats 0 0 0 [];
       _teacher_schedule := ∅;
       _class_schedule := ∅;
       _classroom_schedule := ∅ |}.

(** [keyword in name]: substring test. *)
Fixpoint contains (keyword s : string) : bool :=
  if String.prefix keyword s then true
  else match s with
       | EmptyString => false
       | String _ s' => contains keyword s'
       end.

Definition hard_keywords : list string :=
  ["математика"; "алгебра"; "геометрия"; "русский"; "физика"; "химия";
   "английский"; "немецкий"; "французский"].

(** Sum of [all_lessons[i + 1] - all_lessons[i] - 1] over consecutive
    elements. *)
Fixpoint adjacent_gaps (l : list Z) : Z :=
  match l with
  | a :: (b :: _) as rest => (b - a - 1) + adjacent_gaps rest
  | _ => 0
  end.

Section WithLoader.

(** Python's [str.lower], which the model does not spell out. *)
Variable lower : string → string.
Variable ld : Loader.

(** [_is_hard_subject] *)
Definition _is_hard_subject (subject : Subject) : bool :=
  existsb (fun keyword => contains keyword (lower (s_name subject)))
          hard_keywords.

(** [_is_slot_available] *)
Definition _is_slot_available (p : Placer) (slot : TimeSlot)
    (subject : Subject) : bool :=
  if negb (is_available (s_teacher subject) (day slot)) then false
  else if bool_decide (is_Some (cache_row (_teacher_schedule p)
                                   (t_name (s_teacher subject)) !! slot))
  then false
  else if existsb (fun class_name =>
                     bool_decide (is_Some (cache_row (_class_schedule p)
                                             class_name !! slot)))
                  (s_classes subject)
  then false
  else if bool_decide (slot ∈ ege_slots p) then false
  else true.

(** [_evaluate_slot]. The score is a float that only ever holds
    integers. *)
Definition _evaluate_slot (p : Placer) (slot : TimeSlot) (subject : Subject)
    (is_hard : bool) : Z :=
  if negb (_is_slot_available p slot subject) then 0
  else
    let n := lesson_number slot in
    let score := 100 in
    let score :=
      if is_hard then
        if (2 <=? n) && (n <=? 4) then score + 30
        else if n =? 1 then score - 15
        else if 6 <=? n then score - 25
        else score
      else
        if 5 <=? n then score + 10
        else if n =? 1 then score - 5
        else score in
    let score := if n =? 1 then score - 10 else score in
    let score := if n =? 7 then score - 20 else score in
    let score :=
      match head (s_classes subject) with
      | Some class_name =>
          if str_truthy class_name then
            let day_load :=
              length (filter (fun kv => day kv.1 = day slot)
                        (map_to_list (cache_row (_class_schedule p)
                                                class_name))) in
            score - Z.of_nat day_load * 3
          else score
      | None => score
      end in
    let teacher_name := t_name (s_teacher subject) in
    let teacher_slots :=
      filter (fun ts => day ts = day slot)
             (map_to_list (cache_row (_teacher_schedule p) teacher_name)).*1 in
    let score :=
      match teacher_slots with
      | [] => score
      | _ =>
          let all_lessons :=
            stable_sort Z.leb
              ((lesson_number <$> teacher_slots) ++ [lesson_number slot]) in
          score - adjacent_gaps all_lessons * 5
      end in
    let teacher_days : gset DayOfWeek :=
      list_to_set (day <$> (map_to_list
                              (cache_row (_teacher_schedule p)
                                         teacher_name)).*1) in
    let score := if bool_decide (day slot ∉ teacher_days) then score + 5
                 else score in
    if bool_decide (slot ∈ ege_slots p) then 0 else score.

(** [_evaluate_all_slots] *)
Definition _evaluate_all_slots (p : Placer) (subject : Subject)
    (is_hard : bool) : list (Z * TimeSlot) :=
  let scored :=
    filter (fun x => 0 < x.1)
           ((fun slot => (_evaluate_slot p slot subject is_hard, slot))
              <$> all_time_slots) in
  stable_sort (fun x y => y.1 <=? x.1) scored.

(** [_find_best_slot] *)
Definition _find_best_slot (p : Placer) (scored_slots : list (Z * TimeSlot))
    (subject : Subject) (days_used : gset DayOfWeek) : option TimeSlot :=
  match List.find (fun x => bool_decide (day x.2 ∉ days_used)
                            && _is_slot_available p x.2 subject)
                  scored_slots with
  | Some x => Some x.2
  | None =>
      match List.find (fun x => _is_slot_available p x.2 subject)
                      scored_slots with
      | Some x => Some x.2
      | None => None
      end
  end.

(** [slot not in self._classroom_schedule.get(number, {})] *)
Definition classroom_free (p : Placer) (number : string) (slot : TimeSlot)
    : bool :=
  bool_decide (cache_row (_classroom_schedule p) number !! slot = None).

(** [_find_classroom] *)
Definition _find_classroom (p : Placer) (subject : Subject) (slot : TimeSlot)
    : option Classroom :=
  let any_free :=
    List.find (fun c => classroom_free p (c_number c) slot) (classrooms ld) in
  match t_home_classroom (s_teacher subject) with
  | Some home =>
      if str_truthy home then
        match classrooms_get ld home with
        | Some home_room =>
            if classroom_free p (c_number home_room) slot then Some home_room
            else any_free
        | None => any_free
        end
      else any_free
  | None => any_free
  end.

(** The local variables of [_place_subject], with the placer they act on. *)
Record Hours := mkHours {
  placer : Placer;
  scored_slots : list (Z * TimeSlot);
  days_used : gset DayOfWeek;
  placed_here : Z
}.

Definition class_name_of (subject : Subject) : string :=
  match s_classes subject with
  | class_name :: _ => class_name
  | [] => "unknown"
  end.

(** The body of [for _ in range(subject.hours_per_week)]. *)
Definition place_hour (subject : Subject) (h : Hours) : Hours :=
  let p := placer h in
  match _find_best_slot p (scored_slots h) subject (days_used h) with
  | None =>
      let st := stats p in
      {| placer :=
           {| schedule := schedule p; ege_slots := ege_slots p;
              stats :=
                {| total_required := total_required st;
                   placed := placed st;
                   failed := failed st + 1;
                   conflicts :=
                     conflicts st
                     ++ [mkConflict (s_name subject) (class_name_of subject)
                                    (t_name (s_teacher subject))
                                    "no_available_slot"] |};
              _teacher_schedule := _teacher_schedule p;
              _class_schedule := _class_schedule p;
              _classroom_schedule := _classroom_schedule p |};
         scored_slots := scored_slots h;
         days_used := days_used h;
         placed_here := placed_here h |}
  | Some best_slot =>
      let classroom := _find_classroom p subject best_slot in
      let lesson :=
        {| l_subject := s_name subject;
           l_teacher := s_teacher subject;
           l_class_or_group := class_name_of subject;
           l_classroom := classroom;
           l_time_slot := best_slot;
           l_is_ege_practice := false;
           l_students := [] |} in
      let p1 :=
        _update_cache
          {| schedule := add_lesson (schedule p) lesson;
             ege_slots := ege_slots p; stats := stats p;
             _teacher_schedule := _teacher_schedule p;
             _class_schedule := _class_schedule p;
             _classroom_schedule := _classroom_schedule p |} lesson in
      let st := stats p1 in
      {| placer :=
           {| schedule := schedule p1; ege_slots := ege_slots p1;
              stats :=
                {| total_required := total_required st;
                   placed := placed st + 1;
                   failed := failed st;
                   conflicts := conflicts st |};
              _teacher_schedule := _teacher_schedule p1;
              _class_schedule := _class_schedule p1;
              _classroom_schedule := _classroom_schedule p1 |};
         scored_slots :=
           filter (fun x => x.2 ≠ best_slot) (scored_slots h);
         days_used := {[day best_slot]} ∪ days_used h;
         placed_here := placed_here h + 1 |}
  end.

(** The state [_place_subject] enters its loop with. *)
Definition first_hour (p : Placer) (subject : Subject) : Hours :=
  {| placer := p;
     scored_slots := _evaluate_all_slots p subject (_is_hard_subject subject);
     days_used := ∅;
     placed_here := 0 |}.

(** [_place_subject]: the placer afterwards and the number of lessons
    placed. *)
Definition _place_subject (p : Placer) (subject : Subject) : Placer * Z :=
  let h := Nat.iter (Z.to_nat (s_hours_per_week subject)) (place_hour subject)
                    (first_hour p subject) in
  (placer h, placed_here h).

(** The sort key of [_sort_by_priority] and the order of Python tuples. *)
Definition priority_score (subject : Subject) : Z * Z * Z * string :=
  (- (if _is_hard_subject subject then 1 else 0),
   - s_hours_per_week subject,
   - Z.of_nat (size (t_unavailable_days (s_teacher subject))),
   s_name subject).

Definition priority_le (x y : Z * Z * Z * string) : bool :=
  let '(x1, x2, x3, x4) := x in
  let '(y1, y2, y3, y4) := y in
  if x1 <? y1 then true else if y1 <? x1 then false
  else if x2 <? y2 then true else if y2 <? x2 then false
  else if x3 <? y3 then true else if y3 <? x3 then false
  else String.leb x4 y4.

(** [_sort_by_priority] *)
Definition _sort_by_priority (subjects : list Subject) : list Subject :=
  stable_sort (fun x y => priority_le (priority_score x) (priority_score y))
              subjects.

(** [by_class[class_name].append(subject)] on a dict kept in insertion
    order. *)
Fixpoint group_add (by_class : list (string * list Subject))
    (class_name : string) (subject : Subject)
    : list (string * list Subject) :=
  match by_class with
  | [] => [(class_name, [subject])]
  | (c, l) :: rest =>
      if bool_decide (c = class_name) then (c, l ++ [subject]) :: rest
      else (c, l) :: group_add rest class_name subject
  end.

(** [_group_by_class] *)
Definition _group_by_class (subjects : list Subject)
    : list (string * list Subject) :=
  foldl (fun by_class subject =>
           foldl (fun acc class_name => group_add acc class_name subject)
                 by_class (s_classes subject))
        [] subjects.

(** [place_all_mandatory_subjects]: the placer afterwards ([self.stats] is
    what the method returns). *)
Definition place_all_mandatory_subjects (p : Placer) : Placer :=
  let mandatory_subjects :=
    filter (fun sub => s_subject_type sub = MANDATORY) (subjects ld) in
  let total_hours := foldr (fun sub acc => s_hours_per_week sub + acc) 0
                           mandatory_subjects in
  let p :=
    {| schedule := schedule p; ege_slots := ege_slots p;
       stats := {| total_required := total_hours;
                   placed := placed (stats p);
                   failed := failed (stats p);
                   conflicts := conflicts (stats p) |};
       _teacher_schedule := _teacher_schedule p;
       _class_schedule := _class_schedule p;
       _classroom_schedule := _classroom_schedule p |} in
  let subjects_by_class :=
    _group_by_class (_sort_by_priority mandatory_subjects) in
  foldl (fun p group =>
           foldl (fun p subject => (_place_subject p subject).1) p group.2)
        p subjects_by_class.

End WithLoader.

End Phase2.

(** ** phase3_optimization.py *)

Module Phase3.

(** The optimizer's mutable state that the swap machinery touches:
    [schedule.lessons] (the lesson objects, a reference being a position) and
    the [lessons_by_slot] index (a defaultdict of lists of references). *)
Record Optimizer := mkOptimizer {
  lessons : list Lesson;
  lessons_by_slot : gmap TimeSlot (list nat)
}.

(** The lesson objects a list of references points to. *)
Definition deref (ls : list Lesson) (refs : list nat) : list Lesson :=
  omap (fun i => ls !! i) refs.

(** [self.lessons_by_slot.get(slot, [])], dereferenced. *)
Definition lessons_at (o : Optimizer) (s : TimeSlot) : list Lesson :=
  deref (lessons o) (default [] (lessons_by_slot o !! s)).

(** [_build_indices], the slot index: each lesson is appended to the list of
    its slot, in schedule order. *)
Definition index_add (idx : gmap TimeSlot (list nat)) (s : TimeSlot)
    (i : nat) : gmap TimeSlot (list nat) :=
  <[s := default [] (idx !! s) ++ [i]]> idx.

Fixpoint build_from (i : nat) (ls : list Lesson)
    (idx : gmap TimeSlot (list nat)) : gmap TimeSlot (list nat) :=
  match ls with
  | [] => idx
  | l :: ls' => build_from (S i) ls' (index_add idx (l_time_slot l) i)
  end.

Definition _build_indices (ls : list Lesson) : Optimizer :=
  mkOptimizer ls (build_from 0 ls ∅).

(** One of the [for other in ...: if other != lessonX and <same>: return
    False] loops: does some lesson of [others], different from [excl],
    satisfy [same]? *)
Definition conflict (others : list Lesson) (excl : Lesson)
    (same : Lesson → bool) : bool :=
  existsb (fun other => bool_decide (other ≠ excl) && same other) others.

Definition same_teacher (l other : Lesson) : bool :=
  bool_decide (t_name (l_teacher other) = t_name (l_teacher l)).

Definition same_cohort (l other : Lesson) : bool :=
  bool_decide (l_class_or_group other = l_class_or_group l).

Definition same_classroom (l other : Lesson) : bool :=
  bool_decide (l_classroom other = l_classroom l).

(** [_can_swap] *)
Definition _can_swap (o : Optimizer) (lesson1 lesson2 : Lesson) : bool :=
  let slot1 := l_time_slot lesson1 in
  let slot2 := l_time_slot lesson2 in
  if bool_decide (slot1 = slot2) then false
  else if negb (is_available (l_teacher lesson1) (day slot2)) then false
  else if conflict (lessons_at o slot2) lesson2 (same_teacher lesson1) then false
  else if negb (is_available (l_teacher lesson2) (day slot1)) then false
  else if conflict (lessons_at o slot1) lesson1 (same_teacher lesson2) then false
  else if conflict (lessons_at o slot2) lesson2 (same_cohort lesson1) then false
  else if conflict (lessons_at o slot1) lesson1 (same_cohort lesson2) then false
  else if bool_decide (is_Some (l_classroom lesson1))
          && bool_decide (is_Some (l_classroom lesson2)) then
    if conflict (lessons_at o slot2) lesson2 (same_classroom lesson1) then false
    else if conflict (lessons_at o slot1) lesson1 (same_classroom lesson2)
    then false
    else true
  else true.

(** [_find_swap_candidates]: the references, in schedule order, of the
    lessons that may be exchanged with [lesson]. *)
Definition candidate (o : Optimizer) (lesson other : Lesson) : bool :=
  if bool_decide (other = lesson) then false
  else if l_is_ege_practice lesson && l_is_ege_practice other then false
  else _can_swap o lesson other.

Definition _find_swap_candidates (o : Optimizer) (lesson : Lesson) : list nat :=
  (filter (fun p => candidate o lesson p.2 = true) (imap pair (lessons o))).*1.

(** [lst.remove(x)] on a list of references: drops the first reference whose
    object is [==] to [x]. *)
Fixpoint remove_first (ls : list Lesson) (x : Lesson) (refs : list nat)
    : list nat :=
  match refs with
  | [] => []
  | r :: refs' =>
      if bool_decide (ls !! r = Some x) then refs'
      else r :: remove_first ls x refs'
  end.

(** [if x in self.lessons_by_slot[slot]: self.lessons_by_slot[slot].remove(x)].
    Indexing the defaultdict creates the entry when it is missing. *)
Definition index_remove (ls : list Lesson) (idx : gmap TimeSlot (list nat))
    (s : TimeSlot) (x : Lesson) : gmap TimeSlot (list nat) :=
  <[s := remove_first ls x (default [] (idx !! s))]> idx.

(** [_swap_lessons] on the lessons referenced by [i1] and [i2]. The two
    references always come from [schedule.lessons]; for a dangling reference
    the model leaves the state alone. *)
Definition _swap_lessons (o : Optimizer) (i1 i2 : nat) : Optimizer :=
  match lessons o !! i1, lessons o !! i2 with
  | Some lesson1, Some lesson2 =>
      let slot1 := l_time_slot lesson1 in
      let slot2 := l_time_slot lesson2 in
      let idx1 := index_remove (lessons o) (lessons_by_slot o) slot1 lesson1 in
      let idx2 := index_remove (lessons o) idx1 slot2 lesson2 in
      let ls1 := alter (fun l => set_time_slot l slot2) i1 (lessons o) in
      let ls2 := alter (fun l => set_time_slot l slot1) i2 ls1 in
      mkOptimizer ls2 (index_add (index_add idx2 slot2 i1) slot1 i2)
  | _, _ => o
  end.

(** The answers the [random] module gives during one iteration of [optimize].
    - [pick_first]: which lesson [random.choice] returns for [lesson1]. It is
      drawn from [problem_lessons] or from [schedule.lessons]; the former is a
      sub-list of the latter, so in both cases it is a lesson of the schedule,
      named here by its position (taken modulo the length).
    - [pick_second]: which of the candidates [random.choice] returns.
    - [accept_worse]: whether [random.random()] fell below
      [_acceptance_probability(delta, temperature)]. *)
Record Draw := mkDraw {
  pick_first : nat;
  pick_second : nat;
  accept_worse : bool
}.

(** [x < y] on metric values. *)
Definition Qltb (x y : Q) : bool := negb (Qle_bool y x).

Section Annealing.

(** [_calculate_quality_metric]: a number computed from the current lessons
    (the per-teacher and per-class indices it walks hold the same lesson
    objects as [schedule.lessons]). Its formula involves a square root and
    plays no part in the control flow below, which is stated for any such
    function. *)
Variable quality : list Lesson → Q.

(** [_find_and_try_swap]: [(lesson1, lesson2, new_metric)] and the state
    after the speculative swap, or [None]. *)
Definition _find_and_try_swap (o : Optimizer) (d : Draw)
    : option (nat * nat * Q * Optimizer) :=
  if (length (lessons o) <? 2)%nat then None
  else
    let i1 := (pick_first d mod length (lessons o))%nat in
    match lessons o !! i1 with
    | None => None
    | Some lesson1 =>
        let candidates := _find_swap_candidates o lesson1 in
        match candidates !! (pick_second d mod length candidates)%nat with
        | None => None
        | Some i2 =>
            let o' := _swap_lessons o i1 i2 in
            Some (i1, i2, quality (lessons o'), o')
        end
    end.

(** The local variables and attributes [optimize] updates in its loop. *)
Record Run := mkRun {
  opt : Optimizer;
  current_metric : Q;
  best_metric : Q;
  best_schedule : list Lesson;
  temperature : Q;
  no_improvement_count : nat;
  stat_iterations : nat;
  stat_improvements : nat;
  stat_accepted_worse : nat
}.

Definition initial_temperature : Q := 100.
Definition cooling_rate : Q := 995 # 1000.
Definition min_temperature : Q := 1 # 10.
Definition max_no_improvement : nat := 200.

(** [_copy_schedule]: fresh lesson objects with the same field values. *)
Definition _copy_schedule (o : Optimizer) : list Lesson := lessons o.

(** The state of [optimize] when it enters its loop. *)
Definition start (o : Optimizer) : Run :=
  {| opt := o;
     current_metric := quality (lessons o);
     best_metric := quality (lessons o);
     best_schedule := _copy_schedule o;
     temperature := initial_temperature;
     no_improvement_count := 0;
     stat_iterations := 0;
     stat_improvements := 0;
     stat_accepted_worse := 0 |}.

(** One pass through the body of the [for] loop; the boolean says whether the
    pass ended in [break]. *)
Definition iteration (d : Draw) (it : nat) (r : Run) : Run * bool :=
  match _find_and_try_swap (opt r) d with
  | None =>
      ({| opt := opt r; current_metric := current_metric r;
          best_metric := best_metric r; best_schedule := best_schedule r;
          temperature := temperature r;
          no_improvement_count := no_improvement_count r;
          stat_iterations := S it;
          stat_improvements := stat_improvements r;
          stat_accepted_worse := stat_accepted_worse r |}, false)
  | Some (i1, i2, new_metric, o') =>
      let delta := (new_metric - current_metric r)%Q in
      let cooled := Qmax min_temperature (temperature r * cooling_rate)%Q in
      let r' :=
        if Qltb delta 0 then
          let better := Qltb new_metric (best_metric r) in
          {| opt := o'; current_metric := new_metric;
             best_metric := if better then new_metric else best_metric r;
             best_schedule :=
               if better then _copy_schedule o' else best_schedule r;
             temperature := cooled;
             no_improvement_count := 0;
             stat_iterations := S it;
             stat_improvements := S (stat_improvements r);
             stat_accepted_worse := stat_accepted_worse r |}
        else if accept_worse d then
          {| opt := o'; current_metric := new_metric;
             best_metric := best_metric r; best_schedule := best_schedule r;
             temperature := cooled;
             no_improvement_count := S (no_improvement_count r);
             stat_iterations := S it;
             stat_improvements := stat_improvements r;
             stat_accepted_worse := S (stat_accepted_worse r) |}
        else
          {| opt := _swap_lessons o' i1 i2;
             current_metric := current_metric r;
             best_metric := best_metric r; best_schedule := best_schedule r;
             temperature := cooled;
             no_improvement_count := S (no_improvement_count r);
             stat_iterations := S it;
             stat_improvements := stat_improvements r;
             stat_accepted_worse := stat_accepted_worse r |} in
      (r', (max_no_improvement <=? no_improvement_count r')%nat)
  end.

(** The [for iteration in range(max_iterations)] loop, one oracle answer per
    iteration. *)
Fixpoint anneal (draws : list Draw) (it : nat) (r : Run) : Run :=
  match draws with
  | [] => r
  | d :: ds =>
      let '(r', stop) := iteration d it r in
      if stop then r' else anneal ds (S it) r'
  end.

(** [optimize]: the schedule it returns, [self.schedule = self.best_schedule]
    (the indices are then rebuilt from it). [max_iterations] is the number of
    oracle answers. *)
Definition optimize (o : Optimizer) (draws : list Draw) : list Lesson :=
  best_schedule (anneal draws 0 (start o)).

(** The working state the loop leaves behind, before the best snapshot is
    installed. *)
Definition working_schedule (o : Optimizer) (draws : list Draw)
    : list Lesson :=
  lessons (opt (anneal draws 0 (start o))).

(** The run states after each executed iteration, in order. *)
Fixpoint anneal_trace (draws : list Draw) (it : nat) (r : Run) : list Run :=
  match draws with
  | [] => []
  | d :: ds =>
      let '(r', stop) := iteration d it r in
      r' :: (if stop then [] else anneal_trace ds (S it) r')
  end.

(** The metric values [_find_and_try_swap] computed, iteration by iteration
    (none for an iteration without a legal swap). *)
Fixpoint observed_metrics (draws : list Draw) (it : nat) (r : Run) : list Q :=
  match draws with
  | [] => []
  | d :: ds =>
      let here :=
        match _find_and_try_swap (opt r) d with
        | Some (_, _, m, _) => [m]
        | None => []
        end in
      let '(r', stop) := iteration d it r in
      here ++ (if stop then [] else observed_metrics ds (S it) r')
  end.

End Annealing.

End Phase3.

(** ** main.py: the three phases in sequence *)

Module Pipeline.

(** The schedules saved after each phase ([schedule_phase1.json],
    [schedule_phase2.json], [schedule_final.json]). *)
Record Outputs := mkOutputs {
  after_phase1 : list Lesson;
  after_phase2 : list Lesson;
  after_phase3 : list Lesson
}.

(** [main] with [--phase all]: [None] when Phase 1 raises. [jitter], [draws]
    stand for the random generator, [quality] for Phase 3's metric, [lower]
    for [str.lower]; [max_iterations] is the number of [draws]. *)
Definition generate (lower : string → string) (ld : Loader)
    (jitter : TimeSlot → Q) (quality : list Lesson → Q)
    (draws : list Phase3.Draw) : option Outputs :=
  match Phase1.place_ege_practices ld jitter with
  | None => None
  | Some (sched1, ege) =>
      let phase2 :=
        Phase2.place_all_mandatory_subjects lower ld
          (Phase2.init sched1 ege) in
      let sched2 := Phase2.schedule phase2 in
      Some {| after_phase1 := sched1;
              after_phase2 := sched2;
              after_phase3 :=
                Phase3.optimize quality (Phase3._build_indices sched2)
                                draws |}
  end.

End Pipeline.

(** ** Specification vocabulary and sample data *)

Module Spec.
Import Phase1 Phase2 Phase3 Pipeline.

(** *** Phase 3: the slot index and the annealing loop *)

(** The references filed under a slot, an absent key reading as [[]]. *)
Definition refs_at (idx : gmap TimeSlot (list nat)) (s : TimeSlot) : list nat :=
  default [] (idx !! s).

(** The slot index agrees with the lessons' [time_slot] fields: a reference is
    filed under a slot exactly when it points to a lesson of that slot, and is
    filed once. *)
Definition index_ok (o : Optimizer) : Prop :=
  ∀ s, NoDup (refs_at (lessons_by_slot o) s)
       ∧ ∀ r, r ∈ refs_at (lessons_by_slot o) s
              ↔ ∃ l, lessons o !! r = Some l ∧ l_time_slot l = s.

(** Plain deletion of the first occurrence of a reference. *)
Fixpoint drop_ref (i : nat) (refs : list nat) : list nat :=
  match refs with
  | [] => []
  | r :: refs' => if decide (r = i) then refs' else r :: drop_ref i refs'
  end.

(** Double booking on a key that a swap does not touch (the teacher's name,
    the cohort label, or the whole lesson but its slot). *)
Definition key_clash {K : Type} (key : Lesson → K) (a b : Lesson) : Prop :=
  key a = key b ∧ l_time_slot a = l_time_slot b.

(** A lesson with its slot blanked: everything a swap leaves alone. *)
Definition unslotted (l : Lesson) : Lesson :=
  set_time_slot l (mkTimeSlot MONDAY 0).

(** Sample data: a teacher who works every day, a lesson, a classroom. *)
Definition ex_teacher (n : string) : Teacher := mkTeacher n [] None ∅.

Definition ex_lesson (subj n cls : string) (room : option Classroom)
    (d : DayOfWeek) (k : Z) : Lesson :=
  mkLesson subj (ex_teacher n) cls room (mkTimeSlot d k) false [].

Definition ex_room : Classroom := mkClassroom "101" 30 1 None.

(** Two lessons on Monday's first period, one on Tuesday's second. *)
Definition ex_week : list Lesson :=
  [ ex_lesson "history" "Ivanova" "10A" None MONDAY 1;
    ex_lesson "biology" "Petrova" "10B" None MONDAY 1;
    ex_lesson "music" "Sidorov" "10C" None TUESDAY 2 ].

(** One classroom; the algebra lesson found it taken and has none. *)
Definition ex_one_room : list Lesson :=
  [ ex_lesson "pe" "Ivanova" "10A" (Some ex_room) MONDAY 5;
    ex_lesson "algebra" "Petrova" "10B" None MONDAY 2;
    ex_lesson "physics" "Sidorov" "10C" (Some ex_room) MONDAY 2 ].

(** What the loop maintains: the best metric is the metric of the best
    snapshot and never exceeds the metric of the working state. *)
Definition best_inv (quality : list Lesson → Q) (r : Run) : Prop :=
  best_metric r = quality (best_schedule r)
  ∧ (best_metric r <= current_metric r)%Q.

(** A metric for the example: the sum of the periods at which "Ivanova"
    teaches. *)
Definition ex_quality (ls : list Lesson) : Q :=
  inject_Z (foldr (fun l acc =>
                     if bool_decide (t_name (l_teacher l) = "Ivanova")
                     then lesson_number (l_time_slot l) + acc else acc)
                  0 ls).

(** Every lesson of the working schedule and of the best snapshot is on a day
    its teacher works. *)
Definition available_inv (r : Run) : Prop :=
  teachers_available (lessons (opt r))
  ∧ teachers_available (best_schedule r).


(** *** Phase 1: slot scores, classrooms, groups *)

(** The fraction of the loader's teachers who work on a day. *)
Definition availability_ratio (ld : Loader) (d : DayOfWeek) : Q :=
  inject_Z (Z.of_nat (length (filter (fun t => is_available t d = true)
                                     (teachers ld))))
  / inject_Z (Z.of_nat (length (teachers ld))).


(** Sample data: a school with a single teacher. *)
Definition one_teacher_loader : Loader :=
  mkLoader [mkTeacher "Ivanova" [] None ∅] [] [] [].

(** The lesson [place_group] builds for a group, a slot and a classroom. *)
Definition ege_lesson (group : EGEPracticeGroup) (time_slot : TimeSlot)
    (classroom : option Classroom) : Lesson :=
  {| l_subject := "Практикум ЕГЭ: " +:+ g_subject group;
     l_teacher := g_teacher group;
     l_class_or_group := "ЕГЭ-" +:+ g_subject group;
     l_classroom := classroom;
     l_time_slot := time_slot;
     l_is_ege_practice := true;
     l_students := g_students group |}.

(** Sample data: twenty-five pupils named A to Y. *)
Definition pupils : list Student :=
  (fun i => mkStudent (String (Ascii.ascii_of_nat (65 + i)) "") "11A" ["math"])
    <$> seq 0 25.

(** Their exam group, one hour a week. *)
Definition crowded_group : EGEPracticeGroup :=
  mkGroup "math" (mkTeacher "Ivanova" ["math"] None ∅) pupils 1.

(** One classroom for 20, one exam group of 25. *)
Definition crowded_loader : Loader :=
  mkLoader [mkTeacher "Ivanova" ["math"] None ∅]
           [mkClassroom "101" 20 1 None] [] [crowded_group].

(** Every assigned classroom is one of the loader's. *)
Definition rooms_from (ld : Loader) (sched : list Lesson) : Prop :=
  ∀ l c, l ∈ sched → l_classroom l = Some c → c ∈ classrooms ld.

(** No classroom is double-booked and every classroom is the loader's. *)
Definition rooms_inv (ld : Loader) (sched : list Lesson) : Prop :=
  no_clash classroom_clash sched ∧ rooms_from ld sched.

(** The lesson comes from one of the groups [gs]. *)
Definition from_groups (gs : list EGEPracticeGroup) (l : Lesson) : Prop :=
  ∃ g, g ∈ gs ∧ t_name (l_teacher l) = t_name (g_teacher g)
       ∧ l_class_or_group l = "ЕГЭ-" +:+ g_subject g.

(** The name of a group's teacher. *)
Definition group_teacher_name (g : EGEPracticeGroup) : string :=
  t_name (g_teacher g).

(** *** Phase 2: the occupancy caches *)

(** The key a lesson occupies in each of the three caches. *)
Definition teacher_key (l : Lesson) : option string :=
  Some (t_name (l_teacher l)).

(** The class-or-group label, the key of the class cache. *)
Definition cohort_key (l : Lesson) : option string :=
  Some (l_class_or_group l).

(** The room number, the key of the classroom cache, for a lesson that has a
    classroom. *)
Definition room_key (l : Lesson) : option string :=
  c_number <$> l_classroom l.

(** Two lessons hold the same key at the same slot. *)
Definition key_opt_clash (keyf : Lesson → option string) (a b : Lesson)
    : Prop :=
  ∃ k, keyf a = Some k ∧ keyf b = Some k ∧ l_time_slot a = l_time_slot b.

(** A cache records exactly the (key, slot) pairs of the lessons of a
    schedule. *)
Definition cache_ok (keyf : Lesson → option string) (cache : Cache)
    (sched : list Lesson) : Prop :=
  ∀ k s, is_Some (cache_row cache k !! s)
         ↔ ∃ l, l ∈ sched ∧ keyf l = Some k ∧ l_time_slot l = s.

(** What [_update_cache] does to one cache. *)
Definition cache_add (keyf : Lesson → option string) (cache : Cache)
    (l : Lesson) : Cache :=
  match keyf l with
  | Some k => cache_put cache k (l_time_slot l) l
  | None => cache
  end.

(** The three caches of a placer record a schedule. *)
Definition caches_ok (p : Placer) (sched : list Lesson) : Prop :=
  cache_ok teacher_key (_teacher_schedule p) sched
  ∧ cache_ok cohort_key (_class_schedule p) sched
  ∧ cache_ok room_key (_classroom_schedule p) sched.

(** The lesson [place_hour] creates for a slot. *)
Definition mandatory_lesson (subject : Subject) (slot : TimeSlot)
    (room : option Classroom) : Lesson :=
  {| l_subject := s_name subject;
     l_teacher := s_teacher subject;
     l_class_or_group := class_name_of subject;
     l_classroom := room;
     l_time_slot := slot;
     l_is_ege_practice := false;
     l_students := [] |}.





(** Every lesson of the placer's schedule is on a day its teacher works. *)
Definition placer_available (p : Placer) : Prop :=
  teachers_available (schedule p).

(** Every subject filed under a class has at least one class. *)
Definition grouped_ok (by_class : list (string * list Subject)) : Prop :=
  ∀ g sub, g ∈ by_class → sub ∈ g.2 → s_classes sub ≠ [].

(** *** The whole run: sample schools *)

(** A teacher who does not work on Mondays, and one who always works. *)
Definition part_timer : Teacher :=
  mkTeacher "Petrova" ["физика"] None {[MONDAY]}.

(** A teacher who works every day, with home classroom 101. *)
Definition full_timer : Teacher :=
  mkTeacher "Ivanova" ["алгебра"] (Some "101") ∅.

(** Two teachers, two classrooms, two mandatory subjects for 10A and two exam
    groups. *)
Definition small_school : Loader :=
  mkLoader [full_timer; part_timer]
           [mkClassroom "101" 30 1 None; mkClassroom "102" 25 1 None]
           [mkSubject "алгебра" MANDATORY 3 full_timer ["10A"] false [];
            mkSubject "физика" MANDATORY 2 part_timer ["10A"] false []]
           [mkGroup "физика" part_timer
                    [mkStudent "Anna" "11A" ["физика"]] 2;
            mkGroup "алгебра" full_timer
                    [mkStudent "Boris" "11A" ["алгебра"]] 1].

(** One run on [small_school], without jitter, with a constant metric and two
    annealing iterations. *)
Definition small_run : option Outputs :=
  generate (fun s => s) small_school (fun _ => 0%Q) (fun _ => 0%Q)
           [Phase3.mkDraw 0 0 false; Phase3.mkDraw 3 1 true].

(** The part-timer's Friday lesson of the sample run. *)
Definition friday_physics : Lesson :=
  mkLesson "физика" part_timer "10A" (Some (mkClassroom "101" 30 1 None))
           (mkTimeSlot FRIDAY 2) false [].


(** *** Phase 2: the score of a slot *)

(** Largest and smallest element of a list of periods (0 for no period). *)
Definition zmax (l : list Z) : Z :=
  match l with [] => 0 | a :: r => foldr Z.max a r end.

(** The smallest element. *)
Definition zmin (l : list Z) : Z :=
  match l with [] => 0 | a :: r => foldr Z.min a r end.

(** The unoccupied periods between the first and the last of a day's
    periods: the length of the span minus the number of periods. *)
Definition idle_periods (periods : list Z) : Z :=
  match periods with
  | [] => 0
  | _ => zmax periods - zmin periods + 1 - Z.of_nat (length periods)
  end.

(** The lessons of a schedule that hold key [k] on day [d]. *)
Definition on_day (keyf : Lesson → option string) (k : string)
    (d : DayOfWeek) (sched : list Lesson) : list Lesson :=
  filter (fun l => keyf l = Some k ∧ day (l_time_slot l) = d) sched.



(** Bonus or penalty of the period band, by subject weight. *)
Definition band (is_hard : bool) (n : Z) : Z :=
  if is_hard then
    if (2 <=? n) && (n <=? 4) then 30
    else if n =? 1 then -15
    else if 6 <=? n then -25
    else 0
  else
    if 5 <=? n then 10
    else if n =? 1 then -5
    else 0.

(** The fixed penalties of the first and the seventh period. *)
Definition edge (n : Z) : Z :=
  (if n =? 1 then -10 else 0) + (if n =? 7 then -20 else 0).




(** The three cache readings of [_evaluate_slot]. *)
Definition cache_load (p : Placer) (subject : Subject) (d : DayOfWeek) : Z :=
  match head (s_classes subject) with
  | Some class_name =>
      if str_truthy class_name
      then Z.of_nat (length (filter (fun kv => day kv.1 = d)
                               (map_to_list (cache_row (_class_schedule p)
                                                       class_name))))
      else 0
  | None => 0
  end.

(** The teacher's slots of a day, as the cache lists them. *)
Definition cache_teacher_slots (p : Placer) (name : string) (d : DayOfWeek)
    : list TimeSlot :=
  filter (fun ts => day ts = d)
         (map_to_list (cache_row (_teacher_schedule p) name)).*1.

(** The gap count [_evaluate_slot] computes. *)
Definition cache_gaps (p : Placer) (name : string) (slot : TimeSlot) : Z :=
  match cache_teacher_slots p name (day slot) with
  | [] => 0
  | ts => adjacent_gaps
            (stable_sort Z.leb ((lesson_number <$> ts)
                                ++ [lesson_number slot]))
  end.

(** The new-day bonus [_evaluate_slot] computes. *)
Definition cache_bonus (p : Placer) (name : string) (slot : TimeSlot) : Z :=
  if bool_decide
       (day slot ∉ (list_to_set
                      (day <$> (map_to_list
                                  (cache_row (_teacher_schedule p) name)).*1)
                    : gset DayOfWeek))
  then 5 else 0.

(** Ivanova already teaches the first and the fifth period on Monday (three
    idle periods between them) and is to give 10A a music lesson. *)
Definition gap_day : list Lesson :=
  [ mkLesson "история" (mkTeacher "Ivanova" [] None ∅) "10B" None
             (mkTimeSlot MONDAY 1) false [];
    mkLesson "история" (mkTeacher "Ivanova" [] None ∅) "10C" None
             (mkTimeSlot MONDAY 5) false [] ].


(** *** Phase 2: the hours of a subject *)

(** Legality of a slot for a subject, read from the schedule: the teacher
    works that day, has no lesson in the slot, none of the subject's classes
    has a lesson in the slot, and the slot is not reserved for exam
    practice. *)
Definition legal_slot (sched : list Lesson) (ege : gset TimeSlot)
    (subject : Subject) (s : TimeSlot) : bool :=
  is_available (s_teacher subject) (day s)
  && negb (existsb (fun l => bool_decide
                               (t_name (l_teacher l)
                                = t_name (s_teacher subject)
                                ∧ l_time_slot l = s)) sched)
  && negb (existsb (fun l => bool_decide
                               (l_class_or_group l ∈ s_classes subject
                                ∧ l_time_slot l = s)) sched)
  && bool_decide (s ∉ ege).

(** Legality as the specification words it: in addition, some classroom is
    free in the slot. *)
Definition legal_as_specified (ld : Loader) (sched : list Lesson)
    (ege : gset TimeSlot) (subject : Subject) (s : TimeSlot) : bool :=
  legal_slot sched ege subject s
  && existsb (fun c => negb (is_classroom_busy sched c s)) (classrooms ld).

(** Every slot a cache has on record is a cell of the grid. *)
Definition cache_in_grid (cache : Cache) : Prop :=
  ∀ k s, is_Some (cache_row cache k !! s) → s ∈ all_time_slots.

(** What holds at the start of every hour of [_place_subject]: the caches
    mirror the schedule, everything is on the grid, and the scored list still
    holds every legal slot of the grid. *)
Definition hour_inv (p0 : Placer) (subject : Subject) (h : Hours) : Prop :=
  caches_ok (placer h) (schedule (placer h))
  ∧ (∀ l, l ∈ schedule (placer h) → l_time_slot l ∈ all_time_slots)
  ∧ ege_slots (placer h) = ege_slots p0
  ∧ (∀ s, s ∈ (scored_slots h).*2 → s ∈ all_time_slots)
  ∧ (∀ s, s ∈ all_time_slots →
          _is_slot_available (placer h) s subject = true →
          s ∈ (scored_slots h).*2).

(** Two teachers who only work on Mondays, one classroom. *)
Definition monday_only (name : string) : Teacher :=
  mkTeacher name [] None {[TUESDAY; WEDNESDAY; THURSDAY; FRIDAY]}.

(** Seven hours of algebra for 10A. *)
Definition algebra7 : Subject :=
  mkSubject "алгебра" MANDATORY 7 (monday_only "Ivanova") ["10A"] false [].

(** One hour of music for 10B. *)
Definition music1 : Subject :=
  mkSubject "музыка" MANDATORY 1 (monday_only "Petrova") ["10B"] false [].

(** The school of these two subjects. *)
Definition one_room_school : Loader :=
  mkLoader [monday_only "Ivanova"; monday_only "Petrova"]
           [mkClassroom "101" 30 1 None] [algebra7; music1] [].

End Spec.

(** ** schedule_base.py: the queries of [Schedule] *)

Module Queries.

(** [get_lessons_by_class]: [class_name in l.class_or_group] is a substring
    test. *)
Definition get_lessons_by_class (lessons : list Lesson) (class_name : string)
    : list Lesson :=
  filter (fun l => Phase2.contains class_name (l_class_or_group l) = true)
         lessons.

(** [get_lessons_by_teacher] *)
Definition get_lessons_by_teacher (lessons : list Lesson)
    (teacher_name : string) : list Lesson :=
  filter (fun l => t_name (l_teacher l) = teacher_name) lessons.

(** [get_lessons_by_timeslot] *)
Definition get_lessons_by_timeslot (lessons : list Lesson)
    (time_slot : TimeSlot) : list Lesson :=
  filter (fun l => l_time_slot l = time_slot) lessons.

(** [is_teacher_busy]: [l.teacher == teacher] compares all fields. *)
Definition is_teacher_busy (lessons : list Lesson) (teacher : Teacher)
    (time_slot : TimeSlot) : bool :=
  existsb (fun l => bool_decide (l_teacher l = teacher)
                    && bool_decide (l_time_slot l = time_slot)) lessons.

(** [is_class_busy] *)
Definition is_class_busy (lessons : list Lesson) (class_name : string)
    (time_slot : TimeSlot) : bool :=
  existsb (fun l => Phase2.contains class_name (l_class_or_group l)
                    && bool_decide (l_time_slot l = time_slot)) lessons.

(** The periods of a list of lessons, in list order. *)
Definition lesson_numbers_of (ls : list Lesson) : list Z :=
  (fun l => lesson_number (l_time_slot l)) <$> ls.

(** The body of the [for day in DayOfWeek] loop of [get_teacher_gaps] and
    [get_class_gaps]: the periods from the first to the last one (the last
    excluded) at which there is no lesson. *)
Definition day_windows (day_lessons : list Lesson) : Z :=
  match day_lessons with
  | [] => 0
  | _ =>
      let lesson_numbers :=
        stable_sort Z.leb (lesson_numbers_of day_lessons) in
      match head lesson_numbers, last lesson_numbers with
      | Some first, Some final =>
          Z.of_nat (length (filter (fun i => i ∉ lesson_numbers)
                                   (seqZ first (final - first))))
      | _, _ => 0
      end
  end.

(** The loop over the days, for the lessons of one teacher or class. *)
Definition week_windows (lessons : list Lesson) : Z :=
  foldl (fun gaps d =>
           gaps + day_windows
                    (filter (fun l => day (l_time_slot l) = d) lessons))
        0 all_days.

(** [get_teacher_gaps] *)
Definition get_teacher_gaps (lessons : list Lesson) (teacher : Teacher) : Z :=
  week_windows (get_lessons_by_teacher lessons (t_name teacher)).

(** [get_class_gaps] *)
Definition get_class_gaps (lessons : list Lesson) (class_name : string) : Z :=
  week_windows (get_lessons_by_class lessons class_name).

End Queries.

(** ** phase3_optimization.py: the counting terms of the quality metric *)

Module Metric.

(** [index[key].append(lesson)] on a [defaultdict(list)], kept in insertion
    order. *)
Fixpoint index_append {V} (idx : list (string * list V)) (key : string)
    (x : V) : list (string * list V) :=
  match idx with
  | [] => [(key, [x])]
  | (k, xs) :: rest =>
      if bool_decide (k = key) then (k, xs ++ [x]) :: rest
      else (k, xs) :: index_append rest key x
  end.

(** One of the per-teacher and per-class indices of [_build_indices]. The
    lists hold the lesson objects of [schedule.lessons]; a swap changes their
    [time_slot] only, never the key, so at any moment an index is what
    [_build_indices] would build from the current lessons. *)
Definition build_index (keyf : Lesson → string) (lessons : list Lesson)
    : list (string * list Lesson) :=
  foldl (fun idx l => index_append idx (keyf l) l) [] lessons.

Definition lessons_by_teacher (lessons : list Lesson)
    : list (string * list Lesson) :=
  build_index (fun l => t_name (l_teacher l)) lessons.

Definition lessons_by_class (lessons : list Lesson)
    : list (string * list Lesson) :=
  build_index l_class_or_group lessons.

(** The lessons of a day. *)
Definition day_lessons_of (lessons : list Lesson) (d : DayOfWeek)
    : list Lesson :=
  filter (fun l => day (l_time_slot l) = d) lessons.

(** The per-day body of [_count_teacher_gaps] and [_count_class_gaps]: the
    sum of [lesson_numbers[i + 1] - lesson_numbers[i] - 1]. *)
Definition day_gap (day_lessons : list Lesson) : Z :=
  if (length day_lessons <? 2)%nat then 0
  else
    Phase2.adjacent_gaps
      (stable_sort Z.leb (Queries.lesson_numbers_of day_lessons)).

(** The per-day body of [_calculate_schedule_spread]. *)
Definition day_spread (day_lessons : list Lesson) : Z :=
  if (length day_lessons <? 2)%nat then 0
  else
    match Queries.lesson_numbers_of day_lessons with
    | [] => 0
    | n :: rest =>
        foldl Z.max n rest - foldl Z.min n rest + 1
        - Z.of_nat (length (n :: rest))
    end.

(** [for day in DayOfWeek: ... total += term], continuing from [total]. *)
Definition over_days (term : list Lesson → Z) (lessons : list Lesson)
    (total : Z) : Z :=
  foldl (fun total d => total + term (day_lessons_of lessons d)) total
        all_days.

(** [_count_teacher_gaps] *)
Definition _count_teacher_gaps (lessons : list Lesson) : Z :=
  foldl (fun total kv => over_days day_gap kv.2 total) 0
        (lessons_by_teacher lessons).

(** [class_name.startswith('ЕГЭ-')] *)
Definition is_ege_label (class_name : string) : bool :=
  String.prefix "ЕГЭ-" class_name.

(** [_count_class_gaps] *)
Definition _count_class_gaps (lessons : list Lesson) : Z :=
  foldl (fun total kv =>
           if is_ege_label kv.1 then total
           else over_days day_gap kv.2 total)
        0 (lessons_by_class lessons).

(** [_calculate_schedule_spread] *)
Definition _calculate_schedule_spread (lessons : list Lesson) : Z :=
  foldl (fun spread kv =>
           if is_ege_label kv.1 then spread
           else over_days day_spread kv.2 spread)
        0 (lessons_by_class lessons).

End Metric.

(** ** data_loader.py: forming the exam-practice groups *)

Module Loading.
Import Metric.

(** [subject_students]: every student filed under each of the exam subjects
    chosen, a [defaultdict(list)] kept in insertion order. *)
Definition subject_students (students : list Student)
    : list (string * list Student) :=
  foldl (fun idx student =>
           foldl (fun idx ege_subject => index_append idx ege_subject student)
                 idx (st_ege_subjects student))
        [] students.

(** The hours are 4 for these subjects and 3 for the others. *)
Definition four_hour_subjects : list string :=
  ["Математика профильная"; "Английский язык"; "История";
   "Обществознание"; "Физика"; "Информатика"; "Биология"; "Химия"]%string.

Section Groups.

(** [subject.name.split('по ')[1].strip()] when ['по ' in subject.name],
    nothing otherwise: the exam subject named by a practice course. *)
Variable practice_subject : string → option string.

(** [ege_teachers]: the teacher of the last practice course naming the exam
    subject. *)
Definition ege_teachers (subjects : list Subject) : gmap string Teacher :=
  foldl (fun m subject =>
           if bool_decide (s_subject_type subject = EGE_PRACTICE) then
             match practice_subject (s_name subject) with
             | Some ege_subject_name =>
                 <[ege_subject_name := s_teacher subject]> m
             | None => m
             end
           else m)
        ∅ subjects.

(** The teacher of a group: the one of [ege_teachers], else the first of
    [loader.teachers]; [list(...)[0]] raises on an empty list. *)
Definition group_teacher (teachers : list Teacher)
    (by_subject : gmap string Teacher) (ege_subject : string)
    : option Teacher :=
  match by_subject !! ege_subject with
  | Some teacher => Some teacher
  | None => head teachers
  end.

(** The loop that creates the groups; [None] is the [IndexError]. *)
Fixpoint add_groups (teachers : list Teacher)
    (by_subject : gmap string Teacher)
    (items : list (string * list Student))
    (ege_groups : list EGEPracticeGroup) : option (list EGEPracticeGroup) :=
  match items with
  | [] => Some ege_groups
  | (ege_subject, students_list) :: rest =>
      if (length students_list =? 0)%nat then
        add_groups teachers by_subject rest ege_groups
      else
        match group_teacher teachers by_subject ege_subject with
        | None => None
        | Some teacher =>
            let hours :=
              if bool_decide (ege_subject ∈ four_hour_subjects) then 4
              else 3 in
            add_groups teachers by_subject rest
              (ege_groups
               ++ [mkGroup ege_subject teacher students_list hours])
        end
  end.

(** [DataLoader.create_ege_practice_groups]: [students] and [teachers] are
    the values of the loader's dictionaries in insertion order, [ege_groups]
    the list appended to. *)
Definition create_ege_practice_groups (students : list Student)
    (teachers : list Teacher) (subjects : list Subject)
    (ege_groups : list EGEPracticeGroup) : option (list EGEPracticeGroup) :=
  add_groups teachers (ege_teachers subjects) (subject_students students)
             ege_groups.

End Groups.

End Loading.

(** ** Further vocabulary and sample data *)

Module Terms.
Import Queries Metric.
Import Spec.

(** What is filed under a key of an index, nothing for a missing key. *)
Definition entry {V} (idx : list (string * list V)) (key : string)
    : list V :=
  match List.find (fun kv => bool_decide (kv.1 = key)) idx with
  | Some kv => kv.2
  | None => []
  end.

(** Every item filed under each of its keys, in order, starting from an
    index: the shape of the loops that fill a [defaultdict(list)]. *)
Definition file_under {A} (keys : A → list string)
    (idx : list (string * list A)) (items : list A)
    : list (string * list A) :=
  foldl (fun idx x =>
           foldl (fun idx k => Metric.index_append idx k x) idx (keys x))
        idx items.

(** A schedule is a rearrangement of another: the same lessons in the same
    order up to their time slots, and the same time slots up to order. *)
Definition rearranged (ls0 ls : list Lesson) : Prop :=
  unslotted <$> ls = unslotted <$> ls0
  ∧ l_time_slot <$> ls ≡ₚ l_time_slot <$> ls0.

(** Within a schedule, the room number determines the classroom. *)
Definition rooms_by_number (ls : list Lesson) : Prop :=
  ∀ l l' c c', l ∈ ls → l' ∈ ls →
               l_classroom l = Some c → l_classroom l' = Some c' →
               c_number c = c_number c' → c = c'.

(** What [_can_swap] compares for the classroom check, with a lesson that has
    no classroom standing for itself. *)
Definition room_or_self (l : Lesson) : Classroom + Lesson :=
  match l_classroom l with
  | Some c => inl c
  | None => inr (unslotted l)
  end.

(** The counters and the temperature of a run stay within their bounds. *)
Definition run_inv (it : nat) (r : Phase3.Run) : Prop :=
  (Phase3.min_temperature <= Phase3.temperature r)%Q
  ∧ (Phase3.temperature r <= Phase3.initial_temperature)%Q
  ∧ Phase3.stat_iterations r = it
  ∧ (Phase3.stat_improvements r + Phase3.stat_accepted_worse r ≤ it)%nat.

(** The sum of [w] over a list. *)
Definition total {A} (w : A → Z) (l : list A) : Z :=
  foldr (fun x t => w x + t) 0 l.

(** Every slot still on the scored list of [_place_subject] is a cell of the
    grid. *)
Definition scored_in_grid (h : Phase2.Hours) : Prop :=
  ∀ s, s ∈ (Phase2.scored_slots h).*2 → s ∈ all_time_slots.

(** The cells of the grid that [_is_slot_available] accepts for a subject. *)
Definition free_slots (p : Phase2.Placer) (subject : Subject)
    : list TimeSlot :=
  filter (fun s => Phase2._is_slot_available p s subject = true)
         all_time_slots.

(** The number of times a subject lists a class. *)
Definition listings (c : string) (sub : Subject) : nat :=
  length (filter (fun c' => c' = c) (s_classes sub)).

(** The hours [_place_subject] works through: [range(hours_per_week)] is
    empty for a negative number. *)
Definition hours_of (subject : Subject) : Z :=
  Z.max 0 (s_hours_per_week subject).

(** A lesson as Phase 2 creates it for a subject: in a cell of the grid that
    is not reserved, on a day the teacher works, in one of the loader's
    classrooms or in none. *)
Definition phase2_lesson (ld : Loader) (ege : gset TimeSlot)
    (subject : Subject) (l : Lesson) : Prop :=
  ∃ room, l = mandatory_lesson subject (l_time_slot l) room
          ∧ l_time_slot l ∈ all_time_slots
          ∧ (l_time_slot l ∉ ege)
          ∧ is_available (s_teacher subject) (day (l_time_slot l)) = true
          ∧ ∀ c, room = Some c → c ∈ classrooms ld.

(** The order [_sort_by_priority] sorts by, up to the tie-break on the name:
    demanding subjects first, then more hours first, then the teacher with
    more unavailable days first. *)
Definition ranks_before (lower : string → string) (x y : Subject) : Prop :=
  let hx := Phase2._is_hard_subject lower x in
  let hy := Phase2._is_hard_subject lower y in
  let ux := size (t_unavailable_days (s_teacher x)) in
  let uy := size (t_unavailable_days (s_teacher y)) in
  (hx = true ∧ hy = false)
  ∨ (hx = hy
     ∧ (s_hours_per_week y < s_hours_per_week x
        ∨ (s_hours_per_week x = s_hours_per_week y ∧ (uy ≤ ux)%nat))).

(** Sample data: the teacher of [gap_day]. *)
Definition ivanova : Teacher := mkTeacher "Ivanova" [] None ∅.

(** Class 10A on a Monday: the first and the fourth period. *)
Definition ex_class_day : list Lesson :=
  [ ex_lesson "history" "Ivanova" "10A" None MONDAY 1;
    ex_lesson "biology" "Petrova" "10A" None MONDAY 4 ].

(** Two lessons in two classrooms. *)
Definition ex_rooms : list Lesson :=
  [ ex_lesson "pe" "Ivanova" "10A" (Some ex_room) MONDAY 5;
    ex_lesson "algebra" "Petrova" "10B"
              (Some (mkClassroom "102" 25 1 None)) MONDAY 2 ].

(** Phase 1 on [crowded_loader], without jitter. *)
Definition crowded_run : list Lesson * list TimeSlot :=
  default ([], []) (Phase1.place_ege_practices crowded_loader (fun _ => 0%Q)).

(** How often a student chose an exam subject. *)
Definition choices (c : string) (st : Student) : nat :=
  length (filter (fun k => k = c) (st_ege_subjects st)).

(** A group made by [create_ege_practice_groups] for an entry of
    [subject_students]. *)
Definition group_of (teachers : list Teacher)
    (by_subject : gmap string Teacher) (kv : string * list Student)
    (g : EGEPracticeGroup) : Prop :=
  g_subject g = kv.1 ∧ g_students g = kv.2
  ∧ g_hours_per_week g
    = (if bool_decide (kv.1 ∈ Loading.four_hour_subjects) then 4 else 3)
  ∧ match by_subject !! kv.1 with
    | Some teacher => g_teacher g = teacher
    | None => head teachers = Some (g_teacher g)
    end.

End Terms.

(** ** Properties of the swap machinery *)

Module Phase3Facts.
Import Phase3.
Import Spec.

Lemma refs_at_index_add idx s i s' :
  refs_at (index_add idx s i) s'
  = if decide (s = s') then refs_at idx s ++ [i] else refs_at idx s'.
Proof.
  unfold refs_at, index_add. rewrite lookup_insert.
  destruct (decide (s = s')); reflexivity.
Qed.

Lemma refs_at_index_remove ls idx s x s' :
  refs_at (index_remove ls idx s x) s'
  = if decide (s = s') then remove_first ls x (refs_at idx s)
    else refs_at idx s'.
Proof.
  unfold refs_at, index_remove. rewrite lookup_insert.
  destruct (decide (s = s')); reflexivity.
Qed.

(** When no two lesson objects are equal as values, [remove] by value is
    deletion of the reference itself. *)
Lemma remove_first_drop_ref ls i x refs :
  NoDup ls → ls !! i = Some x →
  remove_first ls x refs = drop_ref i refs.
Proof.
  intros Hnd Hi. induction refs as [|r refs IH]; simpl; [reflexivity|].
  destruct (decide (r = i)) as [->|Hne].
  - rewrite bool_decide_eq_true_2 by assumption. reflexivity.
  - rewrite bool_decide_eq_false_2.
    + f_equal. exact IH.
    + intros Hr. apply Hne. eapply NoDup_lookup; eassumption.
Qed.

Lemma drop_ref_notin i refs : i ∉ refs → drop_ref i refs = refs.
Proof.
  induction refs as [|r refs IH]; simpl; intros Hn; [reflexivity|].
  apply not_elem_of_cons in Hn as [Hne Hn].
  destruct (decide (r = i)); [congruence|]. f_equal. auto.
Qed.

Lemma drop_ref_perm i refs : i ∈ refs → refs ≡ₚ i :: drop_ref i refs.
Proof.
  induction refs as [|r refs IH]; simpl; intros Hin.
  - inversion Hin.
  - destruct (decide (r = i)) as [->|Hne]; [reflexivity|].
    apply elem_of_cons in Hin as [?|Hin]; [congruence|].
    rewrite (IH Hin) at 1. apply Permutation_swap.
Qed.

Lemma drop_ref_app_last i refs : i ∉ refs → drop_ref i (refs ++ [i]) = refs.
Proof.
  induction refs as [|r refs IH]; simpl; intros Hn.
  - destruct (decide (i = i)); congruence.
  - apply not_elem_of_cons in Hn as [Hne Hn].
    destruct (decide (r = i)); [congruence|]. f_equal. auto.
Qed.

Lemma elem_of_drop_ref i r refs :
  NoDup refs → r ∈ drop_ref i refs ↔ r ∈ refs ∧ r ≠ i.
Proof.
  induction refs as [|q refs IH]; simpl; intros Hnd.
  - split; [inversion 1|intros [H _]; inversion H].
  - apply NoDup_cons in Hnd as [Hq Hnd].
    destruct (decide (q = i)) as [->|Hne].
    + rewrite elem_of_cons. split.
      * intros Hr. split; [by right|]. intros ->. contradiction.
      * intros [[->|Hr] Hne]; [congruence|assumption].
    + rewrite !elem_of_cons, (IH Hnd). split.
      * intros [->|[Hr Hri]]; split; auto.
      * intros [[->|Hr] Hri]; auto.
Qed.

Lemma NoDup_drop_ref i refs : NoDup refs → NoDup (drop_ref i refs).
Proof.
  induction refs as [|q refs IH]; simpl; intros Hnd; [constructor|].
  apply NoDup_cons in Hnd as [Hq Hnd].
  destruct (decide (q = i)); [assumption|].
  apply NoDup_cons. split; [|auto].
  rewrite elem_of_drop_ref by assumption. tauto.
Qed.

Lemma set_time_slot_back (l : Lesson) (s : TimeSlot) :
  set_time_slot (set_time_slot l s) (l_time_slot l) = l.
Proof. destruct l; reflexivity. Qed.

(** The lessons after one [_swap_lessons]: the two time slots are exchanged,
    nothing else moves. *)
Lemma swap_lessons_lookup o i1 i2 a b k :
  lessons o !! i1 = Some a → lessons o !! i2 = Some b → i1 ≠ i2 →
  lessons (_swap_lessons o i1 i2) !! k
  = if decide (k = i1) then Some (set_time_slot a (l_time_slot b))
    else if decide (k = i2) then Some (set_time_slot b (l_time_slot a))
    else lessons o !! k.
Proof.
  intros H1 H2 Hne. unfold _swap_lessons. rewrite H1, H2. simpl.
  destruct (decide (k = i1)) as [->|Hk1].
  - rewrite list_lookup_alter_ne by congruence.
    rewrite list_lookup_alter_eq, H1. reflexivity.
  - destruct (decide (k = i2)) as [->|Hk2].
    + rewrite list_lookup_alter_eq, list_lookup_alter_ne, H2 by congruence.
      reflexivity.
    + rewrite !list_lookup_alter_ne by congruence. reflexivity.
Qed.

Lemma swap_lessons_refs o i1 i2 a b s :
  lessons o !! i1 = Some a → lessons o !! i2 = Some b →
  l_time_slot a ≠ l_time_slot b → NoDup (lessons o) →
  refs_at (lessons_by_slot (_swap_lessons o i1 i2)) s
  = if decide (s = l_time_slot a)
    then drop_ref i1 (refs_at (lessons_by_slot o) s) ++ [i2]
    else if decide (s = l_time_slot b)
    then drop_ref i2 (refs_at (lessons_by_slot o) s) ++ [i1]
    else refs_at (lessons_by_slot o) s.
Proof.
  intros H1 H2 Hs Hnd. unfold _swap_lessons. rewrite H1, H2. simpl.
  rewrite !refs_at_index_add, !refs_at_index_remove.
  rewrite (remove_first_drop_ref _ i1 a) by assumption.
  rewrite (remove_first_drop_ref _ i2 b) by assumption.
  repeat case_decide; subst; try congruence; reflexivity.
Qed.

Lemma conflict_false others excl same :
  conflict others excl same = false
  ↔ ∀ x, x ∈ others → x ≠ excl → same x = false.
Proof.
  unfold conflict. rewrite <- not_true_iff_false, existsb_exists. split.
  - intros Hno x Hx Hne. apply not_true_iff_false. intros Hs. apply Hno.
    exists x. rewrite <- list_elem_of_In. split; [assumption|].
    rewrite bool_decide_eq_true_2 by assumption. exact Hs.
  - intros Hall (x & Hx & Hc). rewrite <- list_elem_of_In in Hx.
    apply andb_true_iff in Hc as [Hne Hs].
    apply bool_decide_eq_true_1 in Hne.
    rewrite (Hall x Hx Hne) in Hs. discriminate.
Qed.

Lemma elem_of_lessons_at o s l :
  index_ok o → l ∈ lessons_at o s ↔ l ∈ lessons o ∧ l_time_slot l = s.
Proof.
  intros Hok. unfold lessons_at, deref. rewrite list_elem_of_omap.
  fold (refs_at (lessons_by_slot o) s). split.
  - intros (r & Hr & Hl). split.
    + eapply list_elem_of_lookup_2; eassumption.
    + apply (Hok s) in Hr as (l' & Hl' & Hs). congruence.
  - intros [Hl Hs]. apply list_elem_of_lookup_1 in Hl as [r Hr].
    exists r. split; [|assumption]. apply (Hok s). eauto.
Qed.

(** What a positive answer of [_can_swap] has checked. *)
Lemma can_swap_true o a b :
  _can_swap o a b = true →
  l_time_slot a ≠ l_time_slot b
  ∧ is_available (l_teacher a) (day (l_time_slot b)) = true
  ∧ is_available (l_teacher b) (day (l_time_slot a)) = true
  ∧ conflict (lessons_at o (l_time_slot b)) b (same_teacher a) = false
  ∧ conflict (lessons_at o (l_time_slot a)) a (same_teacher b) = false
  ∧ conflict (lessons_at o (l_time_slot b)) b (same_cohort a) = false
  ∧ conflict (lessons_at o (l_time_slot a)) a (same_cohort b) = false.
Proof.
  unfold _can_swap. case_bool_decide as Hs; [discriminate|].
  destruct (is_available (l_teacher a) (day (l_time_slot b)));
    [|discriminate].
  destruct (conflict (lessons_at o (l_time_slot b)) b (same_teacher a));
    [discriminate|].
  destruct (is_available (l_teacher b) (day (l_time_slot a)));
    [|discriminate].
  destruct (conflict (lessons_at o (l_time_slot a)) a (same_teacher b));
    [discriminate|].
  destruct (conflict (lessons_at o (l_time_slot b)) b (same_cohort a));
    [discriminate|].
  destruct (conflict (lessons_at o (l_time_slot a)) a (same_cohort b));
    [discriminate|].
  intros _. repeat split; try reflexivity. exact Hs.
Qed.


(** A [_swap_lessons] of two lessons in different slots keeps the slot index
    in agreement with the lessons. *)
Lemma swap_index_ok o i1 i2 a b :
  index_ok o → NoDup (lessons o) →
  lessons o !! i1 = Some a → lessons o !! i2 = Some b →
  l_time_slot a ≠ l_time_slot b →
  index_ok (_swap_lessons o i1 i2).
Proof.
  intros Hok Hnd H1 H2 Hs s.
  assert (Hne : i1 ≠ i2) by (intros ->; congruence).
  assert (Hi1 : ∀ t, i1 ∈ refs_at (lessons_by_slot o) t ↔ t = l_time_slot a).
  { intros t. rewrite (proj2 (Hok t)). split.
    - intros (l & Hl & Ht). congruence.
    - intros ->. eauto. }
  assert (Hi2 : ∀ t, i2 ∈ refs_at (lessons_by_slot o) t ↔ t = l_time_slot b).
  { intros t. rewrite (proj2 (Hok t)). split.
    - intros (l & Hl & Ht). congruence.
    - intros ->. eauto. }
  rewrite (swap_lessons_refs o i1 i2 a b) by assumption.
  destruct (Hok s) as [Hnds Hmem].
  assert (Hlk := fun k => swap_lessons_lookup o i1 i2 a b k H1 H2 Hne).
  destruct (decide (s = l_time_slot a)) as [->|Hsa];
    [|destruct (decide (s = l_time_slot b)) as [->|Hsb]].
  - split.
    + apply NoDup_app. split; [by apply NoDup_drop_ref|]. split.
      * intros x Hx Hx2. apply list_elem_of_singleton in Hx2 as ->.
        apply elem_of_drop_ref in Hx as [Hx _]; [|assumption].
        apply Hi2 in Hx. congruence.
      * apply NoDup_singleton.
    + intros r. rewrite elem_of_app, list_elem_of_singleton.
      rewrite elem_of_drop_ref by assumption. rewrite Hmem, Hlk.
      destruct (decide (r = i1)) as [->|Hr1];
        [|destruct (decide (r = i2)) as [->|Hr2]].
      * split.
        -- intros [[_ ?]|?]; congruence.
        -- intros (l & Hl & Hsl); simplify_eq; simpl in *; congruence.
      * split; [|auto]. intros _. eexists. split; [reflexivity|]. reflexivity.
      * split.
        -- intros [[H _]|?]; [assumption|congruence].
        -- intros H. left. split; assumption.
  - split.
    + apply NoDup_app. split; [by apply NoDup_drop_ref|]. split.
      * intros x Hx Hx2. apply list_elem_of_singleton in Hx2 as ->.
        apply elem_of_drop_ref in Hx as [Hx _]; [|assumption].
        apply Hi1 in Hx. congruence.
      * apply NoDup_singleton.
    + intros r. rewrite elem_of_app, list_elem_of_singleton.
      rewrite elem_of_drop_ref by assumption. rewrite Hmem, Hlk.
      destruct (decide (r = i1)) as [->|Hr1];
        [|destruct (decide (r = i2)) as [->|Hr2]].
      * split; [|auto]. intros _. eexists. split; [reflexivity|]. reflexivity.
      * split.
        -- intros [[_ ?]|?]; congruence.
        -- intros (l & Hl & Hsl); simplify_eq; simpl in *; congruence.
      * split.
        -- intros [[H _]|?]; [assumption|congruence].
        -- intros H. left. split; assumption.
  - split; [assumption|]. intros r. rewrite Hmem, Hlk.
    destruct (decide (r = i1)) as [->|Hr1];
      [|destruct (decide (r = i2)) as [->|Hr2]]; [| |reflexivity].
    + split; intros (l & Hl & Hsl); simplify_eq; simpl in *; congruence.
    + split; intros (l & Hl & Hsl); simplify_eq; simpl in *; congruence.
Qed.

Section key_clash.
Context {K : Type} (key : Lesson → K).
Hypothesis key_slot : ∀ l s, key (set_time_slot l s) = key l.

Lemma swap_no_key_clash o i1 i2 a b :
  index_ok o → NoDup (lessons o) → no_clash (key_clash key) (lessons o) →
  lessons o !! i1 = Some a → lessons o !! i2 = Some b →
  l_time_slot a ≠ l_time_slot b →
  (∀ x, x ∈ lessons_at o (l_time_slot b) → x ≠ b → key x ≠ key a) →
  (∀ x, x ∈ lessons_at o (l_time_slot a) → x ≠ a → key x ≠ key b) →
  no_clash (key_clash key) (lessons (_swap_lessons o i1 i2)).
Proof.
  intros Hok Hnd Hno H1 H2 Hs Hb Ha i j x y Hi Hj Hij [Hk Hsl].
  assert (Hne : i1 ≠ i2) by (intros ->; congruence).
  rewrite (swap_lessons_lookup o i1 i2 a b) in Hi, Hj by assumption.
  assert (Hat : ∀ k z, lessons o !! k = Some z →
                       z ∈ lessons_at o (l_time_slot z)).
  { intros k z Hz. apply elem_of_lessons_at; [assumption|].
    split; [|reflexivity]. eapply list_elem_of_lookup_2; eassumption. }
  assert (Hnb : ∀ k z, lessons o !! k = Some z → k ≠ i2 → z ≠ b).
  { intros k z Hz Hkn ->. apply Hkn. eapply NoDup_lookup; eassumption. }
  assert (Hna : ∀ k z, lessons o !! k = Some z → k ≠ i1 → z ≠ a).
  { intros k z Hz Hkn ->. apply Hkn. eapply NoDup_lookup; eassumption. }
  destruct (decide (i = i1)) as [->|Hi1];
    [|destruct (decide (i = i2)) as [->|Hi2]];
    (destruct (decide (j = i1)) as [->|Hj1];
      [|destruct (decide (j = i2)) as [->|Hj2]]);
    simplify_eq; simpl in *; rewrite ?key_slot in Hk; try congruence.
  - apply (Hb y); [rewrite Hsl; eauto|eauto|congruence].
  - apply (Ha y); [rewrite Hsl; eauto|eauto|congruence].
  - apply (Hb x); [rewrite <- Hsl; eauto|eauto|congruence].
  - apply (Ha x); [rewrite <- Hsl; eauto|eauto|congruence].
  - apply (Hno i j x y Hi Hj Hij). split; assumption.
Qed.
End key_clash.

Lemma unslotted_clash_eq a b : key_clash unslotted a b ↔ a = b.
Proof.
  unfold key_clash, unslotted. destruct a, b; simpl. split.
  - intros [H ->]. injection H as -> -> -> -> -> ->. reflexivity.
  - intros H. injection H as -> -> -> -> -> -> ->. split; reflexivity.
Qed.

Lemma NoDup_no_unslotted_clash ls :
  NoDup ls ↔ no_clash (key_clash unslotted) ls.
Proof.
  split.
  - intros Hnd i j a b Hi Hj Hij Hc. apply unslotted_clash_eq in Hc as ->.
    apply Hij. eapply NoDup_lookup; eassumption.
  - intros Hno. apply NoDup_alt. intros i j x Hi Hj.
    destruct (decide (i = j)) as [|Hne]; [assumption|]. exfalso.
    apply (Hno i j x x Hi Hj Hne). apply unslotted_clash_eq. reflexivity.
Qed.

Lemma same_teacher_false l x :
  same_teacher l x = false → t_name (l_teacher x) ≠ t_name (l_teacher l).
Proof. unfold same_teacher. apply bool_decide_eq_false_1. Qed.


(** An admitted swap never makes two lesson objects equal as values. *)
Lemma swap_NoDup o i1 i2 a b :
  index_ok o → NoDup (lessons o) →
  lessons o !! i1 = Some a → lessons o !! i2 = Some b →
  _can_swap o a b = true →
  NoDup (lessons (_swap_lessons o i1 i2)).
Proof.
  intros Hok Hnd H1 H2 Hc.
  apply can_swap_true in Hc as (Hs & _ & _ & Hta & Htb & _).
  apply NoDup_no_unslotted_clash.
  apply (swap_no_key_clash unslotted) with (a := a) (b := b); try assumption.
  - intros [] s; reflexivity.
  - apply NoDup_no_unslotted_clash. assumption.
  - intros x Hx Hxb Hk.
    eapply same_teacher_false;
      [eapply conflict_false; [exact Hta|exact Hx|exact Hxb]|].
    unfold unslotted, set_time_slot in Hk. injection Hk. congruence.
  - intros x Hx Hxa Hk.
    eapply same_teacher_false;
      [eapply conflict_false; [exact Htb|exact Hx|exact Hxa]|].
    unfold unslotted, set_time_slot in Hk. injection Hk. congruence.
Qed.

(** [_build_indices] files every lesson under its slot. *)
Lemma build_from_ok pre ls idx :
  (∀ s, NoDup (refs_at idx s)
        ∧ ∀ r, r ∈ refs_at idx s
               ↔ ∃ l, pre !! r = Some l ∧ l_time_slot l = s) →
  ∀ s, NoDup (refs_at (build_from (length pre) ls idx) s)
       ∧ ∀ r, r ∈ refs_at (build_from (length pre) ls idx) s
              ↔ ∃ l, (pre ++ ls) !! r = Some l ∧ l_time_slot l = s.
Proof.
  revert pre idx. induction ls as [|x ls IH]; intros pre idx Hpre; simpl.
  - rewrite app_nil_r. exact Hpre.
  - replace (pre ++ x :: ls) with ((pre ++ [x]) ++ ls)
      by (rewrite <- app_assoc; reflexivity).
    replace (S (length pre)) with (length (pre ++ [x]))
      by (rewrite length_app; simpl; lia).
    apply IH. intros s. rewrite refs_at_index_add.
    destruct (Hpre s) as [Hnd Hmem].
    assert (Hfresh : ∀ t, length pre ∉ refs_at idx t).
    { intros t Hin. apply (proj2 (Hpre t)) in Hin as (l & Hl & _).
      apply lookup_lt_Some in Hl. lia. }
    destruct (decide (l_time_slot x = s)) as [<-|Hs].
    + split.
      * apply NoDup_app. split; [apply (Hpre _)|]. split.
        -- intros r Hr Hr2. apply list_elem_of_singleton in Hr2 as ->.
           exact (Hfresh _ Hr).
        -- apply NoDup_singleton.
      * intros r. rewrite elem_of_app, list_elem_of_singleton.
        rewrite (proj2 (Hpre _)). split.
        -- intros [(l & Hl & Hsl)| ->].
           ++ exists l. split; [|assumption].
              apply lookup_app_l_Some. assumption.
           ++ exists x. split; [|reflexivity].
              rewrite lookup_app_r by lia.
              replace (length pre - length pre)%nat with 0%nat by lia.
              reflexivity.
        -- intros (l & Hl & Hsl).
           apply lookup_app_Some in Hl as [Hl|[Hge Hl]]; [left; eauto|].
           right. apply list_lookup_singleton_Some in Hl as [Hz _]. lia.
    + split; [assumption|]. intros r. rewrite Hmem. split.
      * intros (l & Hl & Hsl). exists l. split; [|assumption].
        apply lookup_app_l_Some. assumption.
      * intros (l & Hl & Hsl).
        apply lookup_app_Some in Hl as [Hl|[Hge Hl]]; [eauto|].
        apply list_lookup_singleton_Some in Hl as [_ ->]. congruence.
Qed.

Lemma build_indices_ok ls : index_ok (_build_indices ls).
Proof.
  unfold index_ok, _build_indices. simpl.
  apply (build_from_ok [] ls ∅). intros s. unfold refs_at.
  rewrite lookup_empty. simpl. split; [constructor|].
  intros r. split; [inversion 1|]. intros (l & Hl & _). discriminate.
Qed.

(** C9. The swap-legality predicate is symmetric: for every optimizer state
    and every two lessons, [_can_swap] answers the same in both argument
    orders. *)
Theorem can_swap_symmetric (o : Optimizer) (a b : Lesson) :
  _can_swap o a b = _can_swap o b a.
Proof.
  unfold _can_swap.
  destruct (decide (l_time_slot a = l_time_slot b)) as [E|N].
  - rewrite (bool_decide_eq_true_2 _ E).
    rewrite (bool_decide_eq_true_2 (l_time_slot b = l_time_slot a)); congruence.
  - rewrite (bool_decide_eq_false_2 _ N).
    rewrite (bool_decide_eq_false_2 (l_time_slot b = l_time_slot a))
      by congruence.
    destruct (is_available (l_teacher a) (day (l_time_slot b))),
             (is_available (l_teacher b) (day (l_time_slot a))),
             (conflict (lessons_at o (l_time_slot b)) b (same_teacher a)),
             (conflict (lessons_at o (l_time_slot a)) a (same_teacher b)),
             (conflict (lessons_at o (l_time_slot b)) b (same_cohort a)),
             (conflict (lessons_at o (l_time_slot a)) a (same_cohort b)),
             (bool_decide (is_Some (l_classroom a))),
             (bool_decide (is_Some (l_classroom b))),
             (conflict (lessons_at o (l_time_slot b)) b (same_classroom a)),
             (conflict (lessons_at o (l_time_slot a)) a (same_classroom b));
      reflexivity.
Qed.

End Phase3Facts.

Module Phase3Swap.
Import Phase3 Phase3Facts.
Import Spec.

(** C10 (as stated, refuted). Swapping the first and the third lesson of
    [ex_week] (a swap the optimizer may pick) and swapping them again does not
    give back the slot index: Monday's list [0; 1] comes back as [1; 0]. *)
Lemma swap_twice_index_differs :
  let o := _build_indices ex_week in
  let o2 := _swap_lessons (_swap_lessons o 0 2) 0 2 in
  _find_swap_candidates o (ex_lesson "history" "Ivanova" "10A" None MONDAY 1)
    = [2%nat]
  ∧ lessons_by_slot o !! mkTimeSlot MONDAY 1 = Some [0%nat; 1%nat]
  ∧ lessons_by_slot o2 !! mkTimeSlot MONDAY 1 = Some [1%nat; 0%nat]
  ∧ lessons_by_slot o2 ≠ lessons_by_slot o.
Proof.
  assert (H1 : lessons_by_slot (_build_indices ex_week) !! mkTimeSlot MONDAY 1
               = Some [0%nat; 1%nat]) by (vm_compute; reflexivity).
  assert (H2 : lessons_by_slot
                 (_swap_lessons (_swap_lessons (_build_indices ex_week) 0 2) 0 2)
                 !! mkTimeSlot MONDAY 1
               = Some [1%nat; 0%nat]) by (vm_compute; reflexivity).
  split; [vm_compute; reflexivity|].
  split; [exact H1|]. split; [exact H2|].
  intros Heq. rewrite Heq, H1 in H2. discriminate.
Qed.

(** C10 (amended). For a pair of lessons admitted by [_can_swap], in a state
    whose slot index agrees with the lessons and where no two lesson objects
    are equal, applying [_swap_lessons] twice restores every lesson (so both
    [time_slot] fields) exactly, and leaves under every slot of
    [lessons_by_slot] the same references as before, up to their order. *)
Theorem swap_twice_restores (o : Optimizer) (i1 i2 : nat) (a b : Lesson) :
  index_ok o → NoDup (lessons o) →
  lessons o !! i1 = Some a → lessons o !! i2 = Some b →
  _can_swap o a b = true →
  lessons (_swap_lessons (_swap_lessons o i1 i2) i1 i2) = lessons o
  ∧ ∀ s, refs_at
           (lessons_by_slot (_swap_lessons (_swap_lessons o i1 i2) i1 i2)) s
         ≡ₚ refs_at (lessons_by_slot o) s.
Proof.
  intros Hok Hnd H1 H2 Hc.
  pose proof (swap_NoDup o i1 i2 a b Hok Hnd H1 H2 Hc) as Hnd'.
  apply can_swap_true in Hc as (Hs & _).
  assert (Hne : i1 ≠ i2) by (intros ->; congruence).
  pose proof (fun k => swap_lessons_lookup o i1 i2 a b k H1 H2 Hne) as Hlk.
  pose proof (Hlk i1) as H1'. pose proof (Hlk i2) as H2'.
  rewrite decide_True in H1' by reflexivity.
  rewrite decide_False, decide_True in H2' by congruence.
  split.
  - apply list_eq. intros k.
    rewrite (swap_lessons_lookup _ i1 i2 _ _ k H1' H2' Hne), Hlk.
    destruct (decide (k = i1)) as [->|];
      [|destruct (decide (k = i2)) as [->|]]; simpl.
    + rewrite H1. f_equal. apply set_time_slot_back.
    + rewrite H2. f_equal. apply set_time_slot_back.
    + reflexivity.
  - intros s.
    rewrite (swap_lessons_refs _ i1 i2 _ _ s H1' H2') by (simpl; congruence).
    simpl.
    rewrite !(swap_lessons_refs o i1 i2 a b) by assumption.
    assert (Hi1 : ∀ t, i1 ∈ refs_at (lessons_by_slot o) t
                       ↔ t = l_time_slot a).
    { intros t. rewrite (proj2 (Hok t)). split.
      - intros (l & Hl & Ht). congruence.
      - intros ->. eauto. }
    assert (Hi2 : ∀ t, i2 ∈ refs_at (lessons_by_slot o) t
                       ↔ t = l_time_slot b).
    { intros t. rewrite (proj2 (Hok t)). split.
      - intros (l & Hl & Ht). congruence.
      - intros ->. eauto. }
    destruct (decide (s = l_time_slot b)) as [->|Hsb].
    + rewrite (decide_False (P := l_time_slot b = l_time_slot a))
        by congruence.
      rewrite drop_ref_app_last.
      * rewrite <- Permutation_cons_append. symmetry.
        apply drop_ref_perm. apply Hi2. reflexivity.
      * intros Hin. apply elem_of_drop_ref in Hin as [Hin _];
          [|apply (Hok _)]. apply Hi1 in Hin. congruence.
    + destruct (decide (s = l_time_slot a)) as [->|Hsa]; [|reflexivity].
      rewrite drop_ref_app_last.
      * rewrite <- Permutation_cons_append. symmetry.
        apply drop_ref_perm. apply Hi1. reflexivity.
      * intros Hin. apply elem_of_drop_ref in Hin as [Hin _];
          [|apply (Hok _)]. apply Hi2 in Hin. congruence.
Qed.

Lemma swap_twice_restores_witness :
  lessons (_swap_lessons (_swap_lessons (_build_indices ex_week) 0 2) 0 2)
  = ex_week
  ∧ ∀ s, refs_at (lessons_by_slot
                    (_swap_lessons (_swap_lessons (_build_indices ex_week) 0 2)
                                   0 2)) s
         ≡ₚ refs_at (lessons_by_slot (_build_indices ex_week)) s.
Proof.
  apply (swap_twice_restores (_build_indices ex_week) 0 2
           (ex_lesson "history" "Ivanova" "10A" None MONDAY 1)
           (ex_lesson "music" "Sidorov" "10C" None TUESDAY 2)).
  - apply build_indices_ok.
  - refine (bool_decide_unpack _ _). vm_compute. exact I.
  - reflexivity.
  - reflexivity.
  - vm_compute. reflexivity.
Defined.

(** C5 (the code at the failing input). In [ex_one_room] no classroom is
    double-booked; [_can_swap] admits exchanging the first lesson (room 101)
    with the second (no room), and [_find_swap_candidates] offers it; after
    [_swap_lessons] the first and the third lesson are both in room 101 on
    Monday's second period. *)
Lemma can_swap_admits_room_clash :
  let o := _build_indices ex_one_room in
  no_clash classroom_clash (lessons o)
  ∧ _can_swap o (ex_lesson "pe" "Ivanova" "10A" (Some ex_room) MONDAY 5)
                (ex_lesson "algebra" "Petrova" "10B" None MONDAY 2) = true
  ∧ _find_swap_candidates o
      (ex_lesson "pe" "Ivanova" "10A" (Some ex_room) MONDAY 5)
    = [1%nat; 2%nat]
  ∧ lessons (_swap_lessons o 0 1)
    = [ ex_lesson "pe" "Ivanova" "10A" (Some ex_room) MONDAY 2;
        ex_lesson "algebra" "Petrova" "10B" None MONDAY 5;
        ex_lesson "physics" "Sidorov" "10C" (Some ex_room) MONDAY 2 ]
  ∧ ¬ no_clash classroom_clash (lessons (_swap_lessons o 0 1)).
Proof.
  assert (Hafter : lessons (_swap_lessons (_build_indices ex_one_room) 0 1)
    = [ ex_lesson "pe" "Ivanova" "10A" (Some ex_room) MONDAY 2;
        ex_lesson "algebra" "Petrova" "10B" None MONDAY 5;
        ex_lesson "physics" "Sidorov" "10C" (Some ex_room) MONDAY 2 ])
    by (vm_compute; reflexivity).
  cbv zeta. rewrite Hafter.
  split; [|split; [|split; [|split]]].
  - intros i j a b Hi Hj Hij Hc.
    destruct i as [|[|[|i]]], j as [|[|[|j]]];
      simpl in Hi, Hj; simplify_eq; try congruence;
      destruct Hc as (ca & cb & Ha & Hb & _ & Hs);
      cbv in Ha, Hb, Hs; congruence.
  - vm_compute. reflexivity.
  - vm_compute. reflexivity.
  - reflexivity.
  - intros Hno.
    apply (Hno 0%nat 2%nat _ _ eq_refl eq_refl); [lia|].
    exists ex_room, ex_room. repeat split; reflexivity.
Qed.

End Phase3Swap.

(** ** The annealing loop keeps the best snapshot *)

Module Phase3Best.
Import Phase3 Phase3Swap.
Import Spec.

Lemma Qltb_lt (x y : Q) : Qltb x y = true ↔ (x < y)%Q.
Proof.
  unfold Qltb. rewrite negb_true_iff, <- not_true_iff_false, Qle_bool_iff.
  split; [apply Qnot_le_lt|apply Qlt_not_le].
Qed.

Lemma Qltb_ge (x y : Q) : Qltb x y = false ↔ (y <= x)%Q.
Proof.
  unfold Qltb. rewrite negb_false_iff. apply Qle_bool_iff.
Qed.

Lemma start_best_inv quality o : best_inv quality (start quality o).
Proof. split; [reflexivity|apply Qle_refl]. Qed.

(** One iteration: the best metric does not grow, the invariant is kept, and
    the metric computed in this iteration (if any) is not below the new
    best. *)
Lemma iteration_best quality d it r :
  best_inv quality r →
  let r' := (iteration quality d it r).1 in
  (best_metric r' <= best_metric r)%Q
  ∧ best_inv quality r'
  ∧ (best_metric r' = best_metric r
     ∨ ∃ i1 i2 o', _find_and_try_swap quality (opt r) d
                   = Some (i1, i2, best_metric r', o'))
  ∧ ∀ i1 i2 m o', _find_and_try_swap quality (opt r) d = Some (i1, i2, m, o')
                  → (best_metric r' <= m)%Q.
Proof.
  intros [Hq Hle]. unfold iteration.
  destruct (_find_and_try_swap quality (opt r) d)
    as [[[[i1 i2] m] o']|] eqn:Hswap; simpl.
  2:{ repeat split; try assumption; try apply Qle_refl; [by left|].
      intros; discriminate. }
  assert (Hm : m = quality (lessons o')).
  { unfold _find_and_try_swap in Hswap.
    destruct (length (lessons (opt r)) <? 2)%nat; [discriminate|].
    destruct (lessons (opt r) !! _); [|discriminate].
    destruct (_ !! _); [|discriminate]. congruence. }
  destruct (Qltb (m - current_metric r) 0) eqn:Hdelta; simpl.
  - apply Qltb_lt in Hdelta.
    destruct (Qltb m (best_metric r)) eqn:Hbetter; simpl.
    + apply Qltb_lt in Hbetter.
      repeat split; try apply Qle_refl.
      * apply Qlt_le_weak. assumption.
      * assumption.
      * right. eauto.
      * intros ? ? ? ? [= <- <- <- <-]. apply Qle_refl.
    + apply Qltb_ge in Hbetter.
      repeat split; try assumption; try apply Qle_refl; [by left|].
      intros ? ? ? ? [= <- <- <- <-]. assumption.
  - apply Qltb_ge in Hdelta.
    assert (Hcm : (current_metric r <= m)%Q).
    { apply Qle_minus_iff. exact Hdelta. }
    destruct (accept_worse d); simpl.
    + repeat split; try assumption; try apply Qle_refl.
      * eapply Qle_trans; eassumption.
      * by left.
      * intros ? ? ? ? [= <- <- <- <-]. eapply Qle_trans; eassumption.
    + repeat split; try assumption; try apply Qle_refl; [by left|].
      intros ? ? ? ? [= <- <- <- <-]. eapply Qle_trans; eassumption.
Qed.

Lemma anneal_best quality draws : ∀ it r,
  best_inv quality r →
  best_inv quality (anneal quality draws it r)
  ∧ (best_metric (anneal quality draws it r) <= best_metric r)%Q
  ∧ (∀ m, m ∈ observed_metrics quality draws it r →
          (best_metric (anneal quality draws it r) <= m)%Q)
  ∧ (best_metric (anneal quality draws it r) = best_metric r
     ∨ best_metric (anneal quality draws it r)
       ∈ observed_metrics quality draws it r).
Proof.
  induction draws as [|d ds IH]; intros it r Hinv; simpl.
  - repeat split; try apply Hinv; try apply Qle_refl; [|by left].
    intros m Hm. inversion Hm.
  - pose proof (iteration_best quality d it r Hinv) as Hit. cbv zeta in Hit.
    destruct (iteration quality d it r) as [r' stop]. simpl in Hit.
    destruct Hit as (Hle & Hinv' & Hwhich & Hobs).
    assert (Hhere : ∀ m,
      m ∈ match _find_and_try_swap quality (opt r) d with
          | Some (_, _, m0, _) => [m0]
          | None => []
          end → (best_metric r' <= m)%Q).
    { intros m Hm.
      destruct (_find_and_try_swap quality (opt r) d)
        as [[[[i1 i2] m0] o']|]; [|inversion Hm].
      apply list_elem_of_singleton in Hm as ->. eapply Hobs. reflexivity. }
    assert (Hbest : best_metric r' = best_metric r
      ∨ best_metric r'
        ∈ match _find_and_try_swap quality (opt r) d with
          | Some (_, _, m0, _) => [m0]
          | None => []
          end).
    { destruct Hwhich as [?|(i1 & i2 & o' & ->)]; [by left|right].
      apply list_elem_of_singleton. reflexivity. }
    destruct stop.
    + rewrite app_nil_r. repeat split; try apply Hinv'; assumption.
    + destruct (IH (S it) r' Hinv') as (Hinvf & Hlef & Hobsf & Hwhichf).
      repeat split; try apply Hinvf.
      * eapply Qle_trans; eassumption.
      * intros m Hm. apply elem_of_app in Hm as [Hm|Hm]; [|auto].
        eapply Qle_trans; [exact Hlef|]. auto.
      * destruct Hwhichf as [Heq|Hin].
        -- rewrite Heq. destruct Hbest as [?|?]; [by left|right].
           apply elem_of_app. by left.
        -- right. apply elem_of_app. by right.
Qed.

Lemma trace_monotone quality draws : ∀ it r k x y,
  best_inv quality r →
  (best_metric <$> r :: anneal_trace quality draws it r) !! k = Some x →
  (best_metric <$> r :: anneal_trace quality draws it r) !! S k = Some y →
  (y <= x)%Q.
Proof.
  induction draws as [|d ds IH]; intros it r k x y Hinv Hx Hy; simpl in *.
  - destruct k; discriminate.
  - pose proof (iteration_best quality d it r Hinv) as Hit. cbv zeta in Hit.
    destruct (iteration quality d it r) as [r' stop]. simpl in Hit.
    destruct Hit as (Hle & Hinv' & _). simpl in Hx, Hy.
    destruct k as [|k]; simpl in Hx, Hy.
    + congruence.
    + destruct stop; simpl in Hx, Hy.
      * destruct k; discriminate.
      * apply (IH (S it) r' k x y Hinv'); assumption.
Qed.

Lemma trace_last quality draws : ∀ it r,
  last (r :: anneal_trace quality draws it r)
  = Some (anneal quality draws it r).
Proof.
  induction draws as [|d ds IH]; intros it r; simpl; [reflexivity|].
  destruct (iteration quality d it r) as [r' stop].
  destruct stop; [reflexivity|].
  rewrite <- (IH (S it) r'). reflexivity.
Qed.

(** C2. In [optimize], for any metric, any starting schedule and any answers
    of the random generator: the best metric never grows from one iteration
    to the next; the loop ends with the last best metric; the schedule
    returned is the snapshot whose metric is that best metric; the best
    metric is one of the metrics observed during the run (the initial one or
    one computed after a speculative swap) and no observed metric is lower.
    The returned schedule need not be the working state the loop ends in: an
    accepted worsening leaves the working state behind the snapshot. *)
Theorem best_snapshot_returned :
  (∀ (quality : list Lesson → Q) (o : Optimizer) (draws : list Draw),
     let r0 := start quality o in
     let rf := anneal quality draws 0 r0 in
     let history := best_metric <$> r0 :: anneal_trace quality draws 0 r0 in
     let observed :=
       quality (lessons o) :: observed_metrics quality draws 0 r0 in
     (∀ k x y, history !! k = Some x → history !! S k = Some y → (y <= x)%Q)
     ∧ last history = Some (best_metric rf)
     ∧ quality (optimize quality o draws) = best_metric rf
     ∧ best_metric rf ∈ observed
     ∧ ∀ m, m ∈ observed → (best_metric rf <= m)%Q)
  ∧ optimize ex_quality (_build_indices ex_week) [mkDraw 0 0 true] = ex_week
  ∧ working_schedule ex_quality (_build_indices ex_week) [mkDraw 0 0 true]
    ≠ ex_week.
Proof.
  split.
  - intros quality o draws r0 rf history observed.
    pose proof (start_best_inv quality o) as Hinv.
    destruct (anneal_best quality draws 0 r0 Hinv)
      as ((Hq & _) & Hle & Hobs & Hwhich).
    split; [|split; [|split; [|split]]].
    + intros k x y. apply trace_monotone. exact Hinv.
    + unfold history. rewrite fmap_last, trace_last. reflexivity.
    + symmetry. exact Hq.
    + unfold observed. destruct Hwhich as [Heq|Hin].
      * fold rf in Heq. rewrite Heq. apply list_elem_of_here.
      * apply list_elem_of_further. exact Hin.
    + intros m Hm. unfold observed in Hm.
      apply elem_of_cons in Hm as [->|Hm]; [exact Hle|auto].
  - split; [vm_compute; reflexivity|].
    intros Heq. vm_compute in Heq. discriminate.
Qed.

End Phase3Best.

(** ** What every schedule visited by the annealing loop satisfies *)

Module Phase3Inv.
Import Phase3 Phase3Facts.
Import Spec.

Lemma candidate_true o a b :
  candidate o a b = true → b ≠ a ∧ _can_swap o a b = true.
Proof.
  unfold candidate. case_bool_decide; [discriminate|].
  destruct (l_is_ege_practice a && l_is_ege_practice b); [discriminate|].
  auto.
Qed.

Lemma elem_of_find_swap_candidates o a i :
  i ∈ _find_swap_candidates o a →
  ∃ b, lessons o !! i = Some b ∧ candidate o a b = true.
Proof.
  unfold _find_swap_candidates. intros Hin.
  apply list_elem_of_fmap in Hin as ([j b] & -> & Hin).
  apply list_elem_of_filter in Hin as [Hc Hin].
  apply elem_of_lookup_imap in Hin as (k & x & Heq & Hk).
  injection Heq as -> ->. exists x. split; assumption.
Qed.

Lemma find_and_try_swap_some quality o d i1 i2 m o' :
  _find_and_try_swap quality o d = Some (i1, i2, m, o') →
  ∃ a b, lessons o !! i1 = Some a ∧ lessons o !! i2 = Some b
         ∧ candidate o a b = true ∧ o' = _swap_lessons o i1 i2.
Proof.
  unfold _find_and_try_swap.
  destruct (length (lessons o) <? 2)%nat; [discriminate|].
  destruct (lessons o !! _) as [a|] eqn:Ha; [|discriminate].
  destruct (_find_swap_candidates o a !! _) as [j|] eqn:Hj; [|discriminate].
  intros [= <- <- <- <-].
  apply list_elem_of_lookup_2 in Hj.
  apply elem_of_find_swap_candidates in Hj as (b & Hb & Hc).
  exists a, b. auto.
Qed.

Lemma swap_twice_lessons o i1 i2 a b :
  lessons o !! i1 = Some a → lessons o !! i2 = Some b → i1 ≠ i2 →
  lessons (_swap_lessons (_swap_lessons o i1 i2) i1 i2) = lessons o.
Proof.
  intros H1 H2 Hne.
  pose proof (fun k => swap_lessons_lookup o i1 i2 a b k H1 H2 Hne) as Hlk.
  pose proof (Hlk i1) as H1'. pose proof (Hlk i2) as H2'.
  rewrite decide_True in H1' by reflexivity.
  rewrite decide_False, decide_True in H2' by congruence.
  apply list_eq. intros k.
  rewrite (swap_lessons_lookup _ i1 i2 _ _ k H1' H2' Hne), Hlk.
  destruct (decide (k = i1)) as [->|];
    [|destruct (decide (k = i2)) as [->|]]; simpl.
  - rewrite H1. f_equal. apply set_time_slot_back.
  - rewrite H2. f_equal. apply set_time_slot_back.
  - reflexivity.
Qed.

(** An admitted swap puts both lessons on days their teachers work. *)
Lemma swap_teachers_available o i1 i2 a b :
  lessons o !! i1 = Some a → lessons o !! i2 = Some b →
  _can_swap o a b = true →
  teachers_available (lessons o) →
  teachers_available (lessons (_swap_lessons o i1 i2)).
Proof.
  intros H1 H2 Hc Hav l Hl.
  apply can_swap_true in Hc as (Hs & Hab & Hba & _).
  assert (Hne : i1 ≠ i2) by (intros ->; congruence).
  apply list_elem_of_lookup_1 in Hl as [k Hk].
  rewrite (swap_lessons_lookup o i1 i2 a b k H1 H2 Hne) in Hk.
  destruct (decide (k = i1)); [|destruct (decide (k = i2))].
  - injection Hk as <-. exact Hab.
  - injection Hk as <-. exact Hba.
  - apply Hav. eapply list_elem_of_lookup_2. eassumption.
Qed.

Lemma iteration_available quality d it r :
  available_inv r → available_inv (iteration quality d it r).1.
Proof.
  intros [Hw Hb]. unfold iteration.
  destruct (_find_and_try_swap quality (opt r) d)
    as [[[[i1 i2] m] o']|] eqn:Hswap; simpl; [|split; assumption].
  apply find_and_try_swap_some in Hswap as (a & b & H1 & H2 & Hc & ->).
  apply candidate_true in Hc as [Hba Hc].
  pose proof (swap_teachers_available _ _ _ _ _ H1 H2 Hc Hw) as Hw'.
  assert (Hne : i1 ≠ i2) by (intros ->; congruence).
  destruct (Qltb _ _); [destruct (Qltb _ _)|destruct (accept_worse d)];
    simpl; unfold _copy_schedule; split; simpl; try assumption.
  rewrite (swap_twice_lessons _ _ _ a b) by assumption. assumption.
Qed.

Lemma anneal_available quality draws : ∀ it r,
  available_inv r → available_inv (anneal quality draws it r).
Proof.
  induction draws as [|d ds IH]; intros it r Hinv; simpl; [assumption|].
  pose proof (iteration_available quality d it r Hinv) as Hit.
  destruct (iteration quality d it r) as [r' stop]. simpl in Hit.
  destruct stop; auto.
Qed.

(** Phase 3 keeps every lesson on a day its teacher works. *)
Lemma optimize_teachers_available quality o draws :
  teachers_available (lessons o) →
  teachers_available (optimize quality o draws).
Proof.
  intros Hav. apply (anneal_available quality draws 0 (start quality o)).
  split; exact Hav.
Qed.





End Phase3Inv.

(** ** Phase 1: slot scores and classroom choice *)

Module Phase1Facts.
Import Phase1.
Import Spec.

Lemma insert_sorted_perm {A} (before : A → A → bool) x l :
  insert_sorted before x l ≡ₚ x :: l.
Proof.
  induction l as [|y l IH]; simpl; [reflexivity|].
  destruct (before x y); [reflexivity|].
  rewrite IH. apply Permutation_swap.
Qed.

Lemma stable_sort_perm {A} (before : A → A → bool) l :
  stable_sort before l ≡ₚ l.
Proof.
  induction l as [|x l IH]; simpl; [reflexivity|].
  rewrite insert_sorted_perm, IH. reflexivity.
Qed.

(** The first element of a sorted list may stand in front of every
    element. *)
Lemma stable_sort_head {A} (before : A → A → bool) l x :
  (∀ a b, before a b = false → before b a = true) →
  (∀ a b c, before a b = true → before b c = true → before a c = true) →
  head (stable_sort before l) = Some x →
  ∀ y, y ∈ l → before x y = true.
Proof.
  intros Htot Htrans. revert x.
  induction l as [|a l IH]; intros x Hhd y Hy; [inversion Hy|].
  simpl in Hhd.
  assert (Hrefl : ∀ z, before z z = true).
  { intros z. destruct (before z z) eqn:E; [reflexivity|].
    pose proof (Htot z z E). congruence. }
  destruct (stable_sort before l) as [|b s] eqn:Hs.
  - simpl in Hhd. injection Hhd as <-.
    pose proof (stable_sort_perm before l) as Hp. rewrite Hs in Hp.
    apply Permutation_nil_l in Hp. subst l.
    apply list_elem_of_singleton in Hy as ->. apply Hrefl.
  - simpl in Hhd. destruct (before a b) eqn:Hab; simpl in Hhd;
      injection Hhd as <-; apply elem_of_cons in Hy as [->|Hy].
    + apply Hrefl.
    + eapply Htrans; [exact Hab|]. apply IH; [reflexivity|assumption].
    + apply Htot. assumption.
    + apply IH; [reflexivity|assumption].
Qed.




Lemma find_available_classroom_some ld schedule time_slot required c :
  find_available_classroom ld schedule time_slot required = Some c →
  c ∈ classrooms ld ∧ required ≤ c_capacity c
  ∧ is_classroom_busy schedule c time_slot = false
  ∧ ∀ c', c' ∈ classrooms ld → required ≤ c_capacity c' →
          is_classroom_busy schedule c' time_slot = false →
          c_capacity c ≤ c_capacity c'.
Proof.
  unfold find_available_classroom. intros Hhd.
  set (fits := fun c0 : Classroom =>
         (required <=? c_capacity c0)
         && negb (is_classroom_busy schedule c0 time_slot) = true) in *.
  assert (Hfits : ∀ c0, fits c0 ↔ required ≤ c_capacity c0
                        ∧ is_classroom_busy schedule c0 time_slot = false).
  { intros c0. unfold fits.
    rewrite andb_true_iff, Z.leb_le, negb_true_iff. reflexivity. }
  assert (Hin : c ∈ filter fits (classrooms ld)).
  { rewrite <- (stable_sort_perm
                  (fun x y => c_capacity x <=? c_capacity y)).
    apply head_Some_elem_of. exact Hhd. }
  apply list_elem_of_filter in Hin as [Hc Hin]. apply Hfits in Hc as [Hcap Hb].
  repeat split; try assumption.
  intros c' Hin' Hcap' Hb'. apply Z.leb_le.
  apply (stable_sort_head _ _ _) with (y := c') in Hhd.
  - exact Hhd.
  - intros a b Hab. apply Z.leb_gt in Hab. apply Z.leb_le. lia.
  - intros a b c0 Hab Hbc. apply Z.leb_le in Hab, Hbc. apply Z.leb_le. lia.
  - apply list_elem_of_filter. split; [|assumption]. apply Hfits. auto.
Qed.

Lemma find_available_classroom_none ld schedule time_slot required :
  find_available_classroom ld schedule time_slot required = None →
  ∀ c', c' ∈ classrooms ld → required ≤ c_capacity c' →
        is_classroom_busy schedule c' time_slot = true.
Proof.
  unfold find_available_classroom. intros Hhd c' Hin Hcap.
  apply head_None in Hhd.
  pose proof (stable_sort_perm (fun x y => c_capacity x <=? c_capacity y)
    (filter (fun c => (required <=? c_capacity c)
                      && negb (is_classroom_busy schedule c time_slot) = true)
            (classrooms ld))) as Hp.
  rewrite Hhd in Hp. apply Permutation_nil_l in Hp.
  destruct (is_classroom_busy schedule c' time_slot) eqn:Hb; [reflexivity|].
  exfalso. eapply (not_elem_of_nil c'). rewrite Hp.
  apply list_elem_of_filter. split; [|assumption].
  rewrite Hb. apply andb_true_iff. split; [apply Z.leb_le; lia|reflexivity].
Qed.

Lemma place_group_cases ld slot_idx time_slot schedule group :
  place_group ld slot_idx time_slot schedule group = schedule
  ∨ (Z.of_nat slot_idx < g_hours_per_week group
     ∧ is_available (g_teacher group) (day time_slot) = true
     ∧ place_group ld slot_idx time_slot schedule group
       = schedule ++ [ege_lesson group time_slot
                        (find_available_classroom ld schedule time_slot
                           (student_count group))]).
Proof.
  unfold place_group.
  destruct (g_hours_per_week group <=? Z.of_nat slot_idx) eqn:Hh; [by left|].
  destruct (is_available (g_teacher group) (day time_slot)) eqn:Ha;
    [|by left].
  right. apply Z.leb_gt in Hh. auto.
Qed.

(** With at least one teacher, asking for one slot yields one slot of the
    grid. *)
Lemma find_one_slot ld jitter :
  teachers ld ≠ [] →
  ∃ slot, find_ege_practice_slots ld jitter 1 = Some [slot].
Proof.
  intros Hne. unfold find_ege_practice_slots.
  destruct (mapM (fun slot => pair slot <$>
                    evaluate_ege_slot ld (jitter slot) slot) all_time_slots)
    as [scores|] eqn:Hm.
  2:{ exfalso. apply mapM_None in Hm. apply Exists_exists in Hm
        as (slot & _ & Hnone).
      unfold evaluate_ege_slot in Hnone.
      destruct (teachers ld); [congruence|]. discriminate. }
  simpl.
  pose proof (stable_sort_perm (fun x y : TimeSlot * Q => Qle_bool y.2 x.2)
                scores) as Hp.
  apply mapM_Some, Forall2_length in Hm.
  destruct (stable_sort _ scores) as [|[slot sc] rest].
  { apply Permutation_length in Hp. rewrite <- Hm in Hp. discriminate. }
  exists slot. simpl. destruct rest as [|[slot' sc'] rest]; reflexivity.
Qed.

(** C8. When a group is due in a reserved slot and its teacher works that
    day, Phase 1 appends one lesson for it in that slot; if the lesson has a
    classroom, the classroom is one of the loader's, is free at that slot,
    holds the group, and no free classroom that holds the group is smaller;
    if it has none, every classroom that holds the group is busy at that
    slot. With one classroom for 20 and one group of 25, whatever the jitter,
    Phase 1 places the group's lesson without a classroom. *)
Theorem smallest_fitting_classroom :
  (∀ ld slot_idx time_slot schedule group,
     Z.of_nat slot_idx < g_hours_per_week group →
     is_available (g_teacher group) (day time_slot) = true →
     ∃ classroom,
       place_group ld slot_idx time_slot schedule group
       = schedule ++ [ege_lesson group time_slot classroom]
       ∧ match classroom with
         | Some c =>
             c ∈ classrooms ld ∧ student_count group ≤ c_capacity c
             ∧ is_classroom_busy schedule c time_slot = false
             ∧ ∀ c', c' ∈ classrooms ld →
                     student_count group ≤ c_capacity c' →
                     is_classroom_busy schedule c' time_slot = false →
                     c_capacity c ≤ c_capacity c'
         | None =>
             ∀ c', c' ∈ classrooms ld →
                   student_count group ≤ c_capacity c' →
                   is_classroom_busy schedule c' time_slot = true
         end)
  ∧ (student_count crowded_group = 25
     ∧ ∀ jitter, ∃ slot,
         place_ege_practices crowded_loader jitter
         = Some ([ege_lesson crowded_group slot None], [slot])).
Proof.
  split.
  - intros ld slot_idx time_slot schedule group Hdue Hav.
    exists (find_available_classroom ld schedule time_slot
              (student_count group)).
    split.
    + destruct (place_group_cases ld slot_idx time_slot schedule group)
        as [Hskip|(_ & _ & Heq)]; [|exact Heq].
      exfalso. unfold place_group in Hskip.
      rewrite (proj2 (Z.leb_gt _ _)), Hav in Hskip by lia. simpl in Hskip.
      apply (f_equal length) in Hskip. unfold add_lesson in Hskip.
      rewrite length_app in Hskip. simpl in Hskip. lia.
    + destruct (find_available_classroom _ _ _ _) as [c|] eqn:Hc.
      * apply find_available_classroom_some. exact Hc.
      * apply find_available_classroom_none. exact Hc.
  - split; [reflexivity|]. intros jitter.
    destruct (find_one_slot crowded_loader jitter) as [slot Hslot];
      [discriminate|].
    exists slot. unfold place_ege_practices. simpl ege_groups. cbv iota.
    change (max_hours crowded_group []) with 1. rewrite Hslot. simpl.
    unfold place_group. simpl.
    unfold is_available. simpl.
    rewrite bool_decide_eq_true_2 by set_solver. simpl.
    reflexivity.
Qed.

Lemma smallest_fitting_classroom_witness :
  ∃ classroom,
    place_group crowded_loader 0 (mkTimeSlot MONDAY 2) [] crowded_group
    = [] ++ [ege_lesson crowded_group (mkTimeSlot MONDAY 2) classroom]
    ∧ match classroom with
      | Some c =>
          c ∈ classrooms crowded_loader
          ∧ student_count crowded_group ≤ c_capacity c
          ∧ is_classroom_busy [] c (mkTimeSlot MONDAY 2) = false
          ∧ ∀ c', c' ∈ classrooms crowded_loader →
                  student_count crowded_group ≤ c_capacity c' →
                  is_classroom_busy [] c' (mkTimeSlot MONDAY 2) = false →
                  c_capacity c ≤ c_capacity c'
      | None =>
          ∀ c', c' ∈ classrooms crowded_loader →
                student_count crowded_group ≤ c_capacity c' →
                is_classroom_busy [] c' (mkTimeSlot MONDAY 2) = true
      end.
Proof.
  apply (proj1 smallest_fitting_classroom crowded_loader 0%nat
           (mkTimeSlot MONDAY 2) [] crowded_group).
  - vm_compute. reflexivity.
  - vm_compute. reflexivity.
Defined.

End Phase1Facts.

(** ** Phase 1: what its schedule satisfies *)

Module Phase1Inv.
Import Phase1 Phase1Facts.
Import Spec.

Lemma no_clash_snoc (R : Lesson → Lesson → Prop) ls l :
  no_clash R ls → (∀ x, x ∈ ls → ¬ R x l ∧ ¬ R l x) →
  no_clash R (ls ++ [l]).
Proof.
  intros Hno Hnew i j a b Hi Hj Hij HR.
  apply lookup_app_Some in Hi as [Hi|[Hil Hi]];
    apply lookup_app_Some in Hj as [Hj|[Hjl Hj]].
  - exact (Hno i j a b Hi Hj Hij HR).
  - apply list_lookup_singleton_Some in Hj as [_ <-].
    apply list_elem_of_lookup_2 in Hi. destruct (Hnew a Hi) as [Hx _]. auto.
  - apply list_lookup_singleton_Some in Hi as [_ <-].
    apply list_elem_of_lookup_2 in Hj. destruct (Hnew b Hj) as [_ Hx]. auto.
  - apply list_lookup_singleton_Some in Hi as [Hi _].
    apply list_lookup_singleton_Some in Hj as [Hj _]. lia.
Qed.

Lemma teachers_available_snoc ls l :
  teachers_available ls →
  is_available (l_teacher l) (day (l_time_slot l)) = true →
  teachers_available (ls ++ [l]).
Proof.
  intros Hls Hl x Hx. apply elem_of_app in Hx as [Hx|Hx]; [auto|].
  apply list_elem_of_singleton in Hx as ->. exact Hl.
Qed.

Lemma NoDup_all_time_slots : NoDup all_time_slots.
Proof. refine (bool_decide_unpack _ _). vm_compute. exact I. Qed.

Lemma select_spread_NoDup needed sorted_slots : ∀ selected,
  NoDup (selected ++ sorted_slots.*1) →
  NoDup (select_spread needed sorted_slots selected)
  ∧ ∀ s, s ∈ select_spread needed sorted_slots selected →
         s ∈ selected ++ sorted_slots.*1.
Proof.
  induction sorted_slots as [|[slot sc] rest IH]; intros selected Hnd;
    cbn [select_spread].
  - simpl in Hnd. rewrite app_nil_r in *. auto.
  - rewrite fmap_cons in *. cbn [fst] in *.
    destruct (needed <=? Z.of_nat (length selected)).
    + split.
      * apply NoDup_app in Hnd. tauto.
      * intros s Hs. apply elem_of_app. by left.
    + assert (Hnd2 : NoDup ((selected ++ [slot]) ++ rest.*1))
        by (rewrite <- app_assoc; exact Hnd).
      assert (Hnd1 : NoDup (selected ++ rest.*1)).
      { apply NoDup_app in Hnd as (H1 & H2 & H3).
        apply NoDup_cons in H3 as [H3 H4]. apply NoDup_app.
        repeat split; try assumption.
        intros x Hx Hx2. apply (H2 x Hx). by right. }
      match goal with
      | |- context [Nat.leb 2 ?n] => destruct (Nat.leb 2 n)
      end.
      * destruct (IH selected Hnd1) as [Hn Hsub]. split; [assumption|].
        intros s Hs. apply Hsub in Hs.
        apply elem_of_app in Hs as [Hs|Hs]; apply elem_of_app;
          [by left|right; by right].
      * destruct (IH (selected ++ [slot]) Hnd2) as [Hn Hsub].
        split; [assumption|]. intros s Hs. apply Hsub in Hs.
        rewrite <- app_assoc in Hs. exact Hs.
Qed.

Lemma select_fill_NoDup needed sorted_slots : ∀ selected,
  NoDup selected →
  NoDup (select_fill needed sorted_slots selected)
  ∧ ∀ s, s ∈ select_fill needed sorted_slots selected →
         s ∈ selected ++ sorted_slots.*1.
Proof.
  induction sorted_slots as [|[slot sc] rest IH]; intros selected Hnd; simpl.
  - rewrite app_nil_r. auto.
  - case_bool_decide as Hin.
    + destruct (IH selected Hnd) as [Hn Hsub]. split; [assumption|].
      intros s Hs. apply Hsub in Hs.
      apply elem_of_app in Hs as [Hs|Hs]; apply elem_of_app;
        [by left|right; by right].
    + assert (Hnd' : NoDup (selected ++ [slot])).
      { apply NoDup_app. repeat split; [assumption| |apply NoDup_singleton].
        intros x Hx Hx2. apply list_elem_of_singleton in Hx2 as ->.
        contradiction. }
      destruct (needed <=? Z.of_nat (length (selected ++ [slot]))).
      * split; [assumption|]. intros s Hs.
        apply elem_of_app in Hs as [Hs|Hs]; apply elem_of_app;
          [by left|right].
        apply list_elem_of_singleton in Hs as ->. by left.
      * destruct (IH (selected ++ [slot]) Hnd') as [Hn Hsub].
        split; [assumption|]. intros s Hs. apply Hsub in Hs.
        rewrite <- app_assoc in Hs. exact Hs.
Qed.

(** The reserved slots are distinct cells of the grid. *)
Lemma find_ege_practice_slots_NoDup ld jitter needed slots :
  find_ege_practice_slots ld jitter needed = Some slots →
  NoDup slots ∧ ∀ s, s ∈ slots → s ∈ all_time_slots.
Proof.
  unfold find_ege_practice_slots. intros Hfind.
  destruct (mapM _ all_time_slots) as [scores|] eqn:Hm; [|discriminate].
  simpl in Hfind. injection Hfind as <-.
  assert (Hfst : scores.*1 = all_time_slots).
  { apply mapM_Some in Hm. clear -Hm.
    induction Hm as [|x y l k Hxy _ IH]; [reflexivity|].
    rewrite fmap_cons, IH. f_equal.
    destruct (evaluate_ege_slot _ _ _); [|discriminate].
    simpl in Hxy. injection Hxy as <-. reflexivity. }
  set (sorted := stable_sort (fun x y : TimeSlot * Q => Qle_bool y.2 x.2)
                             scores).
  assert (Hsorted : sorted.*1 ≡ₚ all_time_slots).
  { rewrite <- Hfst. apply fmap_Permutation. apply stable_sort_perm. }
  assert (Hnd : NoDup ([] ++ sorted.*1)).
  { simpl. rewrite Hsorted. apply NoDup_all_time_slots. }
  destruct (select_spread_NoDup needed sorted [] Hnd) as [Hn1 Hsub1].
  simpl in Hsub1.
  destruct (Z.of_nat (length (select_spread needed sorted [])) <? needed).
  - destruct (select_fill_NoDup needed sorted _ Hn1) as [Hn2 Hsub2].
    split; [assumption|]. intros s Hs. apply Hsub2 in Hs.
    rewrite <- Hsorted.
    apply elem_of_app in Hs as [Hs|Hs]; [auto|assumption].
  - split; [assumption|]. intros s Hs. rewrite <- Hsorted. auto.
Qed.

Lemma foldl_preserves {A B} (P : A → Prop) (f : A → B → A) l : ∀ acc,
  (∀ a x, P a → P (f a x)) → P acc → P (foldl f acc l).
Proof.
  induction l as [|x l IH]; intros acc Hf Hacc; simpl; [assumption|].
  apply IH; auto.
Qed.

Lemma place_group_available ld k s sched g :
  teachers_available sched → teachers_available (place_group ld k s sched g).
Proof.
  intros Hav. destruct (place_group_cases ld k s sched g)
    as [->|(_ & Hg & ->)]; [assumption|].
  apply teachers_available_snoc; assumption.
Qed.

Lemma place_slots_available ld slots : ∀ k sched,
  teachers_available sched → teachers_available (place_slots ld k slots sched).
Proof.
  induction slots as [|s slots IH]; intros k sched Hav; simpl; [assumption|].
  apply IH. apply foldl_preserves; [|assumption].
  intros a g. apply place_group_available.
Qed.

Lemma number_inj (cs : list Classroom) a b :
  NoDup (c_number <$> cs) → a ∈ cs → b ∈ cs → c_number a = c_number b → a = b.
Proof.
  intros Hnd Ha Hb Hn.
  apply list_elem_of_lookup_1 in Ha as [i Hi].
  apply list_elem_of_lookup_1 in Hb as [j Hj].
  assert (i = j).
  { apply (NoDup_lookup _ i j (c_number a) Hnd).
    - rewrite list_lookup_fmap, Hi. reflexivity.
    - rewrite list_lookup_fmap, Hj, Hn. reflexivity. }
  subst j. congruence.
Qed.

Lemma is_classroom_busy_false sched c s x :
  is_classroom_busy sched c s = false → x ∈ sched →
  l_classroom x = Some c → l_time_slot x ≠ s.
Proof.
  unfold is_classroom_busy. intros Hb Hx Hc Hs.
  apply not_true_iff_false in Hb. apply Hb. apply existsb_exists.
  exists x. rewrite <- list_elem_of_In. split; [assumption|].
  rewrite !bool_decide_eq_true_2 by assumption. reflexivity.
Qed.

Lemma place_group_rooms ld k s sched g :
  NoDup (c_number <$> classrooms ld) →
  rooms_inv ld sched → rooms_inv ld (place_group ld k s sched g).
Proof.
  intros Hnd [Hno Hfrom]. destruct (place_group_cases ld k s sched g)
    as [->|(_ & _ & ->)]; [split; assumption|].
  set (room := find_available_classroom ld sched s (student_count g)).
  assert (Hroom : ∀ c, room = Some c →
            c ∈ classrooms ld ∧ is_classroom_busy sched c s = false).
  { intros c Hc. apply find_available_classroom_some in Hc. tauto. }
  assert (Hfree : ∀ x ca cb, x ∈ sched → l_classroom x = Some ca →
            room = Some cb → c_number ca = c_number cb →
            l_time_slot x ≠ s).
  { intros x ca cb Hx Hca Hcb Hn. destruct (Hroom cb Hcb) as [Hin Hb].
    assert (ca = cb) as -> by (eapply number_inj; eauto).
    eapply is_classroom_busy_false; eassumption. }
  split.
  - apply no_clash_snoc; [assumption|]. intros x Hx. split.
    + intros (ca & cb & Ha & Hb & Hn & Hs). simpl in Hb, Hs.
      eapply Hfree; eauto.
    + intros (ca & cb & Ha & Hb & Hn & Hs). simpl in Ha, Hs.
      eapply Hfree; eauto.
  - intros l c Hl Hc. apply elem_of_app in Hl as [Hl|Hl]; [eauto|].
    apply list_elem_of_singleton in Hl as ->. simpl in Hc.
    apply Hroom. exact Hc.
Qed.

Lemma place_slots_rooms ld slots : ∀ k sched,
  NoDup (c_number <$> classrooms ld) →
  rooms_inv ld sched → rooms_inv ld (place_slots ld k slots sched).
Proof.
  induction slots as [|s slots IH]; intros k sched Hnd Hinv; simpl;
    [assumption|].
  apply IH; [assumption|]. apply foldl_preserves; [|assumption].
  intros a g. apply place_group_rooms. assumption.
Qed.

Lemma label_inj (a b : string) : "ЕГЭ-" +:+ a = "ЕГЭ-" +:+ b → a = b.
Proof. simpl. intros H. injection H. auto. Qed.

Lemma NoDup_app_fmap_notin {A B} (f : A → B) (done : list A) x rest y :
  NoDup (f <$> done ++ x :: rest) → y ∈ done → f y ≠ f x.
Proof.
  rewrite fmap_app, fmap_cons. intros Hnd Hy Heq.
  apply NoDup_app in Hnd as (_ & Hdis & _).
  apply (Hdis (f y)); [apply list_elem_of_fmap_2; assumption|].
  rewrite Heq. by left.
Qed.

(** The inner loop over the groups for one reserved slot. *)
Lemma place_groups_no_clash ld k s rest : ∀ done sched,
  NoDup (group_teacher_name <$> done ++ rest) →
  NoDup (g_subject <$> done ++ rest) →
  (∀ l, l ∈ sched → l_time_slot l = s → from_groups done l) →
  no_clash teacher_clash sched → no_clash cohort_clash sched →
  no_clash teacher_clash (foldl (place_group ld k s) sched rest)
  ∧ no_clash cohort_clash (foldl (place_group ld k s) sched rest)
  ∧ ∀ l, l ∈ foldl (place_group ld k s) sched rest →
         l ∈ sched ∨ l_time_slot l = s.
Proof.
  induction rest as [|g rest IH]; intros done sched Hnt Hns Horigin Ht Hc;
    simpl.
  - repeat split; try assumption. auto.
  - assert (Hnt' : NoDup (group_teacher_name <$> (done ++ [g]) ++ rest))
      by (rewrite <- app_assoc; exact Hnt).
    assert (Hns' : NoDup (g_subject <$> (done ++ [g]) ++ rest))
      by (rewrite <- app_assoc; exact Hns).
    assert (Hwiden : ∀ l, from_groups done l → from_groups (done ++ [g]) l).
    { intros l (g' & Hg' & H). exists g'. split; [|exact H].
      apply elem_of_app. by left. }
    destruct (place_group_cases ld k s sched g) as [->|(_ & _ & ->)].
    + apply (IH (done ++ [g])); auto.
    + set (l0 := ege_lesson g s _).
      assert (Hfresh : ∀ x, x ∈ sched → l_time_slot x = s →
                t_name (l_teacher x) ≠ t_name (g_teacher g)
                ∧ l_class_or_group x ≠ "ЕГЭ-" +:+ g_subject g).
      { intros x Hx Hs. destruct (Horigin x Hx Hs) as (g' & Hg' & Hn & Hl).
        split.
        - rewrite Hn.
          apply (NoDup_app_fmap_notin group_teacher_name done g rest g');
            assumption.
        - rewrite Hl. intros Heq. apply label_inj in Heq.
          apply (NoDup_app_fmap_notin g_subject done g rest g' Hns Hg' Heq). }
      destruct (IH (done ++ [g]) (sched ++ [l0])) as (Ht' & Hc' & Hin);
        try assumption.
      * intros l Hl Hs. apply elem_of_app in Hl as [Hl|Hl]; [auto|].
        apply list_elem_of_singleton in Hl as ->.
        exists g. split; [|split; reflexivity].
        apply elem_of_app. right. by left.
      * apply no_clash_snoc; [assumption|]. intros x Hx.
        split; intros [Hn Hs]; simpl in Hn, Hs.
        -- destruct (Hfresh x Hx Hs) as [Hf _]. auto.
        -- destruct (Hfresh x Hx (eq_sym Hs)) as [Hf _]. auto.
      * apply no_clash_snoc; [assumption|]. intros x Hx.
        split; intros [Hn Hs]; simpl in Hn, Hs.
        -- destruct (Hfresh x Hx Hs) as [_ Hf]. auto.
        -- destruct (Hfresh x Hx (eq_sym Hs)) as [_ Hf]. auto.
      * repeat split; try assumption. intros l Hl.
        destruct (Hin l Hl) as [Hl'|Hl']; [|by right].
        apply elem_of_app in Hl' as [Hl'|Hl']; [by left|].
        apply list_elem_of_singleton in Hl' as ->. by right.
Qed.

Lemma place_slots_no_clash ld slots : ∀ k done sched,
  NoDup (group_teacher_name <$> ege_groups ld) →
  NoDup (g_subject <$> ege_groups ld) →
  NoDup (done ++ slots) →
  (∀ l, l ∈ sched → l_time_slot l ∈ done) →
  no_clash teacher_clash sched → no_clash cohort_clash sched →
  no_clash teacher_clash (place_slots ld k slots sched)
  ∧ no_clash cohort_clash (place_slots ld k slots sched).
Proof.
  induction slots as [|s slots IH]; intros k done sched Hnt Hns Hnd Hin Ht Hc;
    simpl; [split; assumption|].
  assert (Hs : s ∉ done).
  { apply NoDup_app in Hnd as (_ & Hdis & _). intros Hs.
    apply (Hdis s Hs). by left. }
  destruct (place_groups_no_clash ld k s (ege_groups ld) [] sched)
    as (Ht' & Hc' & Hin'); try assumption.
  { intros l Hl Hls. exfalso. apply Hs. rewrite <- Hls. auto. }
  apply (IH (S k) (done ++ [s])); try assumption.
  - rewrite <- app_assoc. exact Hnd.
  - intros l Hl. apply elem_of_app.
    destruct (Hin' l Hl) as [Hl'| ->]; [left; auto|right; by left].
Qed.

(** Phase 1 as a whole. *)
Lemma place_ege_practices_inv ld jitter sched slots :
  place_ege_practices ld jitter = Some (sched, slots) →
  teachers_available sched
  ∧ (NoDup (c_number <$> classrooms ld) →
     no_clash classroom_clash sched ∧ rooms_from ld sched)
  ∧ (NoDup (group_teacher_name <$> ege_groups ld) →
     NoDup (g_subject <$> ege_groups ld) →
     no_clash teacher_clash sched ∧ no_clash cohort_clash sched).
Proof.
  unfold place_ege_practices. intros Hrun.
  assert (Hempty_av : teachers_available []) by (intros l Hl; inversion Hl).
  assert (Hempty : ∀ R, no_clash R []) by (intros R i j a b Hi; discriminate).
  assert (Hempty_rooms : rooms_inv ld [])
    by (split; [apply Hempty|intros l c Hl; inversion Hl]).
  destruct (ege_groups ld) as [|g gs] eqn:Hg.
  { injection Hrun as <- <-. repeat split; auto. intros l c Hl. inversion Hl. }
  destruct (find_ege_practice_slots ld jitter (max_hours g gs))
    as [ege_slots|] eqn:Hfind; [|discriminate].
  simpl in Hrun. injection Hrun as <- <-.
  split; [apply place_slots_available; assumption|]. split.
  - intros Hnd. apply place_slots_rooms; assumption.
  - intros Hnt Hns.
    apply find_ege_practice_slots_NoDup in Hfind as [Hnd _].
    apply (place_slots_no_clash ld ege_slots 0 []); rewrite ?Hg; auto.
    intros l Hl. inversion Hl.
Qed.

End Phase1Inv.

(** ** Phase 2: the occupancy caches and what they guarantee *)

Module Phase2Cache.
Import Phase2 Phase1Inv.
Import Spec.

Lemma cache_row_put cache k s l k' :
  cache_row (cache_put cache k s l) k'
  = if decide (k = k') then <[s := l]> (cache_row cache k)
    else cache_row cache k'.
Proof.
  unfold cache_put, cache_row at 1. rewrite lookup_insert.
  destruct (decide (k = k')); reflexivity.
Qed.

Lemma cache_ok_add keyf cache sched l :
  cache_ok keyf cache sched →
  cache_ok keyf (cache_add keyf cache l) (sched ++ [l]).
Proof.
  intros Hok k s. unfold cache_add.
  assert (Hold : (∃ x, x ∈ sched ++ [l] ∧ keyf x = Some k ∧ l_time_slot x = s)
           ↔ (∃ x, x ∈ sched ∧ keyf x = Some k ∧ l_time_slot x = s)
             ∨ (keyf l = Some k ∧ l_time_slot l = s)).
  { split.
    - intros (x & Hx & Hk & Hs). apply elem_of_app in Hx as [Hx|Hx].
      + left. eauto.
      + apply list_elem_of_singleton in Hx as ->. right. auto.
    - intros [(x & Hx & H)|H].
      + exists x. split; [apply elem_of_app; by left|exact H].
      + exists l. split; [apply elem_of_app; right; by left|exact H]. }
  rewrite Hold, <- (Hok k s).
  destruct (keyf l) as [k0|] eqn:Hk0.
  - rewrite cache_row_put. destruct (decide (k0 = k)) as [->|Hne].
    + rewrite lookup_insert. destruct (decide (l_time_slot l = s)) as [->|Hs].
      * split; [intros _; right; auto|intros _; eauto].
      * split; [intros H; by left|]. intros [H|[_ H]]; [assumption|congruence].
    + split; [intros H; by left|]. intros [H|[H _]]; [assumption|congruence].
  - split; [intros H; by left|]. intros [H|[H _]]; [assumption|discriminate].
Qed.

Lemma update_cache_caches p l :
  _teacher_schedule (_update_cache p l)
  = cache_add teacher_key (_teacher_schedule p) l
  ∧ _class_schedule (_update_cache p l)
    = cache_add cohort_key (_class_schedule p) l
  ∧ _classroom_schedule (_update_cache p l)
    = cache_add room_key (_classroom_schedule p) l.
Proof.
  unfold _update_cache, cache_add, room_key. simpl.
  destruct (l_classroom l); auto.
Qed.

Lemma update_cache_ok p sched l :
  caches_ok p sched → caches_ok (_update_cache p l) (sched ++ [l]).
Proof.
  intros (Ht & Hc & Hr). unfold caches_ok.
  destruct (update_cache_caches p l) as (-> & -> & ->).
  split; [|split]; apply cache_ok_add; assumption.
Qed.

Lemma update_cache_fixed p l :
  schedule (_update_cache p l) = schedule p
  ∧ ege_slots (_update_cache p l) = ege_slots p
  ∧ stats (_update_cache p l) = stats p.
Proof. auto. Qed.

Lemma build_cache_ok rest : ∀ p pre,
  caches_ok p pre →
  caches_ok (foldl _update_cache p rest) (pre ++ rest)
  ∧ schedule (foldl _update_cache p rest) = schedule p
  ∧ ege_slots (foldl _update_cache p rest) = ege_slots p.
Proof.
  induction rest as [|l rest IH]; intros p pre Hok; simpl.
  - rewrite app_nil_r. auto.
  - destruct (IH (_update_cache p l) (pre ++ [l])) as (H1 & H2 & H3).
    + apply update_cache_ok. assumption.
    + rewrite <- app_assoc in H1. auto.
Qed.

(** [__init__] leaves caches that mirror the schedule it was given. *)
Lemma init_ok sched ege :
  caches_ok (init sched ege) sched
  ∧ schedule (init sched ege) = sched
  ∧ ege_slots (init sched ege) = list_to_set ege.
Proof.
  unfold init, _build_cache. cbn [schedule].
  set (p0 := {| schedule := sched; ege_slots := list_to_set ege;
                stats := mkStats 0 0 0 []; _teacher_schedule := ∅;
                _class_schedule := ∅; _classroom_schedule := ∅ |}).
  apply (build_cache_ok sched p0 []).
  split; [|split]; intros k s; simpl; unfold cache_row;
    rewrite lookup_empty; simpl; rewrite lookup_empty;
    (split; [intros [? ?]; discriminate|]);
    intros (l & Hl & _); inversion Hl.
Qed.

Lemma no_clash_iff (R R' : Lesson → Lesson → Prop) ls :
  (∀ a b, R a b ↔ R' a b) → no_clash R ls ↔ no_clash R' ls.
Proof.
  intros Hiff. unfold no_clash. split; intros H i j a b Hi Hj Hij HR;
    apply (H i j a b Hi Hj Hij); apply Hiff; assumption.
Qed.

Lemma teacher_clash_key a b :
  teacher_clash a b ↔ key_opt_clash teacher_key a b.
Proof.
  unfold teacher_clash, key_opt_clash, teacher_key. split.
  - intros [Hn Hs]. eexists. rewrite Hn. auto.
  - intros (k & Ha & Hb & Hs). split; congruence.
Qed.

Lemma cohort_clash_key a b : cohort_clash a b ↔ key_opt_clash cohort_key a b.
Proof.
  unfold cohort_clash, key_opt_clash, cohort_key. split.
  - intros [Hn Hs]. eexists. rewrite Hn. auto.
  - intros (k & Ha & Hb & Hs). split; congruence.
Qed.



End Phase2Cache.

(** ** Phase 2: every placement keeps the schedule free of double booking *)

Module Phase2Inv.
Import Phase2 Phase1Inv Phase2Cache.
Import Spec.

Lemma is_slot_available_true p slot subject :
  _is_slot_available p slot subject = true
  ↔ is_available (s_teacher subject) (day slot) = true
    ∧ cache_row (_teacher_schedule p) (t_name (s_teacher subject)) !! slot
      = None
    ∧ (∀ c, c ∈ s_classes subject →
            cache_row (_class_schedule p) c !! slot = None)
    ∧ slot ∉ ege_slots p.
Proof.
  unfold _is_slot_available.
  destruct (is_available (s_teacher subject) (day slot)); simpl;
    [|split; [discriminate|intros [[=] _]]].
  case_bool_decide as Ht.
  { split; [discriminate|]. intros (_ & Hn & _). rewrite Hn in Ht.
    destruct Ht. discriminate. }
  apply eq_None_not_Some in Ht.
  destruct (existsb _ (s_classes subject)) eqn:Hc.
  { split; [discriminate|]. intros (_ & _ & Hall & _).
    apply existsb_exists in Hc as (c & Hin & Hc).
    apply bool_decide_eq_true_1 in Hc. rewrite <- list_elem_of_In in Hin.
    rewrite (Hall c Hin) in Hc. destruct Hc. discriminate. }
  assert (Hall : ∀ c, c ∈ s_classes subject →
                      cache_row (_class_schedule p) c !! slot = None).
  { intros c Hin. apply eq_None_not_Some. intros Hsome.
    apply not_true_iff_false in Hc. apply Hc. apply existsb_exists.
    exists c. rewrite <- list_elem_of_In. split; [assumption|].
    apply bool_decide_eq_true_2. assumption. }
  case_bool_decide as He.
  - split; [discriminate|]. intros (_ & _ & _ & Hn). contradiction.
  - split; auto.
Qed.

Lemma find_best_slot_some p scored subject used b :
  _find_best_slot p scored subject used = Some b →
  _is_slot_available p b subject = true ∧ b ∈ scored.*2.
Proof.
  unfold _find_best_slot.
  destruct (List.find _ scored) as [x|] eqn:H1.
  - intros [= <-]. apply find_some in H1 as [Hin Hx].
    apply andb_true_iff in Hx as [_ Hx]. split; [assumption|].
    apply list_elem_of_fmap_2. apply list_elem_of_In. assumption.
  - destruct (List.find (fun x => _is_slot_available p x.2 subject) scored)
      as [x|] eqn:H2; [|discriminate].
    intros [= <-]. apply find_some in H2 as [Hin Hx]. split; [assumption|].
    apply list_elem_of_fmap_2. apply list_elem_of_In. assumption.
Qed.

Lemma find_best_slot_none p scored subject used :
  _find_best_slot p scored subject used = None
  ↔ ∀ s, s ∈ scored.*2 → _is_slot_available p s subject = false.
Proof.
  unfold _find_best_slot. split.
  - destruct (List.find _ scored) as [x|] eqn:H1; [discriminate|].
    destruct (List.find (fun x => _is_slot_available p x.2 subject) scored)
      as [x|] eqn:H2; [discriminate|].
    intros _ s Hs. apply list_elem_of_fmap in Hs as (x & -> & Hx).
    apply list_elem_of_In in Hx. exact (find_none _ _ H2 x Hx).
  - intros Hall.
    assert (Hno : ∀ x, x ∈ scored → _is_slot_available p x.2 subject = false).
    { intros x Hx. apply Hall. apply list_elem_of_fmap_2. assumption. }
    destruct (List.find _ scored) as [x|] eqn:H1.
    { apply find_some in H1 as [Hin Hx]. apply list_elem_of_In in Hin.
      apply andb_true_iff in Hx as [_ Hx]. rewrite (Hno x Hin) in Hx.
      discriminate. }
    destruct (List.find (fun x => _is_slot_available p x.2 subject) scored)
      as [x|] eqn:H2; [|reflexivity].
    apply find_some in H2 as [Hin Hx]. apply list_elem_of_In in Hin.
    rewrite (Hno x Hin) in Hx. discriminate.
Qed.

Lemma find_classroom_free ld p subject slot c :
  _find_classroom ld p subject slot = Some c →
  cache_row (_classroom_schedule p) (c_number c) !! slot = None.
Proof.
  unfold _find_classroom.
  assert (Hany : List.find (fun c0 => classroom_free p (c_number c0) slot)
                           (classrooms ld) = Some c →
                 cache_row (_classroom_schedule p) (c_number c) !! slot
                 = None).
  { intros Hf. apply find_some in Hf as [_ Hf].
    apply bool_decide_eq_true_1 in Hf. exact Hf. }
  destruct (t_home_classroom (s_teacher subject)) as [home|]; [|exact Hany].
  destruct (str_truthy home); [|exact Hany].
  destruct (classrooms_get ld home) as [home_room|]; [|exact Hany].
  destruct (classroom_free p (c_number home_room) slot) eqn:Hfree;
    [|exact Hany].
  intros [= <-]. apply bool_decide_eq_true_1 in Hfree. exact Hfree.
Qed.


(** The two outcomes of one hour. *)
Lemma place_hour_cases ld subject h :
  (_find_best_slot (placer h) (scored_slots h) subject (days_used h) = None
   ∧ schedule (placer (place_hour ld subject h)) = schedule (placer h)
   ∧ _teacher_schedule (placer (place_hour ld subject h))
     = _teacher_schedule (placer h)
   ∧ _class_schedule (placer (place_hour ld subject h))
     = _class_schedule (placer h)
   ∧ _classroom_schedule (placer (place_hour ld subject h))
     = _classroom_schedule (placer h)
   ∧ ege_slots (placer (place_hour ld subject h)) = ege_slots (placer h)
   ∧ failed (stats (placer (place_hour ld subject h)))
     = failed (stats (placer h)) + 1
   ∧ placed (stats (placer (place_hour ld subject h)))
     = placed (stats (placer h))
   ∧ scored_slots (place_hour ld subject h) = scored_slots h)
  ∨ (∃ b,
       _find_best_slot (placer h) (scored_slots h) subject (days_used h)
       = Some b
       ∧ let lesson := mandatory_lesson subject b
                         (_find_classroom ld (placer h) subject b) in
         schedule (placer (place_hour ld subject h))
         = schedule (placer h) ++ [lesson]
         ∧ _teacher_schedule (placer (place_hour ld subject h))
           = cache_add teacher_key (_teacher_schedule (placer h)) lesson
         ∧ _class_schedule (placer (place_hour ld subject h))
           = cache_add cohort_key (_class_schedule (placer h)) lesson
         ∧ _classroom_schedule (placer (place_hour ld subject h))
           = cache_add room_key (_classroom_schedule (placer h)) lesson
         ∧ ege_slots (placer (place_hour ld subject h))
           = ege_slots (placer h)
         ∧ failed (stats (placer (place_hour ld subject h)))
           = failed (stats (placer h))
         ∧ placed (stats (placer (place_hour ld subject h)))
           = placed (stats (placer h)) + 1
         ∧ scored_slots (place_hour ld subject h)
           = filter (fun x => x.2 ≠ b) (scored_slots h)).
Proof.
  unfold place_hour.
  destruct (_find_best_slot _ _ _ _) as [b|]; [right|left].
  - exists b. split; [reflexivity|]. cbv zeta. simpl.
    unfold cache_add, room_key, teacher_key, cohort_key. simpl.
    destruct (_find_classroom ld (placer h) subject b); simpl;
      repeat split; reflexivity.
  - simpl. repeat split; reflexivity.
Qed.





Lemma place_hour_available ld subject h :
  placer_available (placer h) →
  placer_available (placer (place_hour ld subject h)).
Proof.
  unfold placer_available. intros Hinv.
  destruct (place_hour_cases ld subject h)
    as [(_ & -> & _)|(b & Hbest & -> & _)]; [assumption|].
  apply find_best_slot_some in Hbest as [Hb _].
  apply is_slot_available_true in Hb as (Hday & _).
  apply teachers_available_snoc; assumption.
Qed.

Lemma foldl_preserves_in {A B} (P : A → Prop) (f : A → B → A) l : ∀ acc,
  (∀ a x, x ∈ l → P a → P (f a x)) → P acc → P (foldl f acc l).
Proof.
  induction l as [|x l IH]; intros acc Hf Hacc; simpl; [assumption|].
  apply IH.
  - intros a y Hy. apply Hf. by right.
  - apply Hf; [by left|assumption].
Qed.

Lemma group_add_ok by_class c sub :
  s_classes sub ≠ [] → grouped_ok by_class →
  grouped_ok (group_add by_class c sub).
Proof.
  intros Hsub. induction by_class as [|[c0 l0] rest IH]; intros Hok; simpl.
  - intros g x Hg Hx. apply list_elem_of_singleton in Hg as ->. simpl in Hx.
    apply list_elem_of_singleton in Hx as ->. assumption.
  - assert (Hrest : grouped_ok rest).
    { intros g x Hg Hx. apply (Hok g x); [by right|assumption]. }
    case_bool_decide.
    + intros g x Hg Hx. apply elem_of_cons in Hg as [->|Hg].
      * simpl in Hx. apply elem_of_app in Hx as [Hx|Hx].
        -- apply (Hok (c0, l0) x); [by left|assumption].
        -- apply list_elem_of_singleton in Hx as ->. assumption.
      * apply (Hrest g x); assumption.
    + intros g x Hg Hx. apply elem_of_cons in Hg as [->|Hg].
      * apply (Hok (c0, l0) x); [by left|assumption].
      * apply (IH Hrest g x); assumption.
Qed.

Lemma group_by_class_ok subjects : grouped_ok (_group_by_class subjects).
Proof.
  unfold _group_by_class. apply foldl_preserves.
  - intros acc sub Hacc. apply foldl_preserves_in; [|assumption].
    intros a c Hc Ha. apply group_add_ok; [|assumption].
    intros Hnil. rewrite Hnil in Hc. inversion Hc.
  - intros g sub Hg. inversion Hg.
Qed.

(** A property of the placer that every hour of a subject with at least one
    class keeps, and that does not read the statistics, is kept by the whole
    of Phase 2. *)
Section Whole.
Variable lower : string → string.
Variable ld : Loader.
Variable P : Placer → Prop.
Hypothesis P_hour : ∀ subject h,
  s_classes subject ≠ [] → P (placer h) → P (placer (place_hour ld subject h)).
Hypothesis P_stats : ∀ p st,
  P p → P {| schedule := schedule p; ege_slots := ege_slots p; stats := st;
             _teacher_schedule := _teacher_schedule p;
             _class_schedule := _class_schedule p;
             _classroom_schedule := _classroom_schedule p |}.

Lemma iter_place_hour_keeps subject n : ∀ h,
  s_classes subject ≠ [] →
  P (placer h) → P (placer (Nat.iter n (place_hour ld subject) h)).
Proof.
  induction n as [|n IH]; intros h Hcls Hinv; simpl; [assumption|].
  apply P_hour; auto.
Qed.

Lemma place_subject_keeps p subject :
  s_classes subject ≠ [] → P p → P (_place_subject lower ld p subject).1.
Proof.
  intros Hcls Hinv. unfold _place_subject. simpl.
  apply iter_place_hour_keeps; assumption.
Qed.

Lemma place_all_keeps p :
  P p → P (place_all_mandatory_subjects lower ld p).
Proof.
  intros Hinv. unfold place_all_mandatory_subjects.
  apply foldl_preserves_in.
  - intros a g Hg Ha. apply foldl_preserves_in; [|assumption].
    intros a' sub Hsub Ha'. apply place_subject_keeps; [|assumption].
    eapply group_by_class_ok; eassumption.
  - apply P_stats. exact Hinv.
Qed.

End Whole.





Lemma phase2_available lower ld sched ege :
  teachers_available sched →
  teachers_available
    (schedule (place_all_mandatory_subjects lower ld (init sched ege))).
Proof.
  intros Hav. apply (place_all_keeps lower ld placer_available).
  - intros subject h _. apply place_hour_available.
  - intros p st Hinv. exact Hinv.
  - unfold placer_available. destruct (init_ok sched ege) as (_ & -> & _).
    exact Hav.
Qed.

End Phase2Inv.

(** ** The guarantees of the whole run *)

Module Guarantees.
Import Pipeline Phase1Inv Phase2Inv Phase3Inv.
Import Spec.

Lemma generate_some lower ld jitter quality draws out :
  generate lower ld jitter quality draws = Some out →
  ∃ ege,
    Phase1.place_ege_practices ld jitter = Some (after_phase1 out, ege)
    ∧ after_phase2 out
      = Phase2.schedule (Phase2.place_all_mandatory_subjects lower ld
                           (Phase2.init (after_phase1 out) ege))
    ∧ after_phase3 out
      = Phase3.optimize quality (Phase3._build_indices (after_phase2 out))
                        draws.
Proof.
  unfold generate.
  destruct (Phase1.place_ege_practices ld jitter) as [[sched1 ege]|];
    [|discriminate].
  intros [= <-]. simpl. eauto.
Qed.

(** C4. In the schedules saved after Phase 1, after Phase 2 and after Phase 3,
    no lesson is on a weekday that belongs to its teacher's
    [unavailable_days]; so a teacher unavailable on Monday teaches no Monday
    lesson. *)
Theorem unavailable_teacher_never_scheduled
    (lower : string → string) (ld : Loader) (jitter : TimeSlot → Q)
    (quality : list Lesson → Q) (draws : list Phase3.Draw) (out : Outputs) :
  generate lower ld jitter quality draws = Some out →
  ∀ l d, l ∈ after_phase1 out ∨ l ∈ after_phase2 out ∨ l ∈ after_phase3 out →
         d ∈ t_unavailable_days (l_teacher l) →
         day (l_time_slot l) ≠ d.
Proof.
  intros Hgen. apply generate_some in Hgen as (ege & H1 & H2 & H3).
  pose proof (place_ege_practices_inv _ _ _ _ H1) as (Hav1 & _).
  assert (Hav2 : teachers_available (after_phase2 out)).
  { rewrite H2. apply phase2_available. exact Hav1. }
  assert (Hav3 : teachers_available (after_phase3 out)).
  { rewrite H3. apply optimize_teachers_available. exact Hav2. }
  intros l d Hl Hd Hday.
  assert (Hav : is_available (l_teacher l) (day (l_time_slot l)) = true).
  { destruct Hl as [Hl|[Hl|Hl]]; auto. }
  unfold is_available in Hav. apply bool_decide_eq_true_1 in Hav.
  apply Hav. rewrite Hday. exact Hd.
Qed.

Lemma unavailable_teacher_never_scheduled_witness :
  day (l_time_slot friday_physics) ≠ MONDAY.
Proof.
  apply (unavailable_teacher_never_scheduled (fun s => s) small_school
           (fun _ => 0%Q) (fun _ => 0%Q)
           [Phase3.mkDraw 0 0 false; Phase3.mkDraw 3 1 true]
           (default (mkOutputs [] [] []) small_run)).
  - vm_compute. reflexivity.
  - right. left. refine (bool_decide_unpack _ _). vm_compute. exact I.
  - refine (bool_decide_unpack _ _). vm_compute. exact I.
Defined.




End Guarantees.

(** ** Phase 2: the score of a legal slot *)

Module Phase2Score.
Import Phase2 Phase1Facts Phase1Inv Phase2Cache Phase2Inv.
Import Spec.

Lemma zmax_spec l : l ≠ [] → zmax l ∈ l ∧ ∀ x, x ∈ l → x ≤ zmax l.
Proof.
  destruct l as [|a r]; [congruence|]. intros _. simpl.
  induction r as [|b r IH]; simpl.
  - split; [by left|]. intros x Hx. apply list_elem_of_singleton in Hx. lia.
  - destruct IH as [Hin Hle]. split.
    + destruct (Z.max_spec b (foldr Z.max a r)) as [[_ ->]|[_ ->]].
      * apply elem_of_cons in Hin as [->|Hin]; [by left|].
        right. by right.
      * right. by left.
    + intros x Hx.
      assert (Hx' : x = b ∨ x ∈ a :: r).
      { apply elem_of_cons in Hx as [->|Hx]; [right; by left|].
        apply elem_of_cons in Hx as [->|Hx]; [by left|right; by right]. }
      destruct Hx' as [->|Hx']; [lia|]. specialize (Hle x Hx'). lia.
Qed.

Lemma zmin_spec l : l ≠ [] → zmin l ∈ l ∧ ∀ x, x ∈ l → zmin l ≤ x.
Proof.
  destruct l as [|a r]; [congruence|]. intros _. simpl.
  induction r as [|b r IH]; simpl.
  - split; [by left|]. intros x Hx. apply list_elem_of_singleton in Hx. lia.
  - destruct IH as [Hin Hle]. split.
    + destruct (Z.min_spec b (foldr Z.min a r)) as [[_ ->]|[_ ->]].
      * right. by left.
      * apply elem_of_cons in Hin as [->|Hin]; [by left|].
        right. by right.
    + intros x Hx.
      assert (Hx' : x = b ∨ x ∈ a :: r).
      { apply elem_of_cons in Hx as [->|Hx]; [right; by left|].
        apply elem_of_cons in Hx as [->|Hx]; [by left|right; by right]. }
      destruct Hx' as [->|Hx']; [lia|]. specialize (Hle x Hx'). lia.
Qed.

Lemma zmax_unique l m : m ∈ l → (∀ x, x ∈ l → x ≤ m) → zmax l = m.
Proof.
  intros Hin Hle. assert (Hne : l ≠ []) by (intros ->; inversion Hin).
  destruct (zmax_spec l Hne) as [Hin' Hle'].
  specialize (Hle _ Hin'). specialize (Hle' _ Hin). lia.
Qed.

Lemma zmin_unique l m : m ∈ l → (∀ x, x ∈ l → m ≤ x) → zmin l = m.
Proof.
  intros Hin Hle. assert (Hne : l ≠ []) by (intros ->; inversion Hin).
  destruct (zmin_spec l Hne) as [Hin' Hle'].
  specialize (Hle _ Hin'). specialize (Hle' _ Hin). lia.
Qed.

Lemma idle_periods_perm l l' : l ≡ₚ l' → idle_periods l = idle_periods l'.
Proof.
  intros Hp. destruct l as [|a r].
  { apply Permutation_nil_l in Hp. subst. reflexivity. }
  destruct l' as [|a' r'].
  { apply Permutation_nil_r in Hp. discriminate. }
  unfold idle_periods. rewrite (Permutation_length Hp).
  destruct (zmax_spec (a' :: r')) as [Hmax_in Hmax_le]; [discriminate|].
  destruct (zmin_spec (a' :: r')) as [Hmin_in Hmin_le]; [discriminate|].
  rewrite (zmax_unique (a :: r) (zmax (a' :: r'))),
          (zmin_unique (a :: r) (zmin (a' :: r'))); try reflexivity.
  - rewrite Hp. assumption.
  - intros x Hx. apply Hmin_le. rewrite <- Hp. assumption.
  - rewrite Hp. assumption.
  - intros x Hx. apply Hmax_le. rewrite <- Hp. assumption.
Qed.

(** The sum of the gaps between neighbours telescopes. *)
Lemma adjacent_gaps_span l : ∀ a,
  adjacent_gaps (a :: l)
  = default a (last (a :: l)) - a - Z.of_nat (length l).
Proof.
  induction l as [|b r IH]; intros a.
  - simpl. lia.
  - change (adjacent_gaps (a :: b :: r))
      with (b - a - 1 + adjacent_gaps (b :: r)).
    rewrite IH. rewrite (last_cons_cons a b r).
    assert (Hlast : default a (last (b :: r)) = default b (last (b :: r))).
    { destruct (last (b :: r)) eqn:E; [reflexivity|].
      apply last_None in E. discriminate. }
    rewrite Hlast. cbn [length]. lia.
Qed.

Lemma insert_sorted_Zleb_sorted x l :
  StronglySorted Z.le l → StronglySorted Z.le (insert_sorted Z.leb x l).
Proof.
  induction l as [|y l IH]; intros Hs; simpl.
  - repeat constructor.
  - apply StronglySorted_inv in Hs as [Hs Hy].
    destruct (x <=? y) eqn:Hxy.
    + apply Z.leb_le in Hxy. constructor; [constructor; assumption|].
      constructor; [assumption|].
      eapply Forall_impl; [exact Hy|]. intros z Hz. simpl in Hz. lia.
    + apply Z.leb_gt in Hxy. constructor; [auto|].
      rewrite insert_sorted_perm. constructor; [lia|assumption].
Qed.

Lemma stable_sort_Zleb_sorted l : StronglySorted Z.le (stable_sort Z.leb l).
Proof.
  induction l as [|x l IH]; simpl; [constructor|].
  apply insert_sorted_Zleb_sorted. exact IH.
Qed.

Lemma sorted_last_max l : ∀ a,
  StronglySorted Z.le (a :: l) →
  ∀ x, x ∈ a :: l → x ≤ default a (last (a :: l)).
Proof.
  induction l as [|b r IH]; intros a Hs x Hx.
  - apply list_elem_of_singleton in Hx as ->. simpl. lia.
  - apply StronglySorted_inv in Hs as [Hs Ha].
    rewrite (last_cons_cons a b r).
    assert (Hlast : default a (last (b :: r)) = default b (last (b :: r))).
    { destruct (last (b :: r)) eqn:E; [reflexivity|].
      apply last_None in E. discriminate. }
    rewrite Hlast.
    assert (Hb : b ≤ default b (last (b :: r))) by (apply IH; [|by left]; auto).
    apply elem_of_cons in Hx as [->|Hx].
    + apply Forall_cons in Ha as [Hab _]. lia.
    + apply IH; assumption.
Qed.

(** On a sorted day, the gaps between neighbours add up to the idle
    periods. *)
Lemma adjacent_gaps_sorted l :
  l ≠ [] → adjacent_gaps (stable_sort Z.leb l) = idle_periods l.
Proof.
  intros Hne.
  pose proof (stable_sort_perm Z.leb l) as Hp.
  pose proof (stable_sort_Zleb_sorted l) as Hs.
  rewrite <- (idle_periods_perm _ _ Hp).
  destruct (stable_sort Z.leb l) as [|a r] eqn:E.
  { apply Permutation_nil_l in Hp. congruence. }
  rewrite adjacent_gaps_span. unfold idle_periods.
  rewrite (zmax_unique (a :: r) (default a (last (a :: r)))).
  - rewrite (zmin_unique (a :: r) a).
    + cbn [length]. lia.
    + by left.
    + intros x Hx. apply StronglySorted_inv in Hs as [_ Ha].
      apply elem_of_cons in Hx as [->|Hx]; [lia|].
      rewrite Forall_forall in Ha. auto.
  - destruct (last (a :: r)) as [z|] eqn:El.
    + simpl. apply last_Some_elem_of. exact El.
    + apply last_None in El. discriminate.
  - apply sorted_last_max. exact Hs.
Qed.

Lemma no_clash_cons_inv (R : Lesson → Lesson → Prop) a ls :
  no_clash R (a :: ls) → no_clash R ls ∧ ∀ x, x ∈ ls → ¬ R a x.
Proof.
  intros Hno. split.
  - intros i j x y Hi Hj Hij. apply (Hno (S i) (S j) x y); auto.
  - intros x Hx. apply list_elem_of_lookup_1 in Hx as [j Hj].
    apply (Hno 0%nat (S j) a x); auto.
Qed.

Lemma key_slots_NoDup keyf k sched :
  no_clash (key_opt_clash keyf) sched →
  NoDup (l_time_slot <$> filter (fun l => keyf l = Some k) sched).
Proof.
  induction sched as [|a ls IH]; intros Hno; [constructor|].
  apply no_clash_cons_inv in Hno as [Hno Ha].
  rewrite filter_cons. case_decide as Hk; [|auto].
  rewrite fmap_cons. constructor; [|auto].
  intros Hin. apply list_elem_of_fmap in Hin as (x & Hs & Hx).
  apply list_elem_of_filter in Hx as [Hkx Hx].
  apply (Ha x Hx). exists k. auto.
Qed.


Lemma filter_day_slots keyf k d sched :
  filter (fun ts => day ts = d)
         (l_time_slot <$> filter (fun l => keyf l = Some k) sched)
  = l_time_slot <$> on_day keyf k d sched.
Proof.
  unfold on_day. induction sched as [|a ls IH]; [reflexivity|].
  rewrite !filter_cons.
  destruct (decide (keyf a = Some k)) as [Hk|Hk].
  - rewrite fmap_cons, filter_cons.
    destruct (decide (day (l_time_slot a) = d)) as [Hd|Hd].
    + rewrite decide_True by auto. rewrite fmap_cons, IH. reflexivity.
    + rewrite decide_False by tauto. exact IH.
  - rewrite decide_False by tauto. exact IH.
Qed.

Lemma length_filter_fst {A B} (P : A → Prop) `{∀ x, Decision (P x)}
    (l : list (A * B)) :
  length (filter (fun kv => P kv.1) l) = length (filter P l.*1).
Proof.
  induction l as [|[a b] l IH]; [reflexivity|].
  rewrite fmap_cons, !filter_cons. simpl.
  destruct (decide (P a)); simpl; rewrite IH; reflexivity.
Qed.


Lemma evaluate_slot_sum p slot subject is_hard :
  _is_slot_available p slot subject = true →
  _evaluate_slot p slot subject is_hard
  = 100 + band is_hard (lesson_number slot) + edge (lesson_number slot)
    - 3 * cache_load p subject (day slot)
    - 5 * cache_gaps p (t_name (s_teacher subject)) slot
    + cache_bonus p (t_name (s_teacher subject)) slot.
Proof.
  intros Hav. unfold _evaluate_slot. rewrite Hav. cbn [negb].
  apply is_slot_available_true in Hav as (_ & _ & _ & Hege).
  rewrite (bool_decide_eq_false_2 _ Hege).
  unfold cache_load, cache_gaps, cache_bonus, cache_teacher_slots, band, edge.
  set (n := lesson_number slot).
  destruct (filter (fun ts => day ts = day slot)
              (map_to_list
                 (cache_row (_teacher_schedule p)
                            (t_name (s_teacher subject)))).*1)
    as [|t0 ts]; destruct (bool_decide _);
    destruct (head (s_classes subject)) as [c|];
    try destruct (str_truthy c);
    destruct is_hard; destruct ((2 <=? n) && (n <=? 4));
    destruct (n =? 1); destruct (n =? 7);
    destruct (6 <=? n); destruct (5 <=? n); lia.
Qed.







Lemma gap_day_no_clash (R : Lesson → Lesson → Prop) :
  (∀ a b, R a b → l_time_slot a = l_time_slot b) → no_clash R gap_day.
Proof.
  intros HR i j a b Hi Hj Hij Hab. apply HR in Hab.
  destruct i as [|[|i]], j as [|[|j]]; simpl in Hi, Hj; simplify_eq;
    try congruence; discriminate.
Qed.


End Phase2Score.

(** ** Phase 2: an hour fails exactly when no slot is legal *)

Module Phase2Hours.
Import Phase2 Phase1Facts Phase1Inv Phase2Cache Phase2Inv Phase2Score.
Import Spec.

Lemma elem_of_all_time_slots s :
  s ∈ all_time_slots ↔ 1 ≤ lesson_number s ≤ 7.
Proof.
  unfold all_time_slots. rewrite list_elem_of_bind. split.
  - intros (d & Hs & _). apply list_elem_of_fmap in Hs as (n & -> & Hn).
    simpl. repeat (apply elem_of_cons in Hn as [->|Hn]; [lia|]).
    inversion Hn.
  - intros Hper. exists (day s).
    split; [|destruct (day s); unfold all_days;
               repeat first [apply list_elem_of_here
                            |apply list_elem_of_further]].
    apply list_elem_of_fmap. exists (lesson_number s).
    split; [destruct s; reflexivity|].
    assert (lesson_number s = 1 ∨ lesson_number s = 2 ∨ lesson_number s = 3
            ∨ lesson_number s = 4 ∨ lesson_number s = 5
            ∨ lesson_number s = 6 ∨ lesson_number s = 7) as Hc by lia.
    clear Hper.
    destruct Hc as [->|[->|[->|[->|[->|[->| ->]]]]]];
      repeat first [apply list_elem_of_here | apply list_elem_of_further].
Qed.

Lemma existsb_false_iff {A} (f : A → bool) (l : list A) :
  existsb f l = false ↔ ∀ x, x ∈ l → f x = false.
Proof.
  rewrite <- not_true_iff_false, existsb_exists. split.
  - intros Hno x Hx. apply not_true_iff_false. intros Hf. apply Hno.
    exists x. rewrite <- list_elem_of_In. auto.
  - intros Hall (x & Hx & Hf). rewrite <- list_elem_of_In in Hx.
    rewrite (Hall x Hx) in Hf. discriminate.
Qed.

(** With faithful caches, [_is_slot_available] decides legality. *)
Lemma is_slot_available_legal p s subject :
  caches_ok p (schedule p) →
  _is_slot_available p s subject
  = legal_slot (schedule p) (ege_slots p) subject s.
Proof.
  intros (Hok_t & Hok_c & _).
  apply eq_true_iff_eq. rewrite is_slot_available_true. unfold legal_slot.
  rewrite !andb_true_iff, !negb_true_iff, !existsb_false_iff,
    bool_decide_eq_true.
  assert (Ht : cache_row (_teacher_schedule p) (t_name (s_teacher subject))
               !! s = None
             ↔ ∀ x, x ∈ schedule p →
                 bool_decide (t_name (l_teacher x) = t_name (s_teacher subject)
                              ∧ l_time_slot x = s) = false).
  { rewrite eq_None_not_Some, (Hok_t _ s). split.
    - intros Hno x Hx. apply bool_decide_eq_false_2. intros [Hn Hs].
      apply Hno. exists x. unfold teacher_key. rewrite Hn. auto.
    - intros Hall (x & Hx & Hk & Hs). specialize (Hall x Hx).
      apply bool_decide_eq_false_1 in Hall. apply Hall.
      unfold teacher_key in Hk. split; congruence. }
  assert (Hc : (∀ c, c ∈ s_classes subject →
                     cache_row (_class_schedule p) c !! s = None)
             ↔ ∀ x, x ∈ schedule p →
                 bool_decide (l_class_or_group x ∈ s_classes subject
                              ∧ l_time_slot x = s) = false).
  { split.
    - intros Hfree x Hx. apply bool_decide_eq_false_2. intros [Hin Hs].
      specialize (Hfree _ Hin). apply eq_None_not_Some in Hfree.
      apply Hfree. apply Hok_c. exists x. unfold cohort_key. auto.
    - intros Hall c Hin. apply eq_None_not_Some. intros Hsome.
      apply Hok_c in Hsome as (x & Hx & Hk & Hs). specialize (Hall x Hx).
      apply bool_decide_eq_false_1 in Hall. apply Hall.
      unfold cohort_key in Hk. injection Hk as ->. auto. }
  rewrite Ht, Hc. tauto.
Qed.

Lemma cache_ok_in_grid keyf cache sched :
  cache_ok keyf cache sched →
  (∀ l, l ∈ sched → l_time_slot l ∈ all_time_slots) →
  cache_in_grid cache.
Proof.
  intros Hok Hgrid k s Hs. apply Hok in Hs as (l & Hl & _ & <-). auto.
Qed.

Lemma day_slots_bound (l : list TimeSlot) d :
  NoDup l →
  (∀ s, s ∈ l → day s = d ∧ s ∈ all_time_slots) →
  (length l ≤ 7)%nat.
Proof.
  intros Hnd Hall.
  assert (Hnd' : NoDup (lesson_number <$> l)).
  { apply NoDup_fmap_2_strong; [|assumption].
    intros [d1 n1] [d2 n2] H1 H2 Heq. simpl in Heq. subst n2.
    destruct (Hall _ H1) as [Hd1 _]. destruct (Hall _ H2) as [Hd2 _].
    simpl in Hd1, Hd2. congruence. }
  rewrite <- (length_fmap lesson_number).
  change 7%nat with (length [1; 2; 3; 4; 5; 6; 7]).
  apply submseteq_length. apply NoDup_submseteq; [assumption|].
  intros n Hn. apply list_elem_of_fmap in Hn as (s & -> & Hs).
  destruct (Hall _ Hs) as [_ Hg]. apply elem_of_all_time_slots in Hg.
  assert (lesson_number s = 1 ∨ lesson_number s = 2 ∨ lesson_number s = 3
          ∨ lesson_number s = 4 ∨ lesson_number s = 5
          ∨ lesson_number s = 6 ∨ lesson_number s = 7) as Hc by lia.
  destruct Hc as [->|[->|[->|[->|[->|[->| ->]]]]]];
    repeat first [apply list_elem_of_here | apply list_elem_of_further].
Qed.

Lemma cache_row_day_slots cache k d :
  cache_in_grid cache →
  NoDup (filter (fun ts => day ts = d) (map_to_list (cache_row cache k)).*1)
  ∧ ∀ s, s ∈ filter (fun ts => day ts = d)
                    (map_to_list (cache_row cache k)).*1 →
         day s = d ∧ s ∈ all_time_slots.
Proof.
  intros Hg. split.
  - apply NoDup_filter. apply NoDup_fst_map_to_list.
  - intros s Hs. apply list_elem_of_filter in Hs as [Hd Hs].
    split; [assumption|]. apply list_elem_of_fmap in Hs as ([s' l] & -> & Hin).
    apply elem_of_map_to_list in Hin. apply (Hg k). eauto.
Qed.

Lemma cache_load_bound p subject d :
  cache_in_grid (_class_schedule p) → cache_load p subject d ≤ 7.
Proof.
  intros Hg. unfold cache_load.
  destruct (head (s_classes subject)) as [c|]; [|lia].
  destruct (str_truthy c); [|lia].
  pose proof (length_filter_fst (fun ts => day ts = d)
                (map_to_list (cache_row (_class_schedule p) c))) as Hlen.
  cbv beta in Hlen. rewrite Hlen.
  destruct (cache_row_day_slots (_class_schedule p) c d Hg) as [Hnd Hall].
  pose proof (day_slots_bound _ d Hnd Hall). lia.
Qed.

Lemma cache_gaps_bound p name slot :
  cache_in_grid (_teacher_schedule p) → slot ∈ all_time_slots →
  cache_gaps p name slot ≤ 5.
Proof.
  intros Hg Hslot. unfold cache_gaps, cache_teacher_slots.
  destruct (cache_row_day_slots (_teacher_schedule p) name (day slot) Hg)
    as [_ Hall].
  destruct (filter _ _) as [|t0 ts] eqn:E; [lia|].
  set (periods := (lesson_number <$> t0 :: ts) ++ [lesson_number slot]).
  assert (Hrange : ∀ n, n ∈ periods → 1 ≤ n ≤ 7).
  { intros n Hn. apply elem_of_app in Hn as [Hn|Hn].
    - apply list_elem_of_fmap in Hn as (s & -> & Hs).
      apply elem_of_all_time_slots. apply Hall. exact Hs.
    - apply list_elem_of_singleton in Hn as ->.
      apply elem_of_all_time_slots. exact Hslot. }
  pose proof (stable_sort_perm Z.leb periods) as Hp.
  assert (Hlen : (2 ≤ length (stable_sort Z.leb periods))%nat).
  { rewrite (Permutation_length Hp). unfold periods.
    rewrite length_app, length_fmap. simpl. lia. }
  destruct (stable_sort Z.leb periods) as [|a r] eqn:Es; [simpl in Hlen; lia|].
  rewrite adjacent_gaps_span.
  assert (Ha : 1 ≤ a ≤ 7) by (apply Hrange; rewrite <- Hp; by left).
  assert (Hl : 1 ≤ default a (last (a :: r)) ≤ 7).
  { destruct (last (a :: r)) as [z|] eqn:El; [|simpl; lia].
    simpl. apply Hrange. rewrite <- Hp. eapply last_Some_elem_of. exact El. }
  simpl in Hlen. lia.
Qed.

(** A legal slot of the grid always scores above zero, so
    [_evaluate_all_slots] keeps it. *)
Lemma evaluate_slot_positive p slot subject is_hard :
  cache_in_grid (_teacher_schedule p) → cache_in_grid (_class_schedule p) →
  slot ∈ all_time_slots →
  _is_slot_available p slot subject = true →
  0 < _evaluate_slot p slot subject is_hard.
Proof.
  intros Hgt Hgc Hslot Hav. rewrite (evaluate_slot_sum _ _ _ _ Hav).
  pose proof (cache_load_bound p subject (day slot) Hgc).
  pose proof (cache_gaps_bound p (t_name (s_teacher subject)) slot Hgt Hslot).
  assert (0 ≤ cache_bonus p (t_name (s_teacher subject)) slot)
    by (unfold cache_bonus; destruct (bool_decide _); lia).
  assert (-45 ≤ band is_hard (lesson_number slot) + edge (lesson_number slot)).
  { unfold band, edge. destruct is_hard;
      destruct ((2 <=? lesson_number slot) && (lesson_number slot <=? 4));
      destruct (lesson_number slot =? 1); destruct (lesson_number slot =? 7);
      destruct (6 <=? lesson_number slot);
      destruct (5 <=? lesson_number slot); lia. }
  lia.
Qed.

Lemma elem_of_evaluate_all_slots p subject is_hard s :
  s ∈ (_evaluate_all_slots p subject is_hard).*2
  ↔ s ∈ all_time_slots ∧ 0 < _evaluate_slot p s subject is_hard.
Proof.
  unfold _evaluate_all_slots. rewrite stable_sort_perm.
  rewrite list_elem_of_fmap. split.
  - intros ([sc s'] & -> & Hin). apply list_elem_of_filter in Hin as [Hpos Hin].
    apply list_elem_of_fmap in Hin as (s0 & [= -> ->] & Hs0). auto.
  - intros [Hs Hpos]. exists (_evaluate_slot p s subject is_hard, s).
    split; [reflexivity|]. apply list_elem_of_filter. split; [exact Hpos|].
    apply list_elem_of_fmap. eauto.
Qed.

Lemma first_hour_inv lower p subject :
  caches_ok p (schedule p) →
  (∀ l, l ∈ schedule p → l_time_slot l ∈ all_time_slots) →
  hour_inv p subject (first_hour lower p subject).
Proof.
  intros Hok Hgrid. unfold hour_inv, first_hour. simpl.
  split; [assumption|]. split; [assumption|]. split; [reflexivity|].
  destruct Hok as (Hok_t & Hok_c & _). split.
  - intros s Hs. apply elem_of_evaluate_all_slots in Hs. tauto.
  - intros s Hs Hav. apply elem_of_evaluate_all_slots. split; [assumption|].
    apply evaluate_slot_positive; try assumption.
    + eapply cache_ok_in_grid; eassumption.
    + eapply cache_ok_in_grid; eassumption.
Qed.

Lemma cache_add_row_None keyf cache l k s :
  cache_row (cache_add keyf cache l) k !! s = None →
  cache_row cache k !! s = None.
Proof.
  unfold cache_add. destruct (keyf l) as [k0|]; [|auto].
  rewrite cache_row_put. destruct (decide (k0 = k)) as [->|]; [|auto].
  rewrite lookup_insert. destruct (decide (l_time_slot l = s)); [|auto].
  discriminate.
Qed.

Lemma place_hour_hour_inv ld p0 subject h :
  hour_inv p0 subject h → hour_inv p0 subject (place_hour ld subject h).
Proof.
  intros (Hok & Hgrid & Hege & Hsub & Hall). unfold hour_inv.
  destruct (place_hour_cases ld subject h)
    as [(_ & Hs & Ht & Hc & Hr & He & _ & _ & Hsc)
       |(b & Hbest & Hs & Ht & Hc & Hr & He & _ & _ & Hsc)].
  - assert (Hsame : ∀ s, _is_slot_available (placer (place_hour ld subject h))
                           s subject
                         = _is_slot_available (placer h) s subject).
    { intros s. unfold _is_slot_available. rewrite Ht, Hc, He. reflexivity. }
    rewrite Hs, He, Hsc. unfold caches_ok. rewrite Ht, Hc, Hr.
    split; [exact Hok|]. split; [exact Hgrid|]. split; [exact Hege|].
    split; [exact Hsub|]. intros s Hin Hav. rewrite Hsame in Hav. auto.
  - cbv zeta in Hs, Ht, Hc, Hr.
    apply find_best_slot_some in Hbest as [Hb Hbin].
    rewrite Hs, He, Hsc. unfold caches_ok. rewrite Ht, Hc, Hr.
    destruct Hok as (Hok_t & Hok_c & Hok_r).
    split; [split; [|split]; apply cache_ok_add; assumption|].
    split.
    { intros l Hl. apply elem_of_app in Hl as [Hl|Hl]; [auto|].
      apply list_elem_of_singleton in Hl as ->. simpl. auto. }
    split; [exact Hege|]. split.
    { intros s Hin. apply Hsub. apply list_elem_of_fmap in Hin
        as (x & -> & Hx). apply list_elem_of_filter in Hx as [_ Hx].
      apply list_elem_of_fmap_2. exact Hx. }
    intros s Hin Hav.
    apply is_slot_available_true in Hav as (Hday & Hft & Hfc & Hne).
    rewrite Ht in Hft. rewrite Hc in Hfc. rewrite He in Hne.
    assert (Hsb : s ≠ b).
    { intros ->. unfold cache_add, teacher_key in Hft. simpl in Hft.
      rewrite cache_row_put, decide_True, lookup_insert_eq in Hft
        by reflexivity. discriminate. }
    assert (Hav' : _is_slot_available (placer h) s subject = true).
    { apply is_slot_available_true. split; [assumption|].
      split; [eapply cache_add_row_None; eassumption|].
      split; [|assumption].
      intros c Hcin. eapply cache_add_row_None. apply Hfc. exact Hcin. }
    specialize (Hall s Hin Hav').
    apply list_elem_of_fmap in Hall as (x & -> & Hx).
    apply list_elem_of_fmap_2. apply list_elem_of_filter. auto.
Qed.

Lemma iter_hour_inv ld p0 subject k : ∀ h,
  hour_inv p0 subject h →
  hour_inv p0 subject (Nat.iter k (place_hour ld subject) h).
Proof.
  induction k as [|k IH]; intros h Hinv; simpl; [assumption|].
  apply place_hour_hour_inv. auto.
Qed.

(** C3 (as stated, refuted). After 10A's seven algebra lessons have filled
    Monday in the only classroom, no slot is legal in the specification's sense for
    10B's music hour (the classroom is taken wherever the teacher can
    teach); the hour is not recorded as failed: the lesson is placed on
    Monday's fifth period without a classroom, and the whole phase reports 8
    placed, 0 failed. *)
Lemma hour_placed_without_free_classroom :
  let p := (_place_subject (fun s => s) one_room_school (init [] [])
                           algebra7).1 in
  let h := first_hour (fun s => s) p music1 in
  let h' := place_hour one_room_school music1 h in
  forallb (fun s => negb (legal_as_specified one_room_school (schedule p)
                            (ege_slots p) music1 s))
          all_time_slots = true
  ∧ failed (stats (placer h')) = failed (stats (placer h))
  ∧ schedule (placer h')
    = schedule p ++ [mandatory_lesson music1 (mkTimeSlot MONDAY 5) None]
  ∧ stats (place_all_mandatory_subjects (fun s => s) one_room_school
             (init [] []))
    = mkStats 8 8 0 [].
Proof. repeat split; vm_compute; reflexivity. Qed.

(** C3 (amended). In Phase 2, started from caches that mirror a schedule on
    the grid, for every required hour of a subject: a slot passes
    [_is_slot_available] exactly when it is legal, that is, the teacher is
    available that day, the teacher is free, every class of the subject is
    free, and the slot is not EGE-reserved (no classroom has to be free); the
    hour is recorded as failed, with nothing placed, if and only if no slot
    of the grid is legal; and whenever a legal slot exists, one lesson is
    placed for that hour, in a legal slot of the grid. *)
Theorem required_hour_outcome (lower : string → string) (ld : Loader)
    (p : Placer) (subject : Subject) (k : nat) :
  caches_ok p (schedule p) →
  (∀ l, l ∈ schedule p → l_time_slot l ∈ all_time_slots) →
  (k < Z.to_nat (s_hours_per_week subject))%nat →
  let h := Nat.iter k (place_hour ld subject) (first_hour lower p subject) in
  let h' := place_hour ld subject h in
  let legal := legal_slot (schedule (placer h)) (ege_slots p) subject in
  (∀ s, _is_slot_available (placer h) s subject = legal s)
  ∧ ((failed (stats (placer h')) = failed (stats (placer h)) + 1
      ∧ schedule (placer h') = schedule (placer h))
     ↔ ∀ s, s ∈ all_time_slots → legal s = false)
  ∧ ((∃ s, s ∈ all_time_slots ∧ legal s = true) →
     ∃ b, b ∈ all_time_slots ∧ legal b = true
          ∧ schedule (placer h')
            = schedule (placer h)
              ++ [mandatory_lesson subject b
                    (_find_classroom ld (placer h) subject b)]
          ∧ placed (stats (placer h')) = placed (stats (placer h)) + 1
          ∧ failed (stats (placer h')) = failed (stats (placer h))).
Proof.
  intros Hok Hgrid _ h h' legal.
  pose proof (iter_hour_inv ld p subject k _
                (first_hour_inv lower p subject Hok Hgrid))
    as (Hokh & _ & Hege & Hsub & Hall).
  fold h in Hokh, Hege, Hsub, Hall.
  assert (Hlegal : ∀ s, _is_slot_available (placer h) s subject = legal s).
  { intros s. unfold legal. rewrite <- Hege.
    apply is_slot_available_legal. exact Hokh. }
  split; [exact Hlegal|]. subst h'.
  destruct (place_hour_cases ld subject h)
    as [(Hnone & Hs & _ & _ & _ & _ & Hf & _)
       |(b & Hbest & Hs & _ & _ & _ & _ & Hf & Hp & _)].
  - assert (Hno : ∀ s, s ∈ all_time_slots → legal s = false).
    { intros s Hin. destruct (legal s) eqn:El; [|reflexivity].
      rewrite <- Hlegal in El.
      rewrite (proj1 (find_best_slot_none _ _ _ _) Hnone s (Hall s Hin El))
        in El. discriminate. }
    split.
    + split; [intros _; exact Hno|intros _; split; assumption].
    + intros (s & Hin & Hl). rewrite (Hno s Hin) in Hl. discriminate.
  - cbv zeta in Hs. apply find_best_slot_some in Hbest as [Hb Hbin].
    assert (Hbgrid : b ∈ all_time_slots) by auto.
    assert (Hbl : legal b = true) by (rewrite <- Hlegal; exact Hb).
    split.
    + split.
      * intros [Hfail _]. rewrite Hf in Hfail. lia.
      * intros Hno. rewrite (Hno b Hbgrid) in Hbl. discriminate.
    + intros _. exists b. auto.
Qed.

Lemma required_hour_outcome_witness :
  let h := Nat.iter 0 (place_hour one_room_school music1)
                    (first_hour (fun s => s) (init [] []) music1) in
  let h' := place_hour one_room_school music1 h in
  let legal := legal_slot (schedule (placer h)) (ege_slots (init [] []))
                          music1 in
  (∀ s, _is_slot_available (placer h) s music1 = legal s)
  ∧ ((failed (stats (placer h')) = failed (stats (placer h)) + 1
      ∧ schedule (placer h') = schedule (placer h))
     ↔ ∀ s, s ∈ all_time_slots → legal s = false)
  ∧ ((∃ s, s ∈ all_time_slots ∧ legal s = true) →
     ∃ b, b ∈ all_time_slots ∧ legal b = true
          ∧ schedule (placer h')
            = schedule (placer h)
              ++ [mandatory_lesson music1 b
                    (_find_classroom one_room_school (placer h) music1 b)]
          ∧ placed (stats (placer h')) = placed (stats (placer h)) + 1
          ∧ failed (stats (placer h')) = failed (stats (placer h))).
Proof.
  apply (required_hour_outcome (fun s => s) one_room_school (init [] [])
           music1 0).
  - destruct (init_ok [] []) as (Hok & Hs & _). rewrite Hs. exact Hok.
  - destruct (init_ok [] []) as (_ & Hs & _). rewrite Hs.
    intros l Hl. inversion Hl.
  - vm_compute. lia.
Defined.

End Phase2Hours.

(** ** Lists, sums and sorting *)

Module ListFacts.

(** Case analysis on membership in a list that is written out. *)
Ltac each_of H :=
  apply list_elem_of_In in H; simpl in H;
  repeat (destruct H as [<-|H]); try (destruct H; fail).

Lemma foldl_add {A} (f : A → Z) (l : list A) : ∀ a,
  foldl (fun t x => t + f x) a l = a + foldr (fun x t => f x + t) 0 l.
Proof.
  induction l as [|x l IH]; intros a; simpl; [lia|]. rewrite IH. lia.
Qed.

Lemma foldl_ext_all {A B} (f g : A → B → A) (l : list B) : ∀ a,
  (∀ a x, f a x = g a x) → foldl f a l = foldl g a l.
Proof.
  induction l as [|x l IH]; intros a H; simpl; [reflexivity|].
  rewrite H. apply IH, H.
Qed.

Lemma filter_ext_in {A} (P Q : A → Prop) `{∀ x, Decision (P x)}
    `{∀ x, Decision (Q x)} (l : list A) :
  (∀ x, x ∈ l → P x ↔ Q x) → filter P l = filter Q l.
Proof.
  induction l as [|x l IH]; intros HPQ; [reflexivity|].
  rewrite !filter_cons.
  rewrite IH by (intros y Hy; apply HPQ; right; exact Hy).
  destruct (decide (P x)) as [HP|HP], (decide (Q x)) as [HQ|HQ];
    try reflexivity.
  - exfalso. apply HQ, HPQ; [left|exact HP].
  - exfalso. apply HP, HPQ; [left|exact HQ].
Qed.

Lemma filter_all {A} (l : list A) : filter (fun _ => True) l = l.
Proof.
  induction l as [|x l IH]; [reflexivity|].
  rewrite filter_cons. destruct (decide True); [|tauto]. rewrite IH.
  reflexivity.
Qed.

Lemma sum_perm {A} (g : A → Z) (l l' : list A) :
  l ≡ₚ l' →
  foldr (fun x t => g x + t) 0 l = foldr (fun x t => g x + t) 0 l'.
Proof.
  induction 1 as [|x l l' _ IH|x y l|l l' l'' _ IH1 _ IH2]; simpl; lia.
Qed.

Lemma sum_app {A} (g : A → Z) (l l' : list A) :
  foldr (fun x t => g x + t) 0 (l ++ l')
  = foldr (fun x t => g x + t) 0 l + foldr (fun x t => g x + t) 0 l'.
Proof. induction l as [|x l IH]; simpl; lia. Qed.

Lemma sum_zero {A} (g : A → Z) (l : list A) :
  (∀ x, x ∈ l → g x = 0) → foldr (fun x t => g x + t) 0 l = 0.
Proof.
  induction l as [|x l IH]; intros H; simpl; [reflexivity|].
  rewrite (H x) by left. rewrite IH; [reflexivity|].
  intros y Hy. apply H. right. exact Hy.
Qed.

Lemma sum_nonneg {A} (g : A → Z) (l : list A) :
  (∀ x, x ∈ l → 0 ≤ g x) → 0 ≤ foldr (fun x t => g x + t) 0 l.
Proof.
  induction l as [|x l IH]; intros H; simpl; [lia|].
  pose proof (H x ltac:(left)).
  assert (0 ≤ foldr (fun x t => g x + t) 0 l)
    by (apply IH; intros y Hy; apply H; right; exact Hy).
  lia.
Qed.

Lemma sum_subset (g : string → Z) (keys names : list string) :
  NoDup keys → NoDup names →
  (∀ k, k ∈ keys → k ∈ names) →
  (∀ n, n ∈ names → n ∉ keys → g n = 0) →
  foldr (fun x t => g x + t) 0 names = foldr (fun x t => g x + t) 0 keys.
Proof.
  intros Hk Hn Hsub Hzero.
  destruct (submseteq_Permutation keys names) as [rest Hperm].
  { apply NoDup_submseteq; assumption. }
  rewrite (sum_perm g _ _ Hperm), sum_app.
  rewrite (sum_zero g rest); [lia|].
  intros x Hx. apply Hzero.
  - rewrite Hperm. apply elem_of_app. right. exact Hx.
  - intros Hin. rewrite Hperm in Hn. apply NoDup_app in Hn as (_ & Hdis & _).
    exact (Hdis x Hin Hx).
Qed.

Lemma fmap_alter {A B} (f : A → B) (g : A → A) (h : B → B) (l : list A) i :
  (∀ x, f (g x) = h (f x)) → f <$> alter g i l = alter h i (f <$> l).
Proof.
  intros Hfg. apply list_eq. intros j.
  rewrite list_lookup_fmap, !list_lookup_alter, !list_lookup_fmap.
  destruct (decide (i = j)); [|reflexivity].
  destruct (l !! i); simpl; [rewrite Hfg|]; reflexivity.
Qed.

Lemma alter_const_insert {A} (x : A) i (l : list A) :
  alter (fun _ => x) i l = <[i := x]> l.
Proof.
  apply list_eq. intros j. rewrite list_lookup_alter, list_lookup_insert.
  destruct (decide (i = j)) as [->|Hne].
  - destruct (l !! j) eqn:Hj; simpl.
    + rewrite decide_True; [reflexivity|].
      split; [reflexivity|]. eapply lookup_lt_Some. eassumption.
    + rewrite decide_False; [reflexivity|].
      intros [_ Hlt]. apply lookup_lt_is_Some in Hlt as [? ?]. congruence.
  - rewrite decide_False by tauto. reflexivity.
Qed.

Lemma insert_sorted_sorted {A} (before : A → A → bool) (R : A → A → Prop)
    x (l : list A) :
  (∀ a b, before a b = true → R a b) →
  (∀ a b, before a b = false → R b a) →
  Transitive R →
  StronglySorted R l → StronglySorted R (insert_sorted before x l).
Proof.
  intros Ht Hf Htr. induction l as [|y l IH]; intros Hs; simpl.
  - repeat constructor.
  - apply StronglySorted_inv in Hs as [Hs Hall].
    destruct (before x y) eqn:Hxy.
    + constructor; [constructor; assumption|].
      constructor; [apply Ht, Hxy|].
      rewrite Forall_forall in Hall |- *. intros z Hz.
      transitivity y; [apply Ht, Hxy|apply Hall, Hz].
    + constructor; [apply IH, Hs|].
      rewrite Forall_forall in Hall |- *. intros z Hz.
      apply list_elem_of_In in Hz.
      apply (Permutation_in _ (Phase1Facts.insert_sorted_perm before x l))
        in Hz.
      apply list_elem_of_In, elem_of_cons in Hz as [->|Hz];
        [apply Hf, Hxy|apply Hall, Hz].
Qed.

Lemma stable_sort_sorted {A} (before : A → A → bool) (R : A → A → Prop)
    (l : list A) :
  (∀ a b, before a b = true → R a b) →
  (∀ a b, before a b = false → R b a) →
  Transitive R →
  StronglySorted R (stable_sort before l).
Proof.
  intros Ht Hf Htr. induction l as [|x l IH]; simpl; [constructor|].
  apply insert_sorted_sorted; assumption.
Qed.

Lemma filter_nothing {A} (P : A → Prop) `{∀ x, Decision (P x)} (l : list A) :
  (∀ x, x ∈ l → ¬ P x) → filter P l = [].
Proof.
  induction l as [|a l IH]; intros Hno; [reflexivity|].
  rewrite filter_cons. destruct (decide (P a)) as [Ha|_].
  - exfalso. apply (Hno a); [left|exact Ha].
  - apply IH. intros x Hx. apply Hno. right. exact Hx.
Qed.

Lemma find_first {A} (f : A → bool) (l : list A) x :
  List.find f l = Some x →
  f x = true
  ∧ ∃ pre post, l = pre ++ x :: post ∧ ∀ y, y ∈ pre → f y = false.
Proof.
  induction l as [|a l IH]; simpl; [discriminate|].
  destruct (f a) eqn:Hfa.
  - intros [= ->]. split; [exact Hfa|]. exists [], l. split; [reflexivity|].
    intros y Hy. apply elem_of_nil in Hy. destruct Hy.
  - intros Hfind. destruct (IH Hfind) as (Hx & pre & post & -> & Hpre).
    split; [exact Hx|]. exists (a :: pre), post. split; [reflexivity|].
    intros y Hy. apply elem_of_cons in Hy as [->|Hy]; [exact Hfa|].
    apply Hpre, Hy.
Qed.

Lemma find_nothing {A} (f : A → bool) (l : list A) :
  List.find f l = None ↔ ∀ y, y ∈ l → f y = false.
Proof.
  induction l as [|a l IH]; simpl.
  - split; [|reflexivity]. intros _ y Hy. apply elem_of_nil in Hy.
    destruct Hy.
  - destruct (f a) eqn:Hfa.
    + split; [discriminate|]. intros H. rewrite (H a) in Hfa by left.
      discriminate.
    + rewrite IH. split.
      * intros H y Hy. apply elem_of_cons in Hy as [->|Hy]; auto.
      * intros H y Hy. apply H. right. exact Hy.
Qed.

End ListFacts.

(** ** Indices kept in insertion order *)

Module IndexFacts.
Import ListFacts Metric.
Import Spec Terms.

Lemma entry_index_append {V} (idx : list (string * list V)) k l k' :
  entry (index_append idx k l) k'
  = if decide (k = k') then entry idx k ++ [l] else entry idx k'.
Proof.
  unfold entry. induction idx as [|[c v] idx IH]; simpl.
  - destruct (decide (k = k')) as [->|Hne].
    + rewrite bool_decide_eq_true_2 by reflexivity. reflexivity.
    + rewrite bool_decide_eq_false_2 by exact Hne. reflexivity.
  - destruct (bool_decide (c = k)) eqn:Hck.
    + apply bool_decide_eq_true in Hck as ->. simpl.
      destruct (decide (k = k')) as [->|Hne].
      * rewrite !bool_decide_eq_true_2 by reflexivity. reflexivity.
      * rewrite !bool_decide_eq_false_2 by exact Hne. reflexivity.
    + apply bool_decide_eq_false in Hck. simpl.
      destruct (decide (k = k')) as [->|Hne].
      * rewrite !bool_decide_eq_false_2 by exact Hck. exact IH.
      * destruct (bool_decide (c = k')); [reflexivity|exact IH].
Qed.

Lemma index_append_keys {V} (idx : list (string * list V)) k l :
  (index_append idx k l).*1
  = if bool_decide (k ∈ idx.*1) then idx.*1 else idx.*1 ++ [k].
Proof.
  induction idx as [|[c v] idx IH]; [reflexivity|].
  cbn [index_append]. rewrite fmap_cons. cbn [fst].
  destruct (bool_decide (c = k)) eqn:Hck.
  - apply bool_decide_eq_true in Hck as ->.
    rewrite bool_decide_eq_true_2 by left. rewrite fmap_cons. reflexivity.
  - apply bool_decide_eq_false in Hck. rewrite fmap_cons, IH. cbn [fst].
    destruct (bool_decide (k ∈ idx.*1)) eqn:Hin.
    + apply bool_decide_eq_true in Hin.
      rewrite bool_decide_eq_true_2 by (right; exact Hin). reflexivity.
    + apply bool_decide_eq_false in Hin.
      rewrite bool_decide_eq_false_2; [reflexivity|].
      intros Hc. apply elem_of_cons in Hc as [->|Hc]; [|apply Hin, Hc].
      apply Hck. reflexivity.
Qed.

Lemma entry_of_elem {V} (idx : list (string * list V)) k v :
  NoDup idx.*1 → (k, v) ∈ idx → entry idx k = v.
Proof.
  unfold entry. induction idx as [|[c w] idx IH]; intros Hnd Hin.
  - apply elem_of_nil in Hin. destruct Hin.
  - simpl in *. apply NoDup_cons in Hnd as [Hc Hnd].
    apply elem_of_cons in Hin as [Heq|Hin].
    + injection Heq as -> ->.
      rewrite bool_decide_eq_true_2 by reflexivity. reflexivity.
    + rewrite bool_decide_eq_false_2; [apply IH; assumption|].
      intros ->. apply Hc. apply list_elem_of_fmap. exists (k, v).
      split; [reflexivity|exact Hin].
Qed.

Lemma index_append_elem_of_keys {V} (idx : list (string * list V)) k x k' :
  k' ∈ (index_append idx k x).*1 ↔ k' ∈ idx.*1 ∨ k' = k.
Proof.
  rewrite index_append_keys. case_bool_decide as Hin.
  - split; [auto|]. intros [H| ->]; assumption.
  - rewrite elem_of_app, list_elem_of_singleton. reflexivity.
Qed.

Lemma index_append_NoDup {V} (idx : list (string * list V)) k x :
  NoDup idx.*1 → NoDup (index_append idx k x).*1.
Proof.
  intros Hnd. rewrite index_append_keys. case_bool_decide as Hin;
    [exact Hnd|].
  apply NoDup_app. split; [exact Hnd|]. split; [|apply NoDup_singleton].
  intros y Hy Hy'. apply list_elem_of_singleton in Hy' as ->. contradiction.
Qed.

Lemma index_append_filled {V} (idx : list (string * list V)) k x :
  (∀ kv, kv ∈ idx → kv.2 ≠ []) →
  ∀ kv, kv ∈ index_append idx k x → kv.2 ≠ [].
Proof.
  induction idx as [|[c v] idx IH]; intros Hfull kv Hkv;
    cbn [index_append] in Hkv.
  - apply list_elem_of_singleton in Hkv as ->. discriminate.
  - case_bool_decide.
    + apply elem_of_cons in Hkv as [->|Hkv].
      * cbn [snd]. intros Hnil. apply app_eq_nil in Hnil as [_ Hnil].
        discriminate.
      * apply Hfull. right. exact Hkv.
    + apply elem_of_cons in Hkv as [->|Hkv].
      * apply Hfull. left.
      * apply IH; [|exact Hkv]. intros y Hy. apply Hfull. right. exact Hy.
Qed.

(** *** Filing every item under each of its keys *)

Lemma file_keys_entry {A} (x : A) c ks : ∀ idx,
  entry (foldl (fun idx k => index_append idx k x) idx ks) c
  = entry idx c ++ replicate (length (filter (fun k => k = c) ks)) x.
Proof.
  induction ks as [|k ks IH]; intros idx; simpl.
  - rewrite app_nil_r. reflexivity.
  - rewrite IH, entry_index_append, filter_cons.
    destruct (decide (k = c)) as [->|Hne]; simpl.
    + rewrite <- app_assoc. reflexivity.
    + reflexivity.
Qed.

Lemma file_under_entry {A} (keys : A → list string) c items : ∀ idx,
  entry (file_under keys idx items) c
  = entry idx c
    ++ (x ← items; replicate (length (filter (fun k => k = c) (keys x))) x).
Proof.
  unfold file_under.
  induction items as [|x items IH]; intros idx; simpl.
  - rewrite app_nil_r. reflexivity.
  - rewrite IH, file_keys_entry, <- app_assoc. reflexivity.
Qed.

Lemma file_keys_keys {A} (x : A) ks : ∀ idx,
  NoDup idx.*1 → (∀ kv, kv ∈ idx → kv.2 ≠ []) →
  let r := foldl (fun idx k => index_append idx k x) idx ks in
  NoDup r.*1 ∧ (∀ kv, kv ∈ r → kv.2 ≠ [])
  ∧ ∀ k, k ∈ r.*1 ↔ k ∈ idx.*1 ∨ k ∈ ks.
Proof.
  induction ks as [|c ks IH]; intros idx Hnd Hfull; cbv zeta; simpl.
  - split; [exact Hnd|]. split; [exact Hfull|].
    intros k. split; [auto|]. intros [H|H]; [exact H|].
    apply elem_of_nil in H. destruct H.
  - pose proof (IH (index_append idx c x)
                   (index_append_NoDup _ _ _ Hnd)
                   (index_append_filled _ _ _ Hfull)) as IHc.
    cbv zeta in IHc. destruct IHc as (Hnd' & Hfull' & Hin).
    split; [exact Hnd'|]. split; [exact Hfull'|]. intros k.
    rewrite Hin, index_append_elem_of_keys, elem_of_cons. tauto.
Qed.

Lemma file_under_keys {A} (keys : A → list string) items : ∀ idx,
  NoDup idx.*1 → (∀ kv, kv ∈ idx → kv.2 ≠ []) →
  let r := file_under keys idx items in
  NoDup r.*1 ∧ (∀ kv, kv ∈ r → kv.2 ≠ [])
  ∧ ∀ k, k ∈ r.*1 ↔ k ∈ idx.*1 ∨ ∃ x, x ∈ items ∧ k ∈ keys x.
Proof.
  unfold file_under.
  induction items as [|x items IH]; intros idx Hnd Hfull; cbv zeta; simpl.
  - split; [exact Hnd|]. split; [exact Hfull|].
    intros k. split; [auto|].
    intros [H|(x & Hx & _)]; [exact H|].
    apply elem_of_nil in Hx. destruct Hx.
  - pose proof (file_keys_keys x (keys x) idx Hnd Hfull) as Hc.
    cbv zeta in Hc. destruct Hc as (Hnd1 & Hfull1 & Hin1).
    pose proof (IH _ Hnd1 Hfull1) as IHs. cbv zeta in IHs.
    destruct IHs as (Hnd2 & Hfull2 & Hin2).
    split; [exact Hnd2|]. split; [exact Hfull2|].
    intros k. rewrite Hin2, Hin1. split.
    + intros [[H|H]|(y & Hy & Hk)]; [left; exact H| |].
      * right. exists x. split; [left|exact H].
      * right. exists y. split; [right; exact Hy|exact Hk].
    + intros [H|(y & Hy & Hk)]; [left; left; exact H|].
      apply elem_of_cons in Hy as [->|Hy].
      * left. right. exact Hk.
      * right. exists y. split; assumption.
Qed.

(** *** Sums over an index *)

Lemma total_app {A} (w : A → Z) (l l' : list A) :
  total w (l ++ l') = total w l + total w l'.
Proof. apply sum_app. Qed.

Lemma total_cons {A} (w : A → Z) x (l : list A) :
  total w (x :: l) = w x + total w l.
Proof. reflexivity. Qed.

Lemma total_nil {A} (w : A → Z) : total w [] = 0.
Proof. reflexivity. Qed.

Lemma total_index_append {V} (w : V → Z) (idx : list (string * list V)) k x :
  total w (index_append idx k x ≫= snd) = total w (idx ≫= snd) + w x.
Proof.
  induction idx as [|[c v] idx IH]; cbn [index_append].
  - change ([(k, [x])] ≫= snd) with ([x] ++ @nil V).
    change (@nil (string * list V) ≫= snd) with (@nil V).
    rewrite total_app, total_cons, !total_nil. lia.
  - case_bool_decide.
    + rewrite !bind_cons. cbn [snd].
      rewrite !total_app, total_cons, total_nil. lia.
    + rewrite !bind_cons, !total_app, IH. lia.
Qed.

Lemma total_file_keys {A} (w : A → Z) (x : A) ks : ∀ idx,
  total w (foldl (fun idx k => index_append idx k x) idx ks ≫= snd)
  = total w (idx ≫= snd) + Z.of_nat (length ks) * w x.
Proof.
  induction ks as [|c ks IH]; intros idx; simpl foldl.
  - simpl. lia.
  - rewrite IH, total_index_append. simpl length. lia.
Qed.

Lemma total_file_under {A} (w : A → Z) (keys : A → list string) items :
  ∀ idx,
  total w (file_under keys idx items ≫= snd)
  = total w (idx ≫= snd)
    + total (fun x => Z.of_nat (length (keys x)) * w x) items.
Proof.
  unfold file_under.
  induction items as [|x items IH]; intros idx; simpl foldl.
  - rewrite total_nil. lia.
  - rewrite IH, total_file_keys, total_cons. lia.
Qed.

End IndexFacts.

Module MetricFacts.
Import ListFacts IndexFacts Queries Metric Phase1Facts Phase1Inv Phase2Cache Phase2Score.
Import Spec Terms.

Lemma over_days_add term ls total :
  over_days term ls total = total + over_days term ls 0.
Proof.
  unfold over_days. rewrite (foldl_add (fun d => term (day_lessons_of ls d))).
  rewrite (foldl_add (fun d => term (day_lessons_of ls d)) _ 0). lia.
Qed.

Lemma over_days_ext term term' ls total :
  (∀ d, term (day_lessons_of ls d) = term' (day_lessons_of ls d)) →
  over_days term ls total = over_days term' ls total.
Proof.
  intros H. unfold over_days. simpl. rewrite !H. reflexivity.
Qed.

Lemma foldr_max_base n x r :
  foldr Z.max (Z.max n x) r = Z.max x (foldr Z.max n r).
Proof. induction r as [|y r IH]; simpl; [lia|]. rewrite IH. lia. Qed.

Lemma foldr_min_base n x r :
  foldr Z.min (Z.min n x) r = Z.min x (foldr Z.min n r).
Proof. induction r as [|y r IH]; simpl; [lia|]. rewrite IH. lia. Qed.

Lemma foldl_max_zmax n rest : foldl Z.max n rest = zmax (n :: rest).
Proof.
  simpl. revert n. induction rest as [|x r IH]; intros n; simpl; [reflexivity|].
  rewrite IH. apply foldr_max_base.
Qed.

Lemma foldl_min_zmin n rest : foldl Z.min n rest = zmin (n :: rest).
Proof.
  simpl. revert n. induction rest as [|x r IH]; intros n; simpl; [reflexivity|].
  rewrite IH. apply foldr_min_base.
Qed.

Lemma day_spread_gap day_lessons : day_spread day_lessons = day_gap day_lessons.
Proof.
  unfold day_spread, day_gap.
  destruct (length day_lessons <? 2)%nat eqn:Hlen; [reflexivity|].
  destruct (lesson_numbers_of day_lessons) as [|n rest] eqn:Hn.
  - destruct day_lessons; [discriminate Hlen | discriminate Hn].
  - rewrite adjacent_gaps_sorted by discriminate.
    rewrite foldl_max_zmax, foldl_min_zmin. reflexivity.
Qed.

Lemma day_gap_idle day_lessons :
  day_gap day_lessons = idle_periods (lesson_numbers_of day_lessons).
Proof.
  unfold day_gap.
  destruct day_lessons as [|a [|b r]].
  - reflexivity.
  - unfold idle_periods. simpl. lia.
  - change (length (a :: b :: r) <? 2)%nat with false. cbv iota.
    apply adjacent_gaps_sorted. discriminate.
Qed.

Lemma sorted_lt_of_le (l : list Z) :
  NoDup l → StronglySorted Z.le l → StronglySorted Z.lt l.
Proof.
  induction l as [|a l IH]; intros Hnd Hs; [constructor|].
  apply NoDup_cons in Hnd as [Ha Hnd].
  apply StronglySorted_inv in Hs as [Hs Hall].
  constructor; [apply IH; assumption|].
  rewrite Forall_forall in Hall |- *. intros x Hx.
  assert (a ≠ x) by (intros ->; apply Ha; exact Hx).
  specialize (Hall x Hx). lia.
Qed.

Lemma sorted_lt_last (l : list Z) : ∀ a,
  StronglySorted Z.lt (a :: l) → a ≤ default a (last (a :: l)).
Proof.
  induction l as [|b r IH]; intros a Hs; [simpl; lia|].
  apply StronglySorted_inv in Hs as [Hs Hall].
  apply Forall_cons in Hall as [Hab _].
  specialize (IH b Hs). rewrite last_cons_cons.
  destruct (last (b :: r)) as [z|] eqn:Hlast; simpl in *; lia.
Qed.

(** The periods of a strictly increasing list that lie in no lesson, counted
    over the range from the first to the last. *)
Lemma range_count (l : list Z) : ∀ a,
  StronglySorted Z.lt (a :: l) →
  Z.of_nat (length (filter (fun i => i ∉ a :: l)
                           (seqZ a (default a (last (a :: l)) - a))))
  = default a (last (a :: l)) - a - Z.of_nat (length l).
Proof.
  induction l as [|b r IH]; intros a Hs.
  - simpl. rewrite Z.sub_diag. reflexivity.
  - pose proof (sorted_lt_last _ _ Hs) as Hlast_a.
    apply StronglySorted_inv in Hs as [Hs Hall].
    pose proof (sorted_lt_last _ _ Hs) as Hlast_b.
    specialize (IH b Hs).
    rewrite last_cons_cons in *.
    assert (default a (last (b :: r)) = default b (last (b :: r))) as Hd
      by (destruct (last (b :: r)) eqn:E; [reflexivity|];
          apply last_None in E; discriminate).
    rewrite Hd in *. set (f := default b (last (b :: r))) in *.
    pose proof Hall as Hall'. apply Forall_cons in Hall' as [Hab Hr].
    replace (f - a) with ((b - a) + (f - b)) by lia.
    rewrite seqZ_app by lia. rewrite filter_app, length_app.
    replace (a + (b - a)) with b by lia.
    rewrite (filter_ext_in (fun i => i ∉ a :: b :: r) (fun i => i ∉ b :: r)
               (seqZ b (f - b))).
    2:{ intros x Hx. apply elem_of_seqZ in Hx.
        rewrite (not_elem_of_cons (b :: r)). split; [tauto|].
        intros Hn. split; [lia|exact Hn]. }
    rewrite seqZ_cons by lia. rewrite filter_cons.
    destruct (decide (a ∉ a :: b :: r)) as [Hn|_];
      [exfalso; apply Hn; left|].
    rewrite (filter_ext_in (fun i => i ∉ a :: b :: r) (fun _ => True)
               (seqZ (Z.succ a) (Z.pred (b - a)))).
    2:{ intros x Hx. apply elem_of_seqZ in Hx. split; [tauto|].
        intros _ Hin. apply elem_of_cons in Hin as [->|Hin]; [lia|].
        rewrite Forall_forall in Hall.
        apply elem_of_cons in Hin as [->|Hin]; [lia|].
        rewrite Forall_forall in Hr.
        assert (b < x) by (apply StronglySorted_inv in Hs as [_ Hb];
                           rewrite Forall_forall in Hb; apply Hb, Hin).
        lia. }
    rewrite filter_all.
    rewrite length_seqZ. simpl length. lia.
Qed.

Lemma day_windows_idle day_lessons :
  NoDup (lesson_numbers_of day_lessons) →
  day_windows day_lessons = idle_periods (lesson_numbers_of day_lessons).
Proof.
  intros Hnd. unfold day_windows.
  destruct day_lessons as [|x dl]; [reflexivity|].
  set (nums := lesson_numbers_of (x :: dl)) in *.
  assert (nums ≠ []) as Hne by discriminate.
  rewrite <- (adjacent_gaps_sorted nums Hne).
  pose proof (stable_sort_perm Z.leb nums) as Hperm.
  pose proof (stable_sort_Zleb_sorted nums) as Hsorted.
  destruct (stable_sort Z.leb nums) as [|a l] eqn:Hs.
  { apply Permutation_nil_l in Hperm. congruence. }
  assert (StronglySorted Z.lt (a :: l)) as Hlt.
  { apply sorted_lt_of_le; [|exact Hsorted]. rewrite Hperm. exact Hnd. }
  cbn [head].
  destruct (last (a :: l)) as [final|] eqn:Hlast.
  2:{ apply last_None in Hlast. discriminate. }
  pose proof (range_count l a Hlt) as Hc. rewrite Hlast in Hc. simpl in Hc.
  rewrite Hc. rewrite adjacent_gaps_span, Hlast. reflexivity.
Qed.

Lemma day_windows_nonneg day_lessons : 0 ≤ day_windows day_lessons.
Proof.
  unfold day_windows. destruct day_lessons as [|x dl]; [lia|].
  destruct (head (stable_sort Z.leb (lesson_numbers_of (x :: dl))));
    [|lia].
  destruct (last (stable_sort Z.leb (lesson_numbers_of (x :: dl)))); lia.
Qed.

(** *** The per-key indices *)

Lemma build_index_snoc keyf ls l :
  build_index keyf (ls ++ [l])
  = index_append (build_index keyf ls) (keyf l) l.
Proof. unfold build_index. rewrite foldl_app. reflexivity. Qed.

Lemma entry_build_index keyf ls k :
  entry (build_index keyf ls) k = filter (fun l => keyf l = k) ls.
Proof.
  induction ls as [|l ls IH] using rev_ind; [reflexivity|].
  rewrite build_index_snoc, entry_index_append, filter_app, filter_cons,
    filter_nil.
  destruct (decide (keyf l = k)) as [Hk|Hk].
  - rewrite <- IH, Hk. reflexivity.
  - rewrite app_nil_r. exact IH.
Qed.

Lemma build_index_keys keyf ls :
  NoDup (build_index keyf ls).*1
  ∧ ∀ k, k ∈ (build_index keyf ls).*1 ↔ ∃ l, l ∈ ls ∧ keyf l = k.
Proof.
  induction ls as [|l ls [IHnd IHin]] using rev_ind.
  - split; [constructor|]. intros k. split.
    + intros Hk. apply elem_of_nil in Hk. destruct Hk.
    + intros (l & Hl & _). apply elem_of_nil in Hl. destruct Hl.
  - rewrite build_index_snoc, index_append_keys.
    destruct (bool_decide (keyf l ∈ (build_index keyf ls).*1)) eqn:Hin.
    + apply bool_decide_eq_true in Hin. split; [exact IHnd|].
      intros k. rewrite IHin. split.
      * intros (x & Hx & Hk). exists x. split; [|exact Hk].
        apply elem_of_app. left. exact Hx.
      * intros (x & Hx & Hk). apply elem_of_app in Hx as [Hx|Hx].
        -- exists x. split; assumption.
        -- apply list_elem_of_singleton in Hx as ->. subst k.
           apply IHin. exact Hin.
    + apply bool_decide_eq_false in Hin. split.
      * apply NoDup_app. split; [exact IHnd|]. split.
        -- intros x Hx Hx'. apply list_elem_of_singleton in Hx' as ->.
           apply Hin, Hx.
        -- apply NoDup_singleton.
      * intros k. rewrite elem_of_app, IHin, list_elem_of_singleton. split.
        -- intros [(x & Hx & Hk)| ->].
           ++ exists x. split; [|exact Hk]. apply elem_of_app. left. exact Hx.
           ++ exists l. split; [|reflexivity]. apply elem_of_app. right.
              apply list_elem_of_singleton. reflexivity.
        -- intros (x & Hx & Hk). apply elem_of_app in Hx as [Hx|Hx].
           ++ left. exists x. split; assumption.
           ++ apply list_elem_of_singleton in Hx as ->. right. symmetry.
              exact Hk.
Qed.

(** A sum over an index is a sum over its keys. *)
Lemma index_sum keyf ls (term : string → list Lesson → Z) :
  foldr (fun kv t => term kv.1 kv.2 + t) 0 (build_index keyf ls)
  = foldr (fun k t => term k (filter (fun l => keyf l = k) ls) + t) 0
          (build_index keyf ls).*1.
Proof.
  pose proof (build_index_keys keyf ls) as [Hnd _].
  assert (∀ kv, kv ∈ build_index keyf ls →
                kv.2 = filter (fun l => keyf l = kv.1) ls) as Hent.
  { intros [k v] Hkv. simpl. rewrite <- entry_build_index.
    symmetry. apply entry_of_elem; assumption. }
  clear Hnd. induction (build_index keyf ls) as [|kv idx IH];
    [reflexivity|].
  simpl. rewrite IH by (intros x Hx; apply Hent; right; exact Hx).
  rewrite <- (Hent kv) by left. reflexivity.
Qed.

Lemma no_key_lessons keyf ls k :
  k ∉ (build_index keyf ls).*1 → filter (fun l => keyf l = k) ls = [].
Proof.
  intros Hk. rewrite <- entry_build_index. unfold entry.
  destruct (List.find _ _) as [kv|] eqn:Hfind; [|reflexivity].
  exfalso. apply find_some in Hfind as [Hkv Heq].
  apply bool_decide_eq_true in Heq. apply Hk.
  apply list_elem_of_fmap. exists kv. split; [symmetry; exact Heq|].
  apply list_elem_of_In. exact Hkv.
Qed.

(** Without double booking on a key, the periods that the key holds on a day
    are pairwise distinct. *)
Lemma key_day_NoDup keyf k d ls :
  no_clash (key_opt_clash keyf) ls →
  NoDup (lesson_numbers_of
           (day_lessons_of (filter (fun l => keyf l = Some k) ls) d)).
Proof.
  intros Hno.
  pose proof (key_slots_NoDup keyf k ls Hno) as Hnd.
  apply (NoDup_filter (fun ts => day ts = d)) in Hnd.
  rewrite filter_day_slots in Hnd.
  assert (day_lessons_of (filter (fun l => keyf l = Some k) ls) d
          = on_day keyf k d ls) as ->.
  { unfold day_lessons_of, on_day.
    rewrite list_filter_filter. apply list_filter_iff. intros l. tauto. }
  unfold lesson_numbers_of.
  replace ((fun l => lesson_number (l_time_slot l)) <$> on_day keyf k d ls)
    with (lesson_number <$> (l_time_slot <$> on_day keyf k d ls))
    by (rewrite <- list_fmap_compose; reflexivity).
  apply NoDup_fmap_2_strong; [|exact Hnd].
  intros s s' Hs Hs' Heq.
  apply list_elem_of_fmap in Hs as (l & -> & Hl).
  apply list_elem_of_fmap in Hs' as (l' & -> & Hl').
  apply list_elem_of_filter in Hl as [[_ Hd] _].
  apply list_elem_of_filter in Hl' as [[_ Hd'] _].
  destruct (l_time_slot l), (l_time_slot l'). simpl in *. congruence.
Qed.

Lemma week_windows_gaps keyf k ls :
  no_clash (key_opt_clash keyf) ls →
  week_windows (filter (fun l => keyf l = Some k) ls)
  = over_days day_gap (filter (fun l => keyf l = Some k) ls) 0.
Proof.
  intros Hno.
  change (week_windows (filter (fun l => keyf l = Some k) ls))
    with (over_days day_windows (filter (fun l => keyf l = Some k) ls) 0).
  apply over_days_ext. intros d.
  rewrite day_windows_idle by (apply key_day_NoDup; exact Hno).
  symmetry. apply day_gap_idle.
Qed.

Lemma get_teacher_gaps_over_days ls t :
  no_clash teacher_clash ls →
  get_teacher_gaps ls t
  = over_days day_gap (get_lessons_by_teacher ls (t_name t)) 0.
Proof.
  intros Hno. unfold get_teacher_gaps, get_lessons_by_teacher.
  rewrite (list_filter_iff (fun l => t_name (l_teacher l) = t_name t)
             (fun l => teacher_key l = Some (t_name t)))
    by (intros l; unfold teacher_key; split; congruence).
  apply week_windows_gaps.
  apply (no_clash_iff teacher_clash); [apply teacher_clash_key|exact Hno].
Qed.

Lemma prefix_refl s : String.prefix s s = true.
Proof.
  induction s as [|a s IH]; [reflexivity|]. simpl.
  destruct (Ascii.ascii_dec a a); [exact IH|congruence].
Qed.

Lemma contains_refl s : Phase2.contains s s = true.
Proof.
  destruct s as [|a s]; [reflexivity|]. cbn [Phase2.contains].
  rewrite prefix_refl. reflexivity.
Qed.

Lemma get_class_gaps_over_days ls c :
  no_clash cohort_clash ls →
  (∀ l, l ∈ ls → Phase2.contains c (l_class_or_group l) = true →
        l_class_or_group l = c) →
  get_class_gaps ls c
  = over_days day_gap (filter (fun l => l_class_or_group l = c) ls) 0.
Proof.
  intros Hno Hexact. unfold get_class_gaps, get_lessons_by_class.
  rewrite (filter_ext_in
             (fun l => Phase2.contains c (l_class_or_group l) = true)
             (fun l => cohort_key l = Some c)).
  2:{ intros l Hl. unfold cohort_key. split.
      - intros Hc. f_equal. apply Hexact; assumption.
      - intros [= ->]. apply contains_refl. }
  rewrite (list_filter_iff (fun l => l_class_or_group l = c)
             (fun l => cohort_key l = Some c))
    by (intros l; unfold cohort_key; split; congruence).
  apply week_windows_gaps.
  apply (no_clash_iff cohort_clash); [apply cohort_clash_key|exact Hno].
Qed.

Lemma two_lessons_no_clash (R : Lesson → Lesson → Prop) (a b : Lesson) :
  (∀ x y, R x y → l_time_slot x = l_time_slot y) →
  l_time_slot a ≠ l_time_slot b → no_clash R [a; b].
Proof.
  intros HR Hne i j x y Hi Hj Hij Hxy. apply HR in Hxy.
  destruct i as [|[|i]], j as [|[|j]]; simpl in Hi, Hj; simplify_eq;
    congruence.
Qed.

Lemma week_windows_nonneg ls : 0 ≤ week_windows ls.
Proof.
  unfold week_windows.
  rewrite (foldl_add (fun d => day_windows
                                 (filter (fun l => day (l_time_slot l) = d)
                                         ls))).
  pose proof (sum_nonneg
                (fun d => day_windows
                            (filter (fun l => day (l_time_slot l) = d) ls))
                all_days (fun d _ => day_windows_nonneg _)).
  lia.
Qed.

Lemma count_teacher_gaps_sum ls :
  _count_teacher_gaps ls
  = total (fun k => over_days day_gap (get_lessons_by_teacher ls k) 0)
          (lessons_by_teacher ls).*1.
Proof.
  unfold _count_teacher_gaps.
  rewrite (foldl_ext_all _ (fun total kv => total + over_days day_gap kv.2 0))
    by (intros a kv; apply over_days_add).
  rewrite (foldl_add (fun kv : string * list Lesson =>
                        over_days day_gap kv.2 0)).
  rewrite Z.add_0_l. unfold lessons_by_teacher.
  apply (index_sum _ ls (fun _ v => over_days day_gap v 0)).
Qed.

Lemma count_class_gaps_sum ls :
  _count_class_gaps ls
  = total (fun k => if is_ege_label k then 0
                    else over_days day_gap
                           (filter (fun l => l_class_or_group l = k) ls) 0)
          (lessons_by_class ls).*1.
Proof.
  unfold _count_class_gaps.
  rewrite (foldl_ext_all _
             (fun total kv => total + (if is_ege_label kv.1 then 0
                                       else over_days day_gap kv.2 0))).
  2:{ intros a kv. destruct (is_ege_label kv.1); [lia|].
      apply over_days_add. }
  rewrite (foldl_add (fun kv : string * list Lesson =>
                        if is_ege_label kv.1 then 0
                        else over_days day_gap kv.2 0)).
  rewrite Z.add_0_l. unfold lessons_by_class.
  apply (index_sum _ ls (fun k v => if is_ege_label k then 0
                                    else over_days day_gap v 0)).
Qed.

(** Two duplicate-free lists give the same sum when the summand vanishes on
    what is in one list only. *)
Lemma sum_agree (g : string → Z) (keys names : list string) :
  NoDup keys → NoDup names →
  (∀ k, k ∈ keys → k ∉ names → g k = 0) →
  (∀ n, n ∈ names → n ∉ keys → g n = 0) →
  total g keys = total g names.
Proof.
  intros Hk Hn Hkeys Hnames. unfold total.
  rewrite <- (sum_perm g _ _ (filter_app_complement (fun k => k ∈ names) keys)).
  rewrite sum_app.
  rewrite (sum_zero g (filter (fun k => ¬ k ∈ names) keys)).
  2:{ intros x Hx. apply list_elem_of_filter in Hx as [Hx Hin].
      apply Hkeys; assumption. }
  rewrite Z.add_0_r. symmetry. apply sum_subset.
  - apply NoDup_filter, Hk.
  - exact Hn.
  - intros k Hin. apply list_elem_of_filter in Hin as [Hin _]. exact Hin.
  - intros n Hin Hnot. apply Hnames; [exact Hin|]. intros Hkn. apply Hnot.
    apply list_elem_of_filter. split; assumption.
Qed.

End MetricFacts.

(** ** The counting terms of the quality metric *)

Module MetricTheorems.
Import ListFacts IndexFacts Queries Metric MetricFacts Phase2Score.
Import Spec Terms.

(** X1. [_calculate_schedule_spread] and [_count_class_gaps] return the same
    number for every schedule: per class and day, the span of the periods
    minus their number is the sum of the gaps between consecutive periods.
    The metric therefore counts the class gaps with weight 4 + 2. *)
Theorem spread_equals_class_gaps (ls : list Lesson) :
  _calculate_schedule_spread ls = _count_class_gaps ls.
Proof.
  unfold _calculate_schedule_spread, _count_class_gaps.
  apply foldl_ext_all. intros a kv.
  destruct (is_ege_label kv.1); [reflexivity|].
  apply over_days_ext. intros d. apply day_spread_gap.
Qed.

(** X2. When no teacher is double-booked, the teacher-gap term of the metric
    ([_count_teacher_gaps], sums of differences of consecutive periods) is the
    sum of [Schedule.get_teacher_gaps] (free periods counted between the first
    and the last lesson) over the teachers, given a list of teachers with
    distinct names that contains every teacher of the schedule; it is never
    negative. *)
Theorem teacher_gap_counts_agree (ls : list Lesson) (ts : list Teacher) :
  no_clash teacher_clash ls →
  NoDup (t_name <$> ts) →
  (∀ l, l ∈ ls → t_name (l_teacher l) ∈ t_name <$> ts) →
  _count_teacher_gaps ls = total (get_teacher_gaps ls) ts
  ∧ 0 ≤ _count_teacher_gaps ls.
Proof.
  intros Hno Hnd Hcover.
  assert (_count_teacher_gaps ls = total (get_teacher_gaps ls) ts) as Heq.
  { rewrite count_teacher_gaps_sum.
    pose proof (build_index_keys (fun l => t_name (l_teacher l)) ls)
      as [Hkeys Hin].
    set (g := fun k => over_days day_gap (get_lessons_by_teacher ls k) 0).
    transitivity (total g (t_name <$> ts)).
    - apply sum_agree; [exact Hkeys|exact Hnd| |].
      + intros k Hk Hnot. exfalso. apply Hnot.
        apply Hin in Hk as (l & Hl & <-). apply Hcover, Hl.
      + intros n _ Hn. unfold g, get_lessons_by_teacher.
        rewrite (no_key_lessons _ _ _ Hn). reflexivity.
    - clear Hnd Hcover. unfold total.
      induction ts as [|t ts IH]; [reflexivity|].
      rewrite fmap_cons. simpl. rewrite IH. unfold g.
      rewrite get_teacher_gaps_over_days by exact Hno. reflexivity. }
  split; [exact Heq|]. rewrite Heq.
  apply (sum_nonneg (fun t => get_teacher_gaps ls t)).
  intros t _. apply week_windows_nonneg.
Qed.

(** X3. When no class is double-booked, the class-gap term of the metric
    ([_count_class_gaps], which skips the labels that start with the exam
    prefix) is the sum of [Schedule.get_class_gaps] over the classes, given
    a duplicate-free list of class names without the exam prefix that
    contains every other label of the schedule, and provided no class name
    is a proper substring of a label ([get_class_gaps] selects lessons by
    substring). *)
Theorem class_gap_counts_agree (ls : list Lesson) (cs : list string) :
  no_clash cohort_clash ls →
  NoDup cs →
  (∀ c, c ∈ cs → is_ege_label c = false) →
  (∀ l, l ∈ ls → is_ege_label (l_class_or_group l) = false →
        l_class_or_group l ∈ cs) →
  (∀ c l, c ∈ cs → l ∈ ls →
          Phase2.contains c (l_class_or_group l) = true →
          l_class_or_group l = c) →
  _count_class_gaps ls = total (get_class_gaps ls) cs
  ∧ 0 ≤ _count_class_gaps ls.
Proof.
  intros Hno Hnd Hplain Hcover Hexact.
  assert (_count_class_gaps ls = total (get_class_gaps ls) cs) as Heq.
  { rewrite count_class_gaps_sum.
    pose proof (build_index_keys l_class_or_group ls) as [Hkeys Hin].
    set (g := fun k => if is_ege_label k then 0
                       else over_days day_gap
                              (filter (fun l => l_class_or_group l = k) ls)
                              0).
    transitivity (total g cs).
    - apply sum_agree; [exact Hkeys|exact Hnd| |].
      + intros k Hk Hnot. unfold g.
        destruct (is_ege_label k) eqn:Hege; [reflexivity|].
        exfalso. apply Hnot. apply Hin in Hk as (l & Hl & <-).
        apply Hcover; assumption.
      + intros n _ Hn. unfold g. destruct (is_ege_label n); [reflexivity|].
        rewrite (no_key_lessons _ _ _ Hn). reflexivity.
    - unfold total. clear Hnd Hcover.
      induction cs as [|c cs IH]; [reflexivity|]. simpl.
      rewrite IH.
      2:{ intros x Hx. apply Hplain. right. exact Hx. }
      2:{ intros x l Hx. apply Hexact. right. exact Hx. }
      unfold g. rewrite (Hplain c) by left.
      rewrite get_class_gaps_over_days;
        [reflexivity|exact Hno|].
      intros l. apply Hexact. left. }
  split; [exact Heq|]. rewrite Heq.
  apply (sum_nonneg (fun c => get_class_gaps ls c)).
  intros c _. apply week_windows_nonneg.
Qed.

Lemma teacher_gap_counts_agree_witness :
  _count_teacher_gaps gap_day = total (get_teacher_gaps gap_day) [ivanova]
  ∧ 0 ≤ _count_teacher_gaps gap_day.
Proof.
  apply (teacher_gap_counts_agree gap_day [ivanova]).
  - apply gap_day_no_clash. intros a b [_ H]. exact H.
  - refine (bool_decide_unpack _ _). vm_compute. exact I.
  - intros l Hl. each_of Hl; left.
Defined.

Lemma class_gap_counts_agree_witness :
  _count_class_gaps ex_class_day = total (get_class_gaps ex_class_day) ["10A"]
  ∧ 0 ≤ _count_class_gaps ex_class_day.
Proof.
  apply (class_gap_counts_agree ex_class_day ["10A"]).
  - apply two_lessons_no_clash; [intros a b [_ H]; exact H|discriminate].
  - refine (bool_decide_unpack _ _). vm_compute. exact I.
  - intros c Hc. apply list_elem_of_singleton in Hc as ->. reflexivity.
  - intros l Hl _. each_of Hl; left.
  - intros c l Hc Hl _. apply list_elem_of_singleton in Hc as ->.
    each_of Hl; reflexivity.
Defined.

End MetricTheorems.

(** ** Forming the exam-practice groups *)

Module LoadingFacts.
Import ListFacts IndexFacts Metric Loading.
Import Spec Terms.

Lemma add_groups_some teachers by_subject items : ∀ acc r,
  (∀ kv, kv ∈ items → kv.2 ≠ []) →
  add_groups teachers by_subject items acc = Some r →
  ∃ gs, r = acc ++ gs ∧ Forall2 (group_of teachers by_subject) items gs.
Proof.
  induction items as [|[c sts] items IH]; intros acc r Hfull Hr;
    cbn [add_groups] in Hr.
  - injection Hr as <-. exists []. rewrite app_nil_r. split; constructor.
  - assert (sts ≠ []) as Hsts by (apply (Hfull (c, sts)); left).
    destruct sts as [|st sts]; [congruence|]. cbn [length Nat.eqb] in Hr.
    unfold group_teacher in Hr.
    assert (∀ kv, kv ∈ items → kv.2 ≠ []) as Hfull'
      by (intros kv Hkv; apply Hfull; right; exact Hkv).
    destruct (by_subject !! c) as [t|] eqn:Ht.
    + destruct (IH _ _ Hfull' Hr) as (gs & -> & Hgs).
      eexists (_ :: gs). rewrite <- app_assoc. split; [reflexivity|].
      constructor; [|exact Hgs].
      unfold group_of. cbn [fst snd g_subject g_students g_hours_per_week
                            g_teacher]. rewrite Ht. auto.
    + destruct (head teachers) as [t|] eqn:Hhd; [|discriminate].
      destruct (IH _ _ Hfull' Hr) as (gs & -> & Hgs).
      eexists (_ :: gs). rewrite <- app_assoc. split; [reflexivity|].
      constructor; [|exact Hgs].
      unfold group_of. cbn [fst snd g_subject g_students g_hours_per_week
                            g_teacher]. rewrite Ht. auto.
Qed.

Lemma add_groups_none teachers by_subject items : ∀ acc,
  (∀ kv, kv ∈ items → kv.2 ≠ []) →
  add_groups teachers by_subject items acc = None →
  teachers = [] ∧ ∃ kv, kv ∈ items ∧ by_subject !! kv.1 = None.
Proof.
  induction items as [|[c sts] items IH]; intros acc Hfull Hr;
    cbn [add_groups] in Hr; [discriminate|].
  assert (sts ≠ []) as Hsts by (apply (Hfull (c, sts)); left).
  destruct sts as [|st sts]; [congruence|]. cbn [length Nat.eqb] in Hr.
  unfold group_teacher in Hr.
  assert (∀ kv, kv ∈ items → kv.2 ≠ []) as Hfull'
    by (intros kv Hkv; apply Hfull; right; exact Hkv).
  destruct (by_subject !! c) as [t|] eqn:Ht.
  - destruct (IH _ Hfull' Hr) as (Hts & kv & Hkv & Hnone).
    split; [exact Hts|]. exists kv. split; [right; exact Hkv|exact Hnone].
  - destruct (head teachers) as [t|] eqn:Hhd.
    + destruct (IH _ Hfull' Hr) as (Hts & kv & Hkv & Hnone).
      split; [exact Hts|]. exists kv. split; [right; exact Hkv|exact Hnone].
    + split; [destruct teachers; [reflexivity|discriminate]|].
      exists (c, st :: sts). split; [left|exact Ht].
Qed.

Lemma subject_students_index students :
  let idx := subject_students students in
  NoDup idx.*1 ∧ (∀ kv, kv ∈ idx → kv.2 ≠ [])
  ∧ (∀ c, c ∈ idx.*1 ↔ ∃ st, st ∈ students ∧ c ∈ st_ege_subjects st)
  ∧ ∀ c, entry idx c = st ← students; replicate (choices c st) st.
Proof.
  cbv zeta.
  change (subject_students students)
    with (file_under st_ege_subjects [] students).
  pose proof (file_under_keys st_ege_subjects students [] (NoDup_nil_2)) as H.
  cbv zeta in H. destruct H as (Hnd & Hfull & Hin).
  { intros kv Hkv. apply elem_of_nil in Hkv. destruct Hkv. }
  split; [exact Hnd|]. split; [exact Hfull|]. split.
  - intros c. rewrite Hin. split; [|auto].
    intros [H|H]; [|exact H]. apply elem_of_nil in H. destruct H.
  - intros c. apply (file_under_entry st_ege_subjects c students []).
Qed.

Lemma Forall2_keys teachers by_subject items gs :
  Forall2 (group_of teachers by_subject) items gs →
  g_subject <$> gs = items.*1
  ∧ ∀ g, g ∈ gs → ∃ kv, kv ∈ items ∧ group_of teachers by_subject kv g.
Proof.
  induction 1 as [|kv g items gs Hg _ [IHk IHg]].
  - split; [reflexivity|]. intros g Hg. apply elem_of_nil in Hg. destruct Hg.
  - split.
    + rewrite !fmap_cons, IHk. destruct Hg as [-> _]. reflexivity.
    + intros g' Hg'. apply elem_of_cons in Hg' as [->|Hg'].
      * exists kv. split; [left|exact Hg].
      * destruct (IHg _ Hg') as (kv' & Hkv' & Hgo).
        exists kv'. split; [right; exact Hkv'|exact Hgo].
Qed.

End LoadingFacts.

Module LoadingTheorems.
Import ListFacts IndexFacts Metric Loading LoadingFacts.
Import Spec Terms.

(** X4. When [create_ege_practice_groups] starts from no groups and
    succeeds, there is exactly one group for each exam subject some student
    chose, in the order the subjects first occur; a group holds the students
    who chose its subject, in loading order and once per choice, so it is
    never empty; it has 4 hours for the eight listed subjects and 3
    otherwise; its teacher is the one the practice courses name for the
    subject, else the first teacher loaded. It fails only when no teacher is
    loaded and some chosen subject has no practice course naming it. *)
Theorem groups_by_chosen_subject (practice_subject : string → option string)
    (students : list Student) (teachers : list Teacher)
    (subjects : list Subject) :
  match create_ege_practice_groups practice_subject students teachers
          subjects [] with
  | Some groups =>
      g_subject <$> groups = (subject_students students).*1
      ∧ NoDup (g_subject <$> groups)
      ∧ (∀ c, c ∈ g_subject <$> groups
              ↔ ∃ st, st ∈ students ∧ c ∈ st_ege_subjects st)
      ∧ ∀ g, g ∈ groups →
          g_students g
          = (st ← students; replicate (choices (g_subject g) st) st)
          ∧ g_students g ≠ []
          ∧ g_hours_per_week g
            = (if bool_decide (g_subject g ∈ four_hour_subjects) then 4
               else 3)
          ∧ match ege_teachers practice_subject subjects !! g_subject g with
            | Some teacher => g_teacher g = teacher
            | None => head teachers = Some (g_teacher g)
            end
  | None =>
      teachers = []
      ∧ ∃ st c, st ∈ students ∧ c ∈ st_ege_subjects st
                ∧ ege_teachers practice_subject subjects !! c = None
  end.
Proof.
  pose proof (subject_students_index students) as Hidx. cbv zeta in Hidx.
  destruct Hidx as (Hnd & Hfull & Hin & Hentry).
  unfold create_ege_practice_groups.
  destruct (add_groups teachers (ege_teachers practice_subject subjects)
              (subject_students students) []) as [groups|] eqn:Hrun.
  - destruct (add_groups_some _ _ _ _ _ Hfull Hrun)
      as (gs & -> & Hgs).
    rewrite app_nil_l.
    destruct (Forall2_keys _ _ _ _ Hgs) as [Hkeys Hof].
    split; [exact Hkeys|]. rewrite Hkeys.
    split; [exact Hnd|]. split; [exact Hin|].
    intros g Hg. destruct (Hof g Hg) as ([c sts] & Hkv & Hc & Hs & Hh & Ht).
    cbn [fst snd] in *. subst c.
    assert (entry (subject_students students) (g_subject g) = sts) as He
      by (apply entry_of_elem; assumption).
    rewrite Hs. split; [rewrite <- He; apply Hentry|].
    split; [exact (Hfull _ Hkv)|]. split; [exact Hh|exact Ht].
  - destruct (add_groups_none _ _ _ _ Hfull Hrun) as (Hts & [c sts] & Hkv & Hn).
    split; [exact Hts|]. cbn [fst] in Hn.
    assert (c ∈ (subject_students students).*1) as Hc.
    { apply list_elem_of_fmap. exists (c, sts). split; [reflexivity|exact Hkv]. }
    apply Hin in Hc as (st & Hst & Hcst).
    exists st, c. auto.
Qed.

End LoadingTheorems.

(** ** The optimizer: indices, swaps and the annealing loop *)

Module Phase3More.
Import ListFacts Phase3 Phase3Facts Phase3Inv Phase3Best Queries.
Import Spec Terms.

(** *** The slot index *)

Lemma deref_snoc ls refs r l :
  ls !! r = Some l → deref ls (refs ++ [r]) = deref ls refs ++ [l].
Proof. intros Hr. unfold deref. rewrite omap_app. simpl. rewrite Hr. reflexivity. Qed.

Lemma build_from_deref ls : ∀ pre idx s,
  deref (pre ++ ls) (refs_at (build_from (length pre) ls idx) s)
  = deref (pre ++ ls) (refs_at idx s)
    ++ filter (fun l => l_time_slot l = s) ls.
Proof.
  induction ls as [|l ls IH]; intros pre idx s.
  - cbn [build_from]. rewrite filter_nil, !app_nil_r. reflexivity.
  - cbn [build_from].
    replace (pre ++ l :: ls) with ((pre ++ [l]) ++ ls)
      by (rewrite <- app_assoc; reflexivity).
    replace (S (length pre)) with (length (pre ++ [l]))
      by (rewrite length_app; simpl; lia).
    rewrite IH, refs_at_index_add, filter_cons.
    assert (((pre ++ [l]) ++ ls) !! length pre = Some l) as Hl.
    { rewrite <- app_assoc. simpl. apply list_lookup_middle. reflexivity. }
    destruct (decide (l_time_slot l = s)) as [Hs|Hs].
    + subst s.
      rewrite (deref_snoc _ _ _ _ Hl), <- app_assoc. reflexivity.
    + reflexivity.
Qed.

(** *** A swap rearranges the schedule *)

Lemma rearranged_refl ls : rearranged ls ls.
Proof. split; reflexivity. Qed.

Lemma rearranged_trans ls0 ls1 ls2 :
  rearranged ls0 ls1 → rearranged ls1 ls2 → rearranged ls0 ls2.
Proof.
  intros [Hu Hs] [Hu' Hs']. split.
  - rewrite Hu'. exact Hu.
  - rewrite Hs'. exact Hs.
Qed.

Lemma swap_rearranged o i1 i2 :
  rearranged (lessons o) (lessons (_swap_lessons o i1 i2)).
Proof.
  unfold _swap_lessons.
  destruct (lessons o !! i1) as [a|] eqn:H1; [|apply rearranged_refl].
  destruct (lessons o !! i2) as [b|] eqn:H2; [|apply rearranged_refl].
  cbn [lessons]. split.
  - rewrite (fmap_alter unslotted _ id), list_alter_id by reflexivity.
    rewrite (fmap_alter unslotted _ id), list_alter_id by reflexivity.
    reflexivity.
  - rewrite (fmap_alter l_time_slot _ (fun _ => l_time_slot a))
      by reflexivity.
    rewrite (fmap_alter l_time_slot _ (fun _ => l_time_slot b))
      by reflexivity.
    rewrite !alter_const_insert.
    apply Permutation_insert_swap; rewrite list_lookup_fmap.
    + rewrite H1. reflexivity.
    + rewrite H2. reflexivity.
Qed.

Lemma iteration_rearranged quality ls0 d it r :
  rearranged ls0 (lessons (opt r)) → rearranged ls0 (best_schedule r) →
  rearranged ls0 (lessons (opt (iteration quality d it r).1))
  ∧ rearranged ls0 (best_schedule (iteration quality d it r).1).
Proof.
  intros Hw Hb. unfold iteration.
  destruct (_find_and_try_swap quality (opt r) d)
    as [[[[i1 i2] m] o']|] eqn:Hswap; simpl; [|split; assumption].
  apply find_and_try_swap_some in Hswap as (a & b & H1 & H2 & Hc & ->).
  assert (rearranged ls0 (lessons (_swap_lessons (opt r) i1 i2))) as Hw'.
  { eapply rearranged_trans; [exact Hw|apply swap_rearranged]. }
  destruct (Qltb _ _); [destruct (Qltb _ _)|destruct (accept_worse d)];
    simpl; unfold _copy_schedule; split; simpl; try assumption.
  eapply rearranged_trans; [exact Hw'|apply swap_rearranged].
Qed.

Lemma anneal_rearranged quality ls0 draws : ∀ it r,
  rearranged ls0 (lessons (opt r)) → rearranged ls0 (best_schedule r) →
  rearranged ls0 (lessons (opt (anneal quality draws it r)))
  ∧ rearranged ls0 (best_schedule (anneal quality draws it r)).
Proof.
  induction draws as [|d ds IH]; intros it r Hw Hb; simpl; [split; assumption|].
  pose proof (iteration_rearranged quality ls0 d it r Hw Hb) as [Hw' Hb'].
  destruct (iteration quality d it r) as [r' stop]. simpl in *.
  destruct stop; [split; assumption|]. apply IH; assumption.
Qed.

(** *** What an admitted swap has checked *)

Lemma candidate_flags o a b :
  candidate o a b = true →
  l_is_ege_practice a && l_is_ege_practice b = false.
Proof.
  unfold candidate. case_bool_decide; [discriminate|].
  destruct (l_is_ege_practice a && l_is_ege_practice b);
    [discriminate|reflexivity].
Qed.

Lemma can_swap_rooms o a b :
  _can_swap o a b = true →
  is_Some (l_classroom a) → is_Some (l_classroom b) →
  conflict (lessons_at o (l_time_slot b)) b (same_classroom a) = false
  ∧ conflict (lessons_at o (l_time_slot a)) a (same_classroom b) = false.
Proof.
  unfold _can_swap. intros Hc Ha Hb.
  rewrite (bool_decide_eq_true_2 _ Ha), (bool_decide_eq_true_2 _ Hb) in Hc.
  cbn [andb] in Hc.
  repeat match type of Hc with
         | (if ?c then _ else _) = true => destruct c eqn:?; try discriminate
         end.
  split; reflexivity.
Qed.

Lemma room_or_self_slot l s : room_or_self (set_time_slot l s) = room_or_self l.
Proof. reflexivity. Qed.

Lemma unslotted_teacher x a :
  unslotted x = unslotted a → l_teacher x = l_teacher a.
Proof. unfold unslotted, set_time_slot. intros [=]. assumption. Qed.

Lemma unslotted_room x a :
  unslotted x = unslotted a → l_classroom x = l_classroom a.
Proof. unfold unslotted, set_time_slot. intros [=]. assumption. Qed.

Lemma no_room_or_self_clash ls :
  NoDup ls → no_clash classroom_clash ls →
  no_clash (key_clash room_or_self) ls.
Proof.
  intros Hnd Hno i j a b Hi Hj Hne [Hk Hs].
  unfold room_or_self in Hk.
  destruct (l_classroom a) as [ca|] eqn:Ha,
           (l_classroom b) as [cb|] eqn:Hb; try discriminate.
  - injection Hk as ->. apply (Hno i j a b Hi Hj Hne).
    exists cb, cb. auto.
  - assert (unslotted a = unslotted b) as Hk' by congruence. apply Hne.
    assert (a = b) as -> by (apply unslotted_clash_eq; split; assumption).
    eapply NoDup_lookup; eassumption.
Qed.

Lemma rooms_by_number_rearranged ls ls' :
  rearranged ls ls' → rooms_by_number ls → rooms_by_number ls'.
Proof.
  intros [Hu _] Hrooms l l' c c' Hl Hl' Hc Hc' Hn.
  assert (∀ x, x ∈ ls' → ∃ y, y ∈ ls ∧ l_classroom y = l_classroom x)
    as Hback.
  { intros x Hx.
    assert (unslotted x ∈ unslotted <$> ls) as Hin
      by (rewrite <- Hu; apply list_elem_of_fmap; eauto).
    apply list_elem_of_fmap in Hin as (y & Hy & Hin).
    exists y. split; [exact Hin|]. symmetry. apply unslotted_room, Hy. }
  destruct (Hback l Hl) as (y & Hy & Hyc).
  destruct (Hback l' Hl') as (y' & Hy' & Hyc').
  apply (Hrooms y y' c c'); congruence.
Qed.

(** *** The counters of the annealing loop *)

Lemma cooled_bounds (t : Q) :
  (min_temperature <= t)%Q → (t <= initial_temperature)%Q →
  (min_temperature <= Qmax min_temperature (t * cooling_rate))%Q
  ∧ (Qmax min_temperature (t * cooling_rate) <= initial_temperature)%Q.
Proof.
  intros Hlo Hhi. split; [apply Q.le_max_l|].
  apply Q.max_lub; [discriminate|].
  apply Qle_trans with t; [|exact Hhi].
  unfold min_temperature, cooling_rate, Qle in *. simpl in *.
  destruct t as [n d]. simpl in *. nia.
Qed.

Lemma iteration_run_inv quality d it r :
  run_inv it r →
  (no_improvement_count r < max_no_improvement)%nat →
  let r' := (iteration quality d it r).1 in
  run_inv (S it) r'
  ∧ if (iteration quality d it r).2
    then no_improvement_count r' = max_no_improvement
    else (no_improvement_count r' < max_no_improvement)%nat.
Proof.
  intros (Hlo & Hhi & Hit & Hcnt) Hno. unfold iteration.
  destruct (_find_and_try_swap quality (opt r) d)
    as [[[[i1 i2] m] o']|] eqn:Hswap; cbn [fst snd].
  - pose proof (cooled_bounds _ Hlo Hhi) as [Hlo' Hhi'].
    destruct (Qltb (m - current_metric r) 0);
      [|destruct (accept_worse d)]; cbn [no_improvement_count].
    + split; [repeat split; simpl; try assumption; lia|].
      reflexivity || (simpl; unfold max_no_improvement; lia).
    + split; [repeat split; simpl; try assumption; lia|].
      destruct (max_no_improvement <=? S (no_improvement_count r))%nat
        eqn:Hstop.
      * apply Nat.leb_le in Hstop. lia.
      * apply Nat.leb_gt in Hstop. exact Hstop.
    + split; [repeat split; simpl; try assumption; lia|].
      destruct (max_no_improvement <=? S (no_improvement_count r))%nat
        eqn:Hstop.
      * apply Nat.leb_le in Hstop. lia.
      * apply Nat.leb_gt in Hstop. exact Hstop.
  - split; [repeat split; simpl; try assumption; lia|exact Hno].
Qed.

Lemma anneal_run_inv quality draws : ∀ it r,
  run_inv it r →
  (no_improvement_count r < max_no_improvement)%nat →
  let r' := anneal quality draws it r in
  (min_temperature <= temperature r')%Q
  ∧ (temperature r' <= initial_temperature)%Q
  ∧ (it ≤ stat_iterations r' ≤ it + length draws)%nat
  ∧ (stat_improvements r' + stat_accepted_worse r' ≤ stat_iterations r')%nat
  ∧ (no_improvement_count r' ≤ max_no_improvement)%nat
  ∧ ((stat_iterations r' < it + length draws)%nat →
     no_improvement_count r' = max_no_improvement).
Proof.
  induction draws as [|d ds IH]; intros it r Hinv Hno; cbn [anneal length].
  - destruct Hinv as (Hlo & Hhi & Hit & Hcnt).
    repeat split; try assumption; lia.
  - pose proof (iteration_run_inv quality d it r Hinv Hno) as [Hinv' Hstop].
    destruct (iteration quality d it r) as [r' stop]. cbn [fst snd] in *.
    destruct stop.
    + destruct Hinv' as (Hlo & Hhi & Hit & Hcnt).
      repeat split; try assumption; lia.
    + specialize (IH (S it) r' Hinv' Hstop). cbv zeta in IH.
      destruct IH as (Hlo & Hhi & Hit & Hcnt & Hmax & Hearly).
      repeat split; try assumption; lia.
Qed.

Lemma optimize_rearranged (quality : list Lesson → Q) (o : Optimizer)
    (draws : list Draw) :
  unslotted <$> optimize quality o draws = unslotted <$> lessons o
  ∧ l_time_slot <$> optimize quality o draws ≡ₚ l_time_slot <$> lessons o
  ∧ length (optimize quality o draws) = length (lessons o).
Proof.
  destruct (anneal_rearranged quality (lessons o) draws 0 (start quality o))
    as [_ [Hu Hs]]; try apply rearranged_refl.
  unfold optimize. split; [exact Hu|]. split; [exact Hs|].
  apply (f_equal length) in Hu. rewrite !length_fmap in Hu. exact Hu.
Qed.

End Phase3More.

Module Phase3Theorems.
Import ListFacts Phase3 Phase3Facts Phase3Inv Phase3Best Queries Phase3More.
Import Spec Terms.

(** X5. The slot index [_build_indices] builds lists, under every slot,
    exactly the lessons [Schedule.get_lessons_by_timeslot] returns for it, in
    the same order. *)
Theorem slot_index_lists_slot_lessons (ls : list Lesson) (s : TimeSlot) :
  lessons_at (_build_indices ls) s = get_lessons_by_timeslot ls s.
Proof.
  unfold lessons_at, _build_indices, get_lessons_by_timeslot. cbn [lessons lessons_by_slot].
  pose proof (build_from_deref ls [] ∅ s) as H. simpl in H.
  unfold refs_at in H. rewrite H. rewrite lookup_empty. reflexivity.
Qed.

(** X6. [_swap_lessons] on two lessons of different slots, in a schedule
    without two equal lessons and with a faithful slot index, exchanges the
    two time slots, leaves every other lesson alone and keeps the slot index
    faithful. *)
Theorem swap_keeps_slot_index (o : Optimizer) (i1 i2 : nat) (a b : Lesson) :
  index_ok o → NoDup (lessons o) →
  lessons o !! i1 = Some a → lessons o !! i2 = Some b →
  l_time_slot a ≠ l_time_slot b →
  let o' := _swap_lessons o i1 i2 in
  index_ok o'
  ∧ lessons o' !! i1 = Some (set_time_slot a (l_time_slot b))
  ∧ lessons o' !! i2 = Some (set_time_slot b (l_time_slot a))
  ∧ (∀ k, k ≠ i1 → k ≠ i2 → lessons o' !! k = lessons o !! k)
  ∧ length (lessons o') = length (lessons o).
Proof.
  intros Hok Hnd H1 H2 Hs o'.
  assert (Hne : i1 ≠ i2) by (intros ->; congruence).
  pose proof (fun k => swap_lessons_lookup o i1 i2 a b k H1 H2 Hne) as Hlk.
  split; [eapply swap_index_ok; eassumption|].
  split; [unfold o'; rewrite Hlk, decide_True by reflexivity; reflexivity|].
  split.
  { unfold o'. rewrite Hlk, decide_False, decide_True by congruence.
    reflexivity. }
  split.
  { intros k Hk1 Hk2. unfold o'.
    rewrite Hlk, !decide_False by assumption. reflexivity. }
  pose proof (swap_rearranged o i1 i2) as [Hu _].
  apply (f_equal length) in Hu. rewrite !length_fmap in Hu. exact Hu.
Qed.

(** X7. Whatever the metric and the random draws, the schedule [optimize]
    returns is a rearrangement of the schedule it was given: the same lessons
    in the same order with the same subject, teacher, class, classroom, flag
    and students, and the same time slots up to order. *)
Theorem optimize_rearranges_slots (quality : list Lesson → Q) (o : Optimizer)
    (draws : list Draw) :
  unslotted <$> optimize quality o draws = unslotted <$> lessons o
  ∧ l_time_slot <$> optimize quality o draws ≡ₚ l_time_slot <$> lessons o
  ∧ length (optimize quality o draws) = length (lessons o).
Proof. apply optimize_rearranged. Qed.

(** X8. A swap that [_find_and_try_swap] carries out exchanges two different
    lessons of the schedule that lie in different slots and are not both exam
    practice; each of the two teachers works on the day the lesson moves to;
    the metric reported is that of the schedule after the swap. *)
Theorem tried_swap_is_checked (quality : list Lesson → Q) (o : Optimizer)
    (d : Draw) (i1 i2 : nat) (m : Q) (o' : Optimizer) :
  _find_and_try_swap quality o d = Some (i1, i2, m, o') →
  ∃ a b,
    lessons o !! i1 = Some a ∧ lessons o !! i2 = Some b
    ∧ i1 ≠ i2 ∧ a ≠ b
    ∧ l_time_slot a ≠ l_time_slot b
    ∧ ¬ (l_is_ege_practice a = true ∧ l_is_ege_practice b = true)
    ∧ is_available (l_teacher a) (day (l_time_slot b)) = true
    ∧ is_available (l_teacher b) (day (l_time_slot a)) = true
    ∧ o' = _swap_lessons o i1 i2
    ∧ m = quality (lessons o').
Proof.
  intros Hswap.
  assert (m = quality (lessons o')) as Hm.
  { unfold _find_and_try_swap in Hswap.
    destruct (length (lessons o) <? 2)%nat; [discriminate|].
    destruct (lessons o !! _); [|discriminate].
    destruct (_ !! _); [|discriminate].
    injection Hswap as <- <- <- <-. reflexivity. }
  apply find_and_try_swap_some in Hswap as (a & b & H1 & H2 & Hc & ->).
  pose proof (candidate_flags _ _ _ Hc) as Hflags.
  apply candidate_true in Hc as [Hba Hc].
  apply can_swap_true in Hc as (Hs & Hab & Hba' & _).
  exists a, b. repeat split; try assumption.
  - intros ->. congruence.
  - congruence.
  - intros [Ha Hb]. rewrite Ha, Hb in Hflags. discriminate.
Qed.

(** X9. A swap [_can_swap] admits between two lessons that both have a
    classroom, or that both have none, double-books no classroom, in a
    schedule without two equal lessons whose rooms are told apart by their
    numbers. *)
Theorem swap_keeps_rooms_apart (o : Optimizer) (i1 i2 : nat) (a b : Lesson) :
  index_ok o → NoDup (lessons o) →
  rooms_by_number (lessons o) →
  no_clash classroom_clash (lessons o) →
  lessons o !! i1 = Some a → lessons o !! i2 = Some b →
  _can_swap o a b = true →
  (is_Some (l_classroom a) ↔ is_Some (l_classroom b)) →
  no_clash classroom_clash (lessons (_swap_lessons o i1 i2)).
Proof.
  intros Hok Hnd Hrooms Hno H1 H2 Hc Hboth.
  pose proof (can_swap_true _ _ _ Hc) as (Hs & _ & _ & Hta & Htb & _).
  assert (is_Some (l_classroom a) →
          conflict (lessons_at o (l_time_slot b)) b (same_classroom a) = false
          ∧ conflict (lessons_at o (l_time_slot a)) a (same_classroom b)
            = false) as Hchecked.
  { intros Hsa. apply can_swap_rooms; [exact Hc|exact Hsa|apply Hboth, Hsa]. }
  assert (no_clash (key_clash room_or_self)
                   (lessons (_swap_lessons o i1 i2))) as Hno'.
  { apply (swap_no_key_clash room_or_self room_or_self_slot o i1 i2 a b);
      try assumption.
    - apply no_room_or_self_clash; assumption.
    - intros x Hx Hxb Hk. unfold room_or_self in Hk.
      destruct (l_classroom a) as [ca|] eqn:Ha.
      + destruct Hchecked as [Hra _]; [eauto|].
        pose proof (proj1 (conflict_false _ _ _) Hra x Hx Hxb) as Hsame.
        apply bool_decide_eq_false in Hsame. apply Hsame.
        destruct (l_classroom x); [|discriminate]. congruence.
      + destruct (l_classroom x); [discriminate|].
        assert (unslotted x = unslotted a) as Hk' by congruence.
        pose proof (proj1 (conflict_false _ _ _) Hta x Hx Hxb) as Hsame.
        apply same_teacher_false in Hsame. apply Hsame.
        f_equal. apply unslotted_teacher, Hk'.
    - intros x Hx Hxa Hk. unfold room_or_self in Hk.
      destruct (l_classroom b) as [cb|] eqn:Hb.
      + destruct Hchecked as [_ Hrb]; [apply Hboth; eauto|].
        pose proof (proj1 (conflict_false _ _ _) Hrb x Hx Hxa) as Hsame.
        apply bool_decide_eq_false in Hsame. apply Hsame.
        destruct (l_classroom x); [|discriminate]. congruence.
      + destruct (l_classroom x); [discriminate|].
        assert (unslotted x = unslotted b) as Hk' by congruence.
        pose proof (proj1 (conflict_false _ _ _) Htb x Hx Hxa) as Hsame.
        apply same_teacher_false in Hsame. apply Hsame.
        f_equal. apply unslotted_teacher, Hk'. }
  pose proof (rooms_by_number_rearranged _ _ (swap_rearranged o i1 i2) Hrooms)
    as Hrooms'.
  intros i j x y Hi Hj Hne (cx & cy & Hx & Hy & Hn & Hslot).
  apply (Hno' i j x y Hi Hj Hne). split; [|exact Hslot].
  unfold room_or_self. rewrite Hx, Hy. f_equal.
  apply (Hrooms' x y cx cy); try assumption;
    eapply list_elem_of_lookup_2; eassumption.
Qed.

(** X10. During [optimize] the temperature stays between its floor 0.1 and
    its start value 100; the iteration counter never exceeds
    [max_iterations]; improvements and accepted worsenings together never
    exceed the iterations; and the loop ends before [max_iterations] only
    with exactly 200 evaluated swaps in a row that brought no improvement. *)
Theorem annealing_counters (quality : list Lesson → Q) (o : Optimizer)
    (draws : list Draw) :
  let r := anneal quality draws 0 (start quality o) in
  (min_temperature <= temperature r)%Q
  ∧ (temperature r <= initial_temperature)%Q
  ∧ (stat_iterations r ≤ length draws)%nat
  ∧ (stat_improvements r + stat_accepted_worse r ≤ stat_iterations r)%nat
  ∧ (no_improvement_count r ≤ max_no_improvement)%nat
  ∧ ((stat_iterations r < length draws)%nat →
     no_improvement_count r = max_no_improvement).
Proof.
  pose proof (anneal_run_inv quality draws 0 (start quality o)) as H.
  cbv zeta in *.
  destruct H as (Hlo & Hhi & Hit & Hcnt & Hmax & Hearly).
  - repeat split; simpl; try discriminate; lia.
  - simpl. unfold max_no_improvement. lia.
  - repeat split; try assumption; try lia.
Qed.

Lemma swap_keeps_slot_index_witness :
  index_ok (_swap_lessons (_build_indices ex_week) 0 2)
  ∧ lessons (_swap_lessons (_build_indices ex_week) 0 2) !! 0%nat
    = Some (set_time_slot (ex_lesson "history" "Ivanova" "10A" None MONDAY 1)
                          (mkTimeSlot TUESDAY 2))
  ∧ lessons (_swap_lessons (_build_indices ex_week) 0 2) !! 2%nat
    = Some (set_time_slot (ex_lesson "music" "Sidorov" "10C" None TUESDAY 2)
                          (mkTimeSlot MONDAY 1))
  ∧ (∀ k, k ≠ 0%nat → k ≠ 2%nat →
          lessons (_swap_lessons (_build_indices ex_week) 0 2) !! k
          = lessons (_build_indices ex_week) !! k)
  ∧ length (lessons (_swap_lessons (_build_indices ex_week) 0 2))
    = length (lessons (_build_indices ex_week)).
Proof.
  apply (swap_keeps_slot_index (_build_indices ex_week) 0 2
           (ex_lesson "history" "Ivanova" "10A" None MONDAY 1)
           (ex_lesson "music" "Sidorov" "10C" None TUESDAY 2)).
  - apply build_indices_ok.
  - refine (bool_decide_unpack _ _). vm_compute. exact I.
  - reflexivity.
  - reflexivity.
  - discriminate.
Defined.

Lemma tried_swap_is_checked_witness :
  ∃ a b,
    lessons (_build_indices ex_week) !! 0%nat = Some a
    ∧ lessons (_build_indices ex_week) !! 2%nat = Some b
    ∧ 0%nat ≠ 2%nat ∧ a ≠ b
    ∧ l_time_slot a ≠ l_time_slot b
    ∧ ¬ (l_is_ege_practice a = true ∧ l_is_ege_practice b = true)
    ∧ is_available (l_teacher a) (day (l_time_slot b)) = true
    ∧ is_available (l_teacher b) (day (l_time_slot a)) = true
    ∧ _swap_lessons (_build_indices ex_week) 0 2
      = _swap_lessons (_build_indices ex_week) 0 2
    ∧ ex_quality (lessons (_swap_lessons (_build_indices ex_week) 0 2))
      = ex_quality (lessons (_swap_lessons (_build_indices ex_week) 0 2)).
Proof.
  apply (tried_swap_is_checked ex_quality (_build_indices ex_week)
           (mkDraw 0 0 true) 0 2
           (ex_quality (lessons (_swap_lessons (_build_indices ex_week) 0 2)))
           (_swap_lessons (_build_indices ex_week) 0 2)).
  vm_compute. reflexivity.
Defined.

Lemma swap_keeps_rooms_apart_witness :
  no_clash classroom_clash (lessons (_swap_lessons (_build_indices ex_rooms) 0 1)).
Proof.
  apply (swap_keeps_rooms_apart (_build_indices ex_rooms) 0 1
           (ex_lesson "pe" "Ivanova" "10A" (Some ex_room) MONDAY 5)
           (ex_lesson "algebra" "Petrova" "10B"
                      (Some (mkClassroom "102" 25 1 None)) MONDAY 2)).
  - apply build_indices_ok.
  - refine (bool_decide_unpack _ _). vm_compute. exact I.
  - intros l l' c c' Hl Hl' Hc Hc' Hn.
    each_of Hl; each_of Hl'; simpl in Hc, Hc'; simplify_eq;
      try reflexivity; discriminate Hn.
  - apply MetricFacts.two_lessons_no_clash; [|discriminate].
    intros a b (_ & _ & _ & _ & _ & H). exact H.
  - reflexivity.
  - reflexivity.
  - vm_compute. reflexivity.
  - split; intros _; eexists; reflexivity.
Defined.

End Phase3Theorems.

(** ** Phase 1: the reserved slots and the lessons placed in them *)

Module Phase1More.
Import ListFacts Phase1 Phase1Facts Phase1Inv.
Import Spec Terms.

Lemma scores_of_grid ld jitter :
  teachers ld ≠ [] →
  ∃ scores,
    mapM (fun slot => pair slot <$> evaluate_ege_slot ld (jitter slot) slot)
         all_time_slots = Some scores
    ∧ scores.*1 = all_time_slots.
Proof.
  intros Hne.
  destruct (mapM (fun slot => pair slot <$>
                    evaluate_ege_slot ld (jitter slot) slot) all_time_slots)
    as [scores|] eqn:Hm.
  2:{ exfalso. apply mapM_None in Hm. apply Exists_exists in Hm
        as (slot & _ & Hnone).
      unfold evaluate_ege_slot in Hnone.
      destruct (teachers ld); [congruence|]. discriminate. }
  exists scores. split; [reflexivity|].
  apply mapM_Some in Hm. clear -Hm.
  induction Hm as [|x y l k Hxy _ IH]; [reflexivity|].
  rewrite fmap_cons, IH. f_equal.
  destruct (evaluate_ege_slot _ _ _); [|discriminate].
  simpl in Hxy. injection Hxy as <-. reflexivity.
Qed.

Lemma select_spread_length needed sorted_slots : ∀ selected,
  Z.of_nat (length selected) ≤ needed →
  Z.of_nat (length (select_spread needed sorted_slots selected)) ≤ needed.
Proof.
  induction sorted_slots as [|[slot sc] rest IH]; intros selected Hlen;
    cbn [select_spread]; [exact Hlen|].
  destruct (needed <=? Z.of_nat (length selected)) eqn:Hfull;
    [exact Hlen|].
  apply Z.leb_gt in Hfull.
  match goal with
  | |- context [Nat.leb 2 ?n] => destruct (Nat.leb 2 n)
  end.
  - apply IH, Hlen.
  - apply IH. rewrite length_app. simpl. lia.
Qed.

Lemma select_spread_cap needed sorted_slots : ∀ selected,
  (∀ d, length (filter (fun s => day s = d) selected) ≤ 2)%nat →
  ∀ d, (length (filter (fun s => day s = d)
                       (select_spread needed sorted_slots selected)) ≤ 2)%nat.
Proof.
  induction sorted_slots as [|[slot sc] rest IH]; intros selected Hcap;
    cbn [select_spread]; [exact Hcap|].
  destruct (needed <=? Z.of_nat (length selected)); [exact Hcap|].
  match goal with
  | |- context [Nat.leb 2 ?n] => destruct (Nat.leb 2 n) eqn:Hday
  end.
  - apply IH, Hcap.
  - apply IH. intros d. rewrite filter_app, length_app, filter_cons, filter_nil.
    apply Nat.leb_gt in Hday. specialize (Hcap d).
    destruct (decide (day slot = d)) as [<-|]; simpl; lia.
Qed.

(** While every day can still reach two slots, the first loop ends with
    enough slots or with two slots on every day. *)
Lemma select_spread_full needed sorted_slots : ∀ selected,
  (∀ d, 2 ≤ length (filter (fun s => day s = d) selected)
            + length (filter (fun s => day s = d) sorted_slots.*1))%nat →
  needed ≤ Z.of_nat (length (select_spread needed sorted_slots selected))
  ∨ ∀ d, (2 ≤ length (filter (fun s => day s = d)
                             (select_spread needed sorted_slots selected)))%nat.
Proof.
  induction sorted_slots as [|[slot sc] rest IH]; intros selected Hroom;
    cbn [select_spread].
  - right. intros d. specialize (Hroom d).
    rewrite fmap_nil, filter_nil in Hroom. simpl in Hroom. lia.
  - destruct (needed <=? Z.of_nat (length selected)) eqn:Hfull.
    { left. apply Z.leb_le in Hfull. exact Hfull. }
    match goal with
    | |- context [Nat.leb 2 ?n] => destruct (Nat.leb 2 n) eqn:Hday
    end.
    + apply IH. intros d. specialize (Hroom d).
      rewrite fmap_cons, filter_cons in Hroom. cbn [fst] in Hroom.
      apply Nat.leb_le in Hday.
      destruct (decide (day slot = d)) as [<-|]; simpl in Hroom; lia.
    + apply IH. intros d. specialize (Hroom d).
      rewrite fmap_cons, filter_cons in Hroom. cbn [fst] in Hroom.
      rewrite filter_app, length_app, filter_cons, filter_nil.
      destruct (decide (day slot = d)) as [<-|]; simpl in *; lia.
Qed.

Lemma length_by_day (l : list TimeSlot) :
  length l
  = (length (filter (fun s => day s = MONDAY) l)
     + length (filter (fun s => day s = TUESDAY) l)
     + length (filter (fun s => day s = WEDNESDAY) l)
     + length (filter (fun s => day s = THURSDAY) l)
     + length (filter (fun s => day s = FRIDAY) l))%nat.
Proof.
  induction l as [|s l IH]; [reflexivity|].
  rewrite !filter_cons. simpl length at 1. rewrite IH.
  destruct s as [[] n]; simpl; lia.
Qed.

Lemma select_fill_length needed sorted_slots : ∀ selected,
  NoDup selected → NoDup sorted_slots.*1 →
  Z.of_nat (length selected) < needed →
  needed ≤ Z.of_nat (length selected
                     + length (filter (fun s => s ∉ selected)
                                      sorted_slots.*1)) →
  Z.of_nat (length (select_fill needed sorted_slots selected)) = needed.
Proof.
  induction sorted_slots as [|[slot sc] rest IH];
    intros selected Hsel Hnd Hlt Hroom; cbn [select_fill].
  - rewrite fmap_nil, filter_nil in Hroom. simpl in Hroom. lia.
  - rewrite fmap_cons in Hnd, Hroom. cbn [fst] in Hnd, Hroom.
    apply NoDup_cons in Hnd as [Hslot Hnd]. rewrite filter_cons in Hroom.
    case_bool_decide as Hin.
    + destruct (decide (slot ∉ selected)); [contradiction|].
      apply IH; assumption.
    + destruct (decide (slot ∉ selected)); [|contradiction].
      simpl in Hroom.
      destruct (needed <=? Z.of_nat (length (selected ++ [slot]))) eqn:Hfull.
      * apply Z.leb_le in Hfull. rewrite length_app in *. simpl in *. lia.
      * apply Z.leb_gt in Hfull. apply IH; try assumption.
        -- apply NoDup_app. repeat split; [assumption| |apply NoDup_singleton].
           intros x Hx Hx'. apply list_elem_of_singleton in Hx' as ->.
           contradiction.
        -- rewrite (filter_ext_in (fun s => s ∉ selected ++ [slot])
                      (fun s => s ∉ selected) rest.*1).
           ++ rewrite length_app. simpl. lia.
           ++ intros x Hx. rewrite elem_of_app, list_elem_of_singleton.
              split; [tauto|]. intros Hn [Hin'| ->]; [tauto|].
              apply Hslot, Hx.
Qed.

Lemma length_filter_complement (sel l : list TimeSlot) :
  NoDup sel → NoDup l → (∀ s, s ∈ sel → s ∈ l) →
  (length sel + length (filter (fun s => s ∉ sel) l) = length l)%nat.
Proof.
  intros Hsel Hl Hsub.
  rewrite <- (Permutation_length (filter_app_complement (fun s => s ∈ sel) l)).
  rewrite length_app. f_equal. apply Permutation_length.
  apply NoDup_Permutation; [exact Hsel|apply NoDup_filter, Hl|].
  intros x. rewrite list_elem_of_filter. split; [|tauto].
  intros Hx. split; [exact Hx|apply Hsub, Hx].
Qed.

Lemma day_count_grid (l : list TimeSlot) d :
  l ≡ₚ all_time_slots → length (filter (fun s => day s = d) l) = 7%nat.
Proof.
  intros Hp. rewrite (Permutation_length (filter_Permutation _ _ _ Hp)).
  destruct d; reflexivity.
Qed.

(** *** The lessons of one reserved slot *)

Lemma place_groups_lessons ld k s groups : ∀ sched,
  (∀ l, l ∈ sched → l ∈ foldl (place_group ld k s) sched groups)
  ∧ (∀ l, l ∈ foldl (place_group ld k s) sched groups →
          l ∈ sched
          ∨ ∃ g room, g ∈ groups ∧ Z.of_nat k < g_hours_per_week g
                      ∧ is_available (g_teacher g) (day s) = true
                      ∧ l = ege_lesson g s room)
  ∧ (∀ g, g ∈ groups → Z.of_nat k < g_hours_per_week g →
          is_available (g_teacher g) (day s) = true →
          ∃ room, ege_lesson g s room
                  ∈ foldl (place_group ld k s) sched groups).
Proof.
  induction groups as [|g groups IH]; intros sched; simpl.
  - split; [auto|]. split; [auto|]. intros g Hg. apply elem_of_nil in Hg.
    destruct Hg.
  - destruct (IH (place_group ld k s sched g)) as (Hmono & Hsound & Hcompl).
    pose proof (place_group_cases ld k s sched g) as Hcases.
    split; [|split].
    + intros l Hl. apply Hmono.
      destruct Hcases as [-> | (_ & _ & ->)]; [exact Hl|].
      apply elem_of_app. left. exact Hl.
    + intros l Hl. apply Hsound in Hl as [Hl|(g' & room & Hg' & Hrest)].
      * destruct Hcases as [Heq | (Hk & Hav & Heq)]; rewrite Heq in Hl.
        -- left. exact Hl.
        -- apply elem_of_app in Hl as [Hl|Hl]; [left; exact Hl|].
           apply list_elem_of_singleton in Hl as ->. right.
           exists g, (find_available_classroom ld sched s (student_count g)).
           split; [left|]. auto.
      * right. exists g', room. split; [right; exact Hg'|exact Hrest].
    + intros g' Hg' Hk Hav. apply elem_of_cons in Hg' as [->|Hg'].
      * destruct Hcases as [Heq | (_ & _ & Heq)].
        -- exfalso. unfold place_group in Heq.
           destruct (g_hours_per_week g <=? Z.of_nat k) eqn:Hh.
           { apply Z.leb_le in Hh. lia. }
           rewrite Hav in Heq. simpl in Heq. unfold add_lesson in Heq.
           apply (f_equal length) in Heq. rewrite length_app in Heq.
           simpl in Heq. lia.
        -- exists (find_available_classroom ld sched s (student_count g)).
           apply Hmono. rewrite Heq. apply elem_of_app. right.
           apply list_elem_of_singleton. reflexivity.
      * apply Hcompl; assumption.
Qed.

Lemma place_slots_lessons ld slots : ∀ k sched,
  (∀ l, l ∈ sched → l ∈ place_slots ld k slots sched)
  ∧ (∀ l, l ∈ place_slots ld k slots sched →
          l ∈ sched
          ∨ ∃ g j room,
              g ∈ ege_groups ld ∧ slots !! j = Some (l_time_slot l)
              ∧ Z.of_nat (k + j) < g_hours_per_week g
              ∧ is_available (g_teacher g) (day (l_time_slot l)) = true
              ∧ l = ege_lesson g (l_time_slot l) room)
  ∧ (∀ g j s, g ∈ ege_groups ld → slots !! j = Some s →
              Z.of_nat (k + j) < g_hours_per_week g →
              is_available (g_teacher g) (day s) = true →
              ∃ room, ege_lesson g s room ∈ place_slots ld k slots sched).
Proof.
  induction slots as [|s slots IH]; intros k sched; cbn [place_slots].
  - split; [auto|]. split; [auto|]. intros g j s _ Hj. discriminate Hj.
  - destruct (IH (S k) (foldl (place_group ld k s) sched (ege_groups ld)))
      as (Hmono & Hsound & Hcompl).
    destruct (place_groups_lessons ld k s (ege_groups ld) sched)
      as (Hmono1 & Hsound1 & Hcompl1).
    split; [|split].
    + intros l Hl. apply Hmono, Hmono1, Hl.
    + intros l Hl.
      apply Hsound in Hl as [Hl|(g & j & room & Hg & Hj & Hk & Hav & Heq)].
      * apply Hsound1 in Hl as [Hl|(g & room & Hg & Hk & Hav & Heq)];
          [left; exact Hl|].
        right. exists g, 0%nat, room. subst l. simpl.
        rewrite Nat.add_0_r. auto.
      * right. exists g, (S j), room. simpl.
        replace (k + S j)%nat with (S k + j)%nat by lia. auto.
    + intros g j s' Hg Hj Hk Hav. destruct j as [|j]; simpl in Hj.
      * injection Hj as ->. rewrite Nat.add_0_r in Hk.
        destruct (Hcompl1 g Hg Hk Hav) as [room Hroom].
        exists room. apply Hmono, Hroom.
      * apply (Hcompl g j s' Hg Hj); [|exact Hav].
        replace (S k + j)%nat with (k + S j)%nat by lia. exact Hk.
Qed.

Lemma place_ege_practices_lessons (ld : Loader) (jitter : TimeSlot → Q)
    (sched : list Lesson) (slots : list TimeSlot) :
  place_ege_practices ld jitter = Some (sched, slots) →
  (∀ l, l ∈ sched →
        ∃ g j room,
          g ∈ ege_groups ld ∧ slots !! j = Some (l_time_slot l)
          ∧ Z.of_nat j < g_hours_per_week g
          ∧ is_available (g_teacher g) (day (l_time_slot l)) = true
          ∧ l = ege_lesson g (l_time_slot l) room)
  ∧ (∀ g j s, g ∈ ege_groups ld → slots !! j = Some s →
              Z.of_nat j < g_hours_per_week g →
              is_available (g_teacher g) (day s) = true →
              ∃ room, ege_lesson g s room ∈ sched).
Proof.
  unfold place_ege_practices. intros Hplace.
  destruct (ege_groups ld) as [|g0 gs] eqn:Hgroups.
  - injection Hplace as <- <-. split.
    + intros l Hl. apply elem_of_nil in Hl. destruct Hl.
    + intros g j s Hg. apply elem_of_nil in Hg. destruct Hg.
  - destruct (find_ege_practice_slots ld jitter (max_hours g0 gs))
      as [found|]; [|discriminate].
    simpl in Hplace. injection Hplace as <- <-.
    destruct (place_slots_lessons ld found 0 []) as (_ & Hsound & Hcompl).
    rewrite Hgroups in Hsound, Hcompl. split.
    + intros l Hl. apply Hsound in Hl as [Hl|Hl]; [|exact Hl].
      apply elem_of_nil in Hl. destruct Hl.
    + intros g j s Hg Hj Hk Hav. apply (Hcompl g j s); assumption.
Qed.

End Phase1More.

Module Phase1Theorems.
Import ListFacts Phase1 Phase1Facts Phase1Inv Phase1More.
Import Spec Terms.

(** X11. With at least one teacher, [find_ege_practice_slots] asked for n
    slots, 0 <= n <= 35, returns exactly n pairwise different cells of the
    grid; when n <= 10 no day holds more than two of them. *)
Theorem reserved_slots_count (ld : Loader) (jitter : TimeSlot → Q) (n : Z) :
  teachers ld ≠ [] → 0 ≤ n ≤ 35 →
  ∃ slots,
    find_ege_practice_slots ld jitter n = Some slots
    ∧ Z.of_nat (length slots) = n
    ∧ NoDup slots
    ∧ (∀ s, s ∈ slots → s ∈ all_time_slots)
    ∧ (n ≤ 10 →
       ∀ d, (length (filter (fun s => day s = d) slots) ≤ 2)%nat).
Proof.
  intros Hne Hn.
  destruct (scores_of_grid ld jitter Hne) as (scores & Hm & Hfst).
  assert (∃ slots, find_ege_practice_slots ld jitter n = Some slots)
    as [slots Hfind].
  { unfold find_ege_practice_slots. rewrite Hm. simpl. eauto. }
  exists slots. split; [exact Hfind|].
  destruct (find_ege_practice_slots_NoDup _ _ _ _ Hfind) as [Hnd Hgrid].
  unfold find_ege_practice_slots in Hfind. rewrite Hm in Hfind.
  simpl in Hfind. injection Hfind as Hslots.
  set (sorted := stable_sort (fun x y : TimeSlot * Q => Qle_bool y.2 x.2)
                             scores) in *.
  assert (Hsorted : sorted.*1 ≡ₚ all_time_slots).
  { rewrite <- Hfst. apply fmap_Permutation. apply stable_sort_perm. }
  assert (Hnds : NoDup sorted.*1)
    by (rewrite Hsorted; apply NoDup_all_time_slots).
  pose proof (select_spread_length n sorted [] ltac:(simpl; lia)) as Hle.
  destruct (select_spread_NoDup n sorted [] Hnds) as [Hnd1 Hsub1].
  pose proof (select_spread_cap n sorted [] ltac:(intros; simpl; lia))
    as Hcap.
  destruct (select_spread_full n sorted [])
    as [Hfull|Hfull].
  { intros d. rewrite (day_count_grid _ d Hsorted). simpl. lia. }
  - destruct (Z.of_nat (length (select_spread n sorted [])) <? n) eqn:Hlt;
      [apply Z.ltb_lt in Hlt; lia|].
    subst slots. split; [lia|]. split; [exact Hnd|]. split; [exact Hgrid|].
    intros _. exact Hcap.
  - assert (10 ≤ length (select_spread n sorted []))%nat as Hten.
    { rewrite (length_by_day (select_spread n sorted [])).
      pose proof (Hfull MONDAY). pose proof (Hfull TUESDAY).
      pose proof (Hfull WEDNESDAY). pose proof (Hfull THURSDAY).
      pose proof (Hfull FRIDAY). lia. }
    destruct (Z.of_nat (length (select_spread n sorted [])) <? n) eqn:Hlt.
    + apply Z.ltb_lt in Hlt. subst slots.
      split; [|split; [exact Hnd|split; [exact Hgrid|intros; lia]]].
      apply select_fill_length; try assumption.
      pose proof (length_filter_complement (select_spread n sorted [])
                    sorted.*1 Hnd1 Hnds) as Hc.
      rewrite Hc by (intros s Hs; apply (Hsub1 s Hs)).
      rewrite (Permutation_length Hsorted).
      change (length all_time_slots) with 35%nat. lia.
    + apply Z.ltb_ge in Hlt. subst slots.
      split; [lia|]. split; [exact Hnd|]. split; [exact Hgrid|].
      intros _. exact Hcap.
Qed.

(** X12. [place_ege_practices] raises (the division by the number of
    teachers in [evaluate_ege_slot]) exactly when there is an exam group and
    the loader has no teacher; without exam groups it returns at once with an
    empty schedule and no reserved slot. *)
Theorem phase1_fails_without_teachers (ld : Loader) (jitter : TimeSlot → Q) :
  (place_ege_practices ld jitter = None
   ↔ ege_groups ld ≠ [] ∧ teachers ld = [])
  ∧ (ege_groups ld = [] → place_ege_practices ld jitter = Some ([], [])).
Proof.
  unfold place_ege_practices. split.
  - destruct (ege_groups ld) as [|g gs].
    + split; [discriminate|]. intros [H _]. congruence.
    + destruct (teachers ld) as [|t ts] eqn:Ht.
      * split; [intros _; split; [discriminate|reflexivity]|]. intros _.
        unfold find_ege_practice_slots, evaluate_ege_slot. rewrite Ht.
        reflexivity.
      * split; [|intros [_ H]; discriminate]. intros Hnone. exfalso.
        destruct (scores_of_grid ld jitter) as (scores & Hm & _);
          [congruence|].
        unfold find_ege_practice_slots in Hnone. rewrite Hm in Hnone.
        simpl in Hnone. discriminate.
  - intros ->. reflexivity.
Qed.

(** X13. After Phase 1 every lesson of the schedule is the exam-practice
    lesson of one of the groups, in a reserved slot whose position is below
    the group's hours, on a day the group's teacher works; and every group
    has such a lesson in each reserved slot below its hours on whose day its
    teacher works, with or without a classroom. *)
Theorem phase1_lessons (ld : Loader) (jitter : TimeSlot → Q)
    (sched : list Lesson) (slots : list TimeSlot) :
  place_ege_practices ld jitter = Some (sched, slots) →
  (∀ l, l ∈ sched →
        ∃ g j room,
          g ∈ ege_groups ld ∧ slots !! j = Some (l_time_slot l)
          ∧ Z.of_nat j < g_hours_per_week g
          ∧ is_available (g_teacher g) (day (l_time_slot l)) = true
          ∧ l = ege_lesson g (l_time_slot l) room)
  ∧ (∀ g j s, g ∈ ege_groups ld → slots !! j = Some s →
              Z.of_nat j < g_hours_per_week g →
              is_available (g_teacher g) (day s) = true →
              ∃ room, ege_lesson g s room ∈ sched).
Proof. apply place_ege_practices_lessons. Qed.

Lemma reserved_slots_count_witness :
  ∃ slots,
    find_ege_practice_slots one_teacher_loader (fun _ => 0%Q) 3 = Some slots
    ∧ Z.of_nat (length slots) = 3
    ∧ NoDup slots
    ∧ (∀ s, s ∈ slots → s ∈ all_time_slots)
    ∧ (3 ≤ 10 →
       ∀ d, (length (filter (fun s => day s = d) slots) ≤ 2)%nat).
Proof.
  apply (reserved_slots_count one_teacher_loader (fun _ => 0%Q) 3).
  - discriminate.
  - lia.
Defined.

Lemma phase1_lessons_witness :
  (∀ l, l ∈ crowded_run.1 →
        ∃ g j room,
          g ∈ ege_groups crowded_loader
          ∧ crowded_run.2 !! j = Some (l_time_slot l)
          ∧ Z.of_nat j < g_hours_per_week g
          ∧ is_available (g_teacher g) (day (l_time_slot l)) = true
          ∧ l = ege_lesson g (l_time_slot l) room)
  ∧ (∀ g j s, g ∈ ege_groups crowded_loader → crowded_run.2 !! j = Some s →
              Z.of_nat j < g_hours_per_week g →
              is_available (g_teacher g) (day s) = true →
              ∃ room, ege_lesson g s room ∈ crowded_run.1).
Proof.
  apply (phase1_lessons crowded_loader (fun _ => 0%Q)).
  vm_compute. reflexivity.
Defined.

End Phase1Theorems.

(** ** Phase 2: slots, classrooms and the hours of a subject *)

Module Phase2More.
Import ListFacts IndexFacts Metric MetricFacts Phase2 Phase1Facts Phase1Inv Phase2Cache
  Phase2Inv Phase2Score Phase2Hours.
Import Spec Terms.

Lemma classrooms_get_in ld num c :
  classrooms_get ld num = Some c → c ∈ classrooms ld ∧ c_number c = num.
Proof.
  unfold classrooms_get. intros Hf. apply find_some in Hf as [Hin Hc].
  apply bool_decide_eq_true in Hc. split; [|exact Hc].
  apply list_elem_of_In. exact Hin.
Qed.

Lemma find_classroom_in ld p subject slot c :
  _find_classroom ld p subject slot = Some c → c ∈ classrooms ld.
Proof.
  unfold _find_classroom.
  assert (List.find (fun c0 => classroom_free p (c_number c0) slot)
                    (classrooms ld) = Some c → c ∈ classrooms ld) as Hany.
  { intros Hf. apply find_some in Hf as [Hin _].
    apply list_elem_of_In. exact Hin. }
  destruct (t_home_classroom (s_teacher subject)) as [home|]; [|exact Hany].
  destruct (str_truthy home); [|exact Hany].
  destruct (classrooms_get ld home) as [home_room|] eqn:Hget; [|exact Hany].
  destruct (classroom_free p (c_number home_room) slot); [|exact Hany].
  intros [= <-]. apply (classrooms_get_in _ _ _ Hget).
Qed.

Lemma evaluate_slot_available p slot subject is_hard :
  0 < _evaluate_slot p slot subject is_hard →
  _is_slot_available p slot subject = true.
Proof.
  unfold _evaluate_slot.
  destruct (_is_slot_available p slot subject); [reflexivity|]. simpl. lia.
Qed.

Lemma scored_sublist (g : TimeSlot → Z) (l : list TimeSlot) :
  sublist (filter (fun x : Z * TimeSlot => 0 < x.1)
                  ((fun s => (g s, s)) <$> l)).*2 l.
Proof.
  induction l as [|s l IH]; [constructor|].
  rewrite fmap_cons, filter_cons. cbn [fst].
  destruct (decide (0 < g s)).
  - rewrite fmap_cons. cbn [snd]. constructor. exact IH.
  - constructor. exact IH.
Qed.

(** *** One hour, and the hours of a subject *)

Lemma place_hour_step ld subject h :
  scored_in_grid h →
  let p := placer h in
  let h' := place_hour ld subject h in
  let p' := placer h' in
  scored_in_grid h'
  ∧ ege_slots p' = ege_slots p
  ∧ total_required (stats p') = total_required (stats p)
  ∧ ((∃ l, schedule p' = schedule p ++ [l]
           ∧ phase2_lesson ld (ege_slots p) subject l
           ∧ placed_here h' = placed_here h + 1
           ∧ placed (stats p') = placed (stats p) + 1
           ∧ failed (stats p') = failed (stats p)
           ∧ conflicts (stats p') = conflicts (stats p))
     ∨ (schedule p' = schedule p
        ∧ placed_here h' = placed_here h
        ∧ placed (stats p') = placed (stats p)
        ∧ failed (stats p') = failed (stats p) + 1
        ∧ length (conflicts (stats p')) = S (length (conflicts (stats p))))).
Proof.
  intros Hgrid. cbv zeta. unfold place_hour.
  destruct (_find_best_slot (placer h) (scored_slots h) subject (days_used h))
    as [b|] eqn:Hbest; cbn [placer scored_slots placed_here schedule stats
                             ege_slots total_required placed failed conflicts
                             _update_cache].
  - apply find_best_slot_some in Hbest as [Hav Hin].
    apply is_slot_available_true in Hav as (Hday & _ & _ & Hege).
    split.
    { intros s Hs. apply Hgrid. apply list_elem_of_fmap in Hs as (x & -> & Hx).
      apply list_elem_of_filter in Hx as [_ Hx].
      apply list_elem_of_fmap. eauto. }
    split; [reflexivity|]. split; [reflexivity|]. left.
    eexists. split; [reflexivity|]. split; [|repeat split; reflexivity].
    exists (_find_classroom ld (placer h) subject b).
    split; [reflexivity|]. cbn [l_time_slot].
    split; [apply Hgrid, Hin|]. split; [exact Hege|]. split; [exact Hday|].
    intros c Hc. eapply find_classroom_in. eassumption.
  - split; [exact Hgrid|]. split; [reflexivity|]. split; [reflexivity|].
    right. repeat split; try reflexivity.
    rewrite length_app. simpl. lia.
Qed.

Lemma iter_place_hour ld subject n : ∀ h,
  scored_in_grid h →
  let hn := Nat.iter n (place_hour ld subject) h in
  scored_in_grid hn
  ∧ ege_slots (placer hn) = ege_slots (placer h)
  ∧ total_required (stats (placer hn)) = total_required (stats (placer h))
  ∧ ∃ added,
      schedule (placer hn) = schedule (placer h) ++ added
      ∧ Forall (phase2_lesson ld (ege_slots (placer h)) subject) added
      ∧ (length added ≤ n)%nat
      ∧ placed_here hn = placed_here h + Z.of_nat (length added)
      ∧ placed (stats (placer hn))
        = placed (stats (placer h)) + Z.of_nat (length added)
      ∧ failed (stats (placer hn))
        = failed (stats (placer h)) + Z.of_nat (n - length added)
      ∧ length (conflicts (stats (placer hn)))
        = (length (conflicts (stats (placer h))) + (n - length added))%nat.
Proof.
  induction n as [|n IH]; intros h Hgrid; cbv zeta; cbn [Nat.iter].
  - split; [exact Hgrid|]. split; [reflexivity|]. split; [reflexivity|].
    exists []. rewrite app_nil_r. simpl.
    repeat split; try constructor; lia.
  - pose proof (IH h Hgrid) as IHh. cbv zeta in IHh.
    destruct IHh
      as (Hgrid' & Hege & Htot & added & Hs & Hall & Hlen & Hh & Hp & Hf & Hc).
    set (hn := Nat.iter n (place_hour ld subject) h) in *.
    pose proof (place_hour_step ld subject hn Hgrid') as Hstep.
    cbv zeta in Hstep. destruct Hstep as (Hgrid'' & Hege' & Htot' & Hcase).
    change (Nat.iter (S n) (place_hour ld subject) h)
      with (place_hour ld subject hn).
    split; [exact Hgrid''|].
    split; [rewrite Hege'; exact Hege|].
    split; [rewrite Htot'; exact Htot|].
    destruct Hcase as [(l & Hs' & Hl & Hh' & Hp' & Hf' & Hc')
                      |(Hs' & Hh' & Hp' & Hf' & Hc')].
    + exists (added ++ [l]). rewrite Hs', Hs, <- app_assoc.
      split; [reflexivity|]. split.
      { apply Forall_app. split; [exact Hall|]. constructor; [|constructor].
        rewrite <- Hege. exact Hl. }
      rewrite length_app. simpl. rewrite Hc'.
      repeat split; try lia.
    + exists added. rewrite Hs', Hs. split; [reflexivity|].
      split; [exact Hall|]. repeat split; try lia.
Qed.

Lemma first_hour_in_grid lower p subject :
  scored_in_grid (first_hour lower p subject).
Proof.
  intros s Hs. unfold first_hour in Hs. cbn [scored_slots] in Hs.
  apply elem_of_evaluate_all_slots in Hs as [Hs _]. exact Hs.
Qed.

Lemma place_subject_account (lower : string → string) (ld : Loader)
    (p : Placer) (subject : Subject) :
  let p' := (_place_subject lower ld p subject).1 in
  let k := (_place_subject lower ld p subject).2 in
  ∃ added,
    schedule p' = schedule p ++ added
    ∧ Z.of_nat (length added) = k
    ∧ Forall (phase2_lesson ld (ege_slots p) subject) added
    ∧ 0 ≤ k ≤ hours_of subject
    ∧ placed (stats p') = placed (stats p) + k
    ∧ failed (stats p') = failed (stats p) + (hours_of subject - k)
    ∧ Z.of_nat (length (conflicts (stats p')))
      = Z.of_nat (length (conflicts (stats p))) + (hours_of subject - k)
    ∧ total_required (stats p') = total_required (stats p)
    ∧ ege_slots p' = ege_slots p.
Proof.
  cbv zeta. unfold _place_subject. cbn [fst snd].
  destruct (iter_place_hour ld subject (Z.to_nat (s_hours_per_week subject))
              (first_hour lower p subject) (first_hour_in_grid lower p subject))
    as (_ & Hege & Htot & added & Hs & Hall & Hlen & Hh & Hp & Hf & Hc).
  exists added. unfold first_hour in *.
  cbn [placer placed_here] in *. unfold hours_of.
  split; [exact Hs|]. split; [lia|]. split; [exact Hall|].
  repeat split; try assumption; lia.
Qed.

(** *** How many hours find a slot *)

Lemma length_filter_ne {A} `{EqDecision A} (x : A) (l : list A) :
  NoDup l → x ∈ l → S (length (filter (fun y => y ≠ x) l)) = length l.
Proof.
  induction l as [|a l IH]; intros Hnd Hin.
  - apply elem_of_nil in Hin. destruct Hin.
  - apply NoDup_cons in Hnd as [Ha Hnd]. rewrite filter_cons.
    apply elem_of_cons in Hin as [->|Hin].
    + destruct (decide (a ≠ a)); [congruence|]. simpl. f_equal.
      f_equal. rewrite <- (filter_all l) at 2.
      apply filter_ext_in. intros y Hy. split; [auto|].
      intros _ ->. contradiction.
    + destruct (decide (a ≠ x)) as [_|Heq].
      * simpl. f_equal. apply IH; assumption.
      * exfalso. apply Heq. intros ->. contradiction.
Qed.

Lemma available_after_hour ld subject h b s :
  _find_best_slot (placer h) (scored_slots h) subject (days_used h) = Some b →
  _is_slot_available (placer (place_hour ld subject h)) s subject = true
  ↔ _is_slot_available (placer h) s subject = true ∧ s ≠ b.
Proof.
  intros Hbest.
  destruct (place_hour_cases ld subject h)
    as [(Hnone & _)|(b' & Hbest' & Hcase)]; [congruence|].
  assert (b' = b) as -> by congruence.
  cbv zeta in Hcase. destruct Hcase as (_ & Ht & Hc & _ & He & _).
  rewrite !is_slot_available_true, Ht, Hc, He.
  unfold cache_add, teacher_key, cohort_key. cbn [mandatory_lesson l_teacher
    l_class_or_group l_time_slot]. split.
  - intros (Hday & Hft & Hfc & Hne).
    assert (s ≠ b) as Hsb.
    { intros ->. rewrite cache_row_put, decide_True, lookup_insert_eq in Hft
        by reflexivity. discriminate. }
    split; [|exact Hsb]. split; [exact Hday|].
    rewrite cache_row_put, decide_True, lookup_insert_ne in Hft
      by (try reflexivity; congruence).
    split; [exact Hft|]. split; [|exact Hne].
    intros c Hcin. specialize (Hfc c Hcin). rewrite cache_row_put in Hfc.
    destruct (decide (class_name_of subject = c)) as [<-|]; [|exact Hfc].
    rewrite lookup_insert_ne in Hfc by congruence. exact Hfc.
  - intros [(Hday & Hft & Hfc & Hne) Hsb]. split; [exact Hday|].
    split.
    { rewrite cache_row_put, decide_True, lookup_insert_ne
        by (try reflexivity; congruence). exact Hft. }
    split; [|exact Hne]. intros c Hcin. rewrite cache_row_put.
    destruct (decide (class_name_of subject = c)) as [<-|]; [|auto].
    rewrite lookup_insert_ne by congruence. auto.
Qed.

Lemma NoDup_free_slots p subject : NoDup (free_slots p subject).
Proof. apply NoDup_filter, NoDup_all_time_slots. Qed.

Lemma place_hour_free ld p0 subject h :
  hour_inv p0 subject h →
  let h' := place_hour ld subject h in
  (free_slots (placer h) subject = []
   ∧ placed_here h' = placed_here h
   ∧ free_slots (placer h') subject = [])
  ∨ (placed_here h' = placed_here h + 1
     ∧ S (length (free_slots (placer h') subject))
       = length (free_slots (placer h) subject)).
Proof.
  intros (_ & _ & _ & Hsub & Hall). cbv zeta.
  destruct (_find_best_slot (placer h) (scored_slots h) subject (days_used h))
    as [b|] eqn:Hbest.
  - right. split.
    { unfold place_hour. rewrite Hbest. reflexivity. }
    pose proof (find_best_slot_some _ _ _ _ _ Hbest) as [Hav Hin].
    unfold free_slots.
    rewrite (list_filter_iff
               (fun s => _is_slot_available (placer (place_hour ld subject h))
                           s subject = true)
               (fun s => s ≠ b ∧ _is_slot_available (placer h) s subject
                                 = true))
      by (intros s; rewrite (available_after_hour ld subject h b s Hbest);
          tauto).
    rewrite <- list_filter_filter.
    apply length_filter_ne; [apply NoDup_free_slots|].
    apply list_elem_of_filter. split; [exact Hav|apply Hsub, Hin].
  - left.
    assert (free_slots (placer h) subject = []) as Hfree.
    { pose proof (proj1 (find_best_slot_none _ _ _ _) Hbest) as Hnone.
      unfold free_slots. apply filter_nothing. intros s Hs Hav.
      rewrite (Hnone s (Hall s Hs Hav)) in Hav. discriminate. }
    split; [exact Hfree|]. split.
    { unfold place_hour. rewrite Hbest. reflexivity. }
    rewrite <- Hfree. unfold free_slots. apply list_filter_iff. intros s.
    destruct (place_hour_cases ld subject h)
      as [(_ & _ & Ht & Hc & _ & He & _)|(b & Hbest' & _)]; [|congruence].
    unfold _is_slot_available. rewrite Ht, Hc, He. reflexivity.
Qed.

Lemma iter_place_hour_free ld p0 subject n : ∀ h,
  hour_inv p0 subject h →
  let hn := Nat.iter n (place_hour ld subject) h in
  let m := length (free_slots (placer h) subject) in
  placed_here hn = placed_here h + Z.of_nat (Nat.min n m)
  ∧ length (free_slots (placer hn) subject) = (m - Nat.min n m)%nat.
Proof.
  induction n as [|n IH]; intros h Hinv; cbv zeta.
  - change (Nat.iter 0 (place_hour ld subject) h) with h. split; lia.
  - pose proof (IH h Hinv) as IHh. cbv zeta in IHh.
    destruct IHh as [Hp Hlen].
    pose proof (iter_hour_inv ld p0 subject n h Hinv) as Hinv'.
    set (hn := Nat.iter n (place_hour ld subject) h) in *.
    change (Nat.iter (S n) (place_hour ld subject) h)
      with (place_hour ld subject hn).
    pose proof (place_hour_free ld p0 subject hn Hinv') as Hstep.
    cbv zeta in Hstep.
    destruct Hstep as [(Hnil & Hp' & Hnil')|(Hp' & Hlen')].
    + rewrite Hnil in Hlen. cbn [length] in Hlen.
      rewrite Hp', Hp, Hnil'. cbn [length]. split; lia.
    + rewrite Hp', Hp. split; lia.
Qed.

Lemma place_subject_count_free lower ld p subject :
  caches_ok p (schedule p) →
  (∀ l, l ∈ schedule p → l_time_slot l ∈ all_time_slots) →
  (_place_subject lower ld p subject).2
  = Z.min (hours_of subject) (Z.of_nat (length (free_slots p subject))).
Proof.
  intros Hok Hgrid. unfold _place_subject. cbn [snd].
  pose proof (iter_place_hour_free ld p subject
                (Z.to_nat (s_hours_per_week subject))
                (first_hour lower p subject)
                (first_hour_inv lower p subject Hok Hgrid)) as H.
  cbv zeta in H. destruct H as [Hp _]. rewrite Hp.
  unfold first_hour, hours_of. cbn [placer placed_here]. lia.
Qed.

Lemma foldl_bind {A B C} (f : A → C → A) (h : B → list C) (l : list B) :
  ∀ a, foldl (fun a g => foldl f a (h g)) a l = foldl f a (l ≫= h).
Proof.
  induction l as [|g l IH]; intros a; simpl; [reflexivity|].
  rewrite foldl_app. apply IH.
Qed.

(** *** A run of subjects *)

Lemma place_subjects_account lower ld subs : ∀ p,
  let p' := foldl (fun p sub => (_place_subject lower ld p sub).1) p subs in
  ege_slots p' = ege_slots p
  ∧ total_required (stats p') = total_required (stats p)
  ∧ ∃ added,
      schedule p' = schedule p ++ added
      ∧ (∀ l, l ∈ added →
              ∃ sub, sub ∈ subs ∧ phase2_lesson ld (ege_slots p) sub l)
      ∧ placed (stats p') = placed (stats p) + Z.of_nat (length added)
      ∧ placed (stats p') + failed (stats p')
        = placed (stats p) + failed (stats p) + total hours_of subs
      ∧ Z.of_nat (length (conflicts (stats p')))
        = Z.of_nat (length (conflicts (stats p)))
          + (failed (stats p') - failed (stats p)).
Proof.
  induction subs as [|sub subs IH]; intros p; cbv zeta.
  - simpl foldl. split; [reflexivity|]. split; [reflexivity|]. exists [].
    rewrite app_nil_r. unfold total. simpl.
    repeat split; try lia.
    intros l Hl. apply elem_of_nil in Hl. destruct Hl.
  - pose proof (place_subject_account lower ld p sub) as Hsub.
    cbv zeta in Hsub.
    destruct Hsub as (added1 & Hs1 & Hk & Hall & Hrange & Hp1 & Hf1 & Hc1
                      & Ht1 & He1).
    set (p1 := (_place_subject lower ld p sub).1) in *.
    change (foldl (fun p sub => (_place_subject lower ld p sub).1) p
                  (sub :: subs))
      with (foldl (fun p sub => (_place_subject lower ld p sub).1) p1 subs).
    pose proof (IH p1) as IHp. cbv zeta in IHp.
    destruct IHp as (He & Ht & added & Hs & Hfrom & Hp & Hpf & Hc).
    split; [congruence|]. split; [congruence|].
    exists (added1 ++ added). rewrite Hs, Hs1, <- app_assoc.
    split; [reflexivity|]. split.
    { intros l Hl. apply elem_of_app in Hl as [Hl|Hl].
      - exists sub. split; [left|].
        rewrite Forall_forall in Hall. apply Hall, Hl.
      - destruct (Hfrom l Hl) as (x & Hx & Hlx). exists x.
        split; [right; exact Hx|]. rewrite <- He1. exact Hlx. }
    rewrite length_app, total_cons.
    split; [lia|]. split; [lia|]. lia.
Qed.

(** *** The priority order *)

Lemma priority_le_true lower x y :
  priority_le (priority_score lower x) (priority_score lower y) = true →
  ranks_before lower x y.
Proof.
  unfold priority_le, priority_score, ranks_before. cbv zeta.
  destruct (_is_hard_subject lower x), (_is_hard_subject lower y);
    repeat (case Z.ltb_spec; intros ?); try discriminate; intros _;
    try (exfalso; lia);
    try (left; split; reflexivity); right; (split; [reflexivity|]); lia.
Qed.

Lemma priority_le_false lower x y :
  priority_le (priority_score lower x) (priority_score lower y) = false →
  ranks_before lower y x.
Proof.
  unfold priority_le, priority_score, ranks_before. cbv zeta.
  destruct (_is_hard_subject lower x), (_is_hard_subject lower y);
    repeat (case Z.ltb_spec; intros ?); try discriminate; intros _;
    try (exfalso; lia);
    try (left; split; reflexivity); right; (split; [reflexivity|]); lia.
Qed.

Lemma ranks_before_trans lower : Transitive (ranks_before lower).
Proof.
  intros x y z. unfold ranks_before. cbv zeta.
  destruct (_is_hard_subject lower x), (_is_hard_subject lower y),
    (_is_hard_subject lower z);
    intros [[? ?]|[? ?]] [[? ?]|[? ?]]; try discriminate;
    try (left; split; reflexivity); right; (split; [reflexivity|]); lia.
Qed.

(** *** The whole of Phase 2 *)

Lemma place_all_flat lower ld p :
  place_all_mandatory_subjects lower ld p
  = foldl (fun p sub => (_place_subject lower ld p sub).1)
      {| schedule := schedule p; ege_slots := ege_slots p;
         stats := {| total_required :=
                       total s_hours_per_week
                         (filter (fun sub => s_subject_type sub = MANDATORY)
                                 (subjects ld));
                     placed := placed (stats p);
                     failed := failed (stats p);
                     conflicts := conflicts (stats p) |};
         _teacher_schedule := _teacher_schedule p;
         _class_schedule := _class_schedule p;
         _classroom_schedule := _classroom_schedule p |}
      (_group_by_class
         (_sort_by_priority lower
            (filter (fun sub => s_subject_type sub = MANDATORY)
                    (subjects ld))) ≫= snd).
Proof.
  unfold place_all_mandatory_subjects.
  apply (foldl_bind (fun p sub => (_place_subject lower ld p sub).1) snd).
Qed.

Lemma group_add_index_append by_class c sub :
  group_add by_class c sub = index_append by_class c sub.
Proof.
  induction by_class as [|[k l] rest IH]; simpl; [reflexivity|].
  rewrite IH. reflexivity.
Qed.

Lemma group_by_class_file_under subs :
  _group_by_class subs = file_under s_classes [] subs.
Proof.
  unfold _group_by_class, file_under. apply foldl_ext_all.
  intros idx sub. apply foldl_ext_all. intros acc c.
  apply group_add_index_append.
Qed.

Lemma group_by_class_entry subs c :
  entry (_group_by_class subs) c
  = sub ← subs; replicate (listings c sub) sub.
Proof.
  rewrite group_by_class_file_under. apply (file_under_entry s_classes c subs []).
Qed.

Lemma group_by_class_keys subs :
  NoDup (_group_by_class subs).*1
  ∧ ∀ c, c ∈ (_group_by_class subs).*1
         ↔ ∃ sub, sub ∈ subs ∧ c ∈ s_classes sub.
Proof.
  rewrite group_by_class_file_under.
  pose proof (file_under_keys s_classes subs [] (NoDup_nil_2)) as H.
  cbv zeta in H. destruct H as (Hnd & _ & Hin).
  { intros kv Hkv. apply elem_of_nil in Hkv. destruct Hkv. }
  split; [exact Hnd|]. intros c. rewrite Hin. split.
  - intros [H|H]; [|exact H]. apply elem_of_nil in H. destruct H.
  - auto.
Qed.

Lemma grouped_subject_origin subs sub :
  sub ∈ _group_by_class subs ≫= snd → sub ∈ subs ∧ s_classes sub ≠ [].
Proof.
  intros Hin. apply list_elem_of_bind in Hin as ([c l] & Hsub & Hg).
  cbn [snd] in Hsub. split.
  - destruct (group_by_class_keys subs) as [Hnd _].
    rewrite <- (entry_of_elem _ c l Hnd Hg), group_by_class_entry in Hsub.
    apply list_elem_of_bind in Hsub as (x & Hx & Hxs).
    apply elem_of_replicate in Hx as [-> _]. exact Hxs.
  - exact (group_by_class_ok subs (c, l) sub Hg Hsub).
Qed.

Lemma total_group_by_class (w : Subject → Z) subs :
  total w (_group_by_class subs ≫= snd)
  = total (fun sub => Z.of_nat (length (s_classes sub)) * w sub) subs.
Proof.
  rewrite group_by_class_file_under, total_file_under.
  change (@nil (string * list Subject) ≫= snd) with (@nil Subject).
  rewrite total_nil. lia.
Qed.

Lemma place_hour_caches ld subject h :
  caches_ok (placer h) (schedule (placer h)) →
  caches_ok (placer (place_hour ld subject h))
            (schedule (placer (place_hour ld subject h))).
Proof.
  intros (Ht & Hc & Hr). unfold caches_ok.
  destruct (place_hour_cases ld subject h)
    as [(_ & Hs & Ht' & Hc' & Hr' & _)|(b & _ & Hcase)].
  - rewrite Hs, Ht', Hc', Hr'. split; [|split]; assumption.
  - cbv zeta in Hcase. destruct Hcase as (Hs & Ht' & Hc' & Hr' & _).
    rewrite Hs, Ht', Hc', Hr'.
    split; [|split]; apply cache_ok_add; assumption.
Qed.

Lemma place_all_ege_slots lower ld p :
  ege_slots (place_all_mandatory_subjects lower ld p) = ege_slots p.
Proof.
  rewrite place_all_flat.
  match goal with
  | |- context [foldl _ ?p0 ?flat] =>
      pose proof (place_subjects_account lower ld flat p0) as H
  end.
  cbv zeta in H. destruct H as (He & _). exact He.
Qed.

Lemma place_all_caches lower ld p :
  caches_ok p (schedule p) →
  caches_ok (place_all_mandatory_subjects lower ld p)
            (schedule (place_all_mandatory_subjects lower ld p)).
Proof.
  intros Hok.
  apply (place_all_keeps lower ld (fun p => caches_ok p (schedule p))).
  - intros subject h _. apply place_hour_caches.
  - intros q st Hq. exact Hq.
  - exact Hok.
Qed.

Lemma place_all_appends (lower : string → string)
    (ld : Loader) (p : Placer) :
  let p' := place_all_mandatory_subjects lower ld p in
  ∃ added,
    schedule p' = schedule p ++ added
    ∧ ege_slots p' = ege_slots p
    ∧ Z.of_nat (length added) = placed (stats p') - placed (stats p)
    ∧ ∀ l, l ∈ added →
           ∃ sub, sub ∈ subjects ld ∧ s_subject_type sub = MANDATORY
                  ∧ s_classes sub ≠ []
                  ∧ phase2_lesson ld (ege_slots p) sub l.
Proof.
  cbv zeta. rewrite place_all_flat.
  match goal with
  | |- context [foldl _ ?p0 ?flat] =>
      pose proof (place_subjects_account lower ld flat p0) as H;
      set (start := p0) in *; set (subs := flat) in *
  end.
  cbv zeta in H. destruct H as (He & _ & added & Hs & Hfrom & Hp & _ & _).
  exists added. split; [exact Hs|]. split; [exact He|].
  split; [change (placed (stats p)) with (placed (stats start)); lia|].
  intros l Hl. destruct (Hfrom l Hl) as (sub & Hsub & Hlesson).
  exists sub. apply grouped_subject_origin in Hsub as [Hsub Hcls].
  apply list_elem_of_In in Hsub.
  apply (Permutation_in _ (stable_sort_perm _ _)) in Hsub.
  apply list_elem_of_In, list_elem_of_filter in Hsub as [Htype Hsub].
  repeat split; assumption.
Qed.

End Phase2More.

Module Phase2Theorems.
Import ListFacts IndexFacts Metric MetricFacts Phase2 Phase1Facts Phase1Inv Phase2Cache
  Phase2Inv Phase2Score Phase2Hours Phase2More.
Import Spec Terms.

(** X14. [_find_classroom] returns a classroom of the loader that no lesson
    occupies in the slot, and returns none only when every classroom is
    occupied; it returns the teacher's home classroom whenever that exists
    and is free, and otherwise the first free classroom in the loader's
    order. *)
Theorem find_classroom_choice (ld : Loader) (p : Placer) (subject : Subject)
    (slot : TimeSlot) :
  match _find_classroom ld p subject slot with
  | Some c => c ∈ classrooms ld ∧ classroom_free p (c_number c) slot = true
  | None =>
      ∀ c, c ∈ classrooms ld → classroom_free p (c_number c) slot = false
  end
  ∧ (∀ home home_room,
       t_home_classroom (s_teacher subject) = Some home → home ≠ "" →
       classrooms_get ld home = Some home_room →
       classroom_free p (c_number home_room) slot = true →
       _find_classroom ld p subject slot = Some home_room)
  ∧ (∀ c, _find_classroom ld p subject slot = Some c →
          (∃ home, t_home_classroom (s_teacher subject) = Some home
                   ∧ classrooms_get ld home = Some c)
          ∨ ∃ pre post,
              classrooms ld = pre ++ c :: post
              ∧ ∀ x, x ∈ pre → classroom_free p (c_number x) slot = false).
Proof.
  split; [|split].
  - destruct (_find_classroom ld p subject slot) as [c|] eqn:Hfind.
    + split; [eapply find_classroom_in; eassumption|].
      apply bool_decide_eq_true. eapply find_classroom_free. eassumption.
    + unfold _find_classroom in Hfind.
      assert (List.find (fun c0 => classroom_free p (c_number c0) slot)
                        (classrooms ld) = None) as Hnone.
      { destruct (t_home_classroom (s_teacher subject)) as [home|];
          [|exact Hfind].
        destruct (str_truthy home); [|exact Hfind].
        destruct (classrooms_get ld home) as [home_room|]; [|exact Hfind].
        destruct (classroom_free p (c_number home_room) slot);
          [discriminate|exact Hfind]. }
      intros c Hc. exact (proj1 (find_nothing _ _) Hnone c Hc).
  - intros home home_room Hhome Hne Hget Hfree. unfold _find_classroom.
    rewrite Hhome. destruct home; [congruence|]. cbn [str_truthy].
    rewrite Hget, Hfree. reflexivity.
  - intros c Hfind. unfold _find_classroom in Hfind.
    assert (List.find (fun c0 => classroom_free p (c_number c0) slot)
                      (classrooms ld) = Some c →
            ∃ pre post,
              classrooms ld = pre ++ c :: post
              ∧ ∀ x, x ∈ pre → classroom_free p (c_number x) slot = false)
      as Hany.
    { intros Hf. apply find_first in Hf as (_ & pre & post & Heq & Hpre).
      eauto. }
    destruct (t_home_classroom (s_teacher subject)) as [home|];
      [|right; auto].
    destruct (str_truthy home); [|right; auto].
    destruct (classrooms_get ld home) as [home_room|] eqn:Hget;
      [|right; auto].
    destruct (classroom_free p (c_number home_room) slot); [|right; auto].
    injection Hfind as <-. left. eauto.
Qed.

(** X15. [_evaluate_all_slots] returns the cells of the grid that
    [_evaluate_slot] scores above zero, each once, with its score, in
    descending order of score; every slot it returns passes
    [_is_slot_available]. *)
Theorem scored_slots_sorted (p : Placer) (subject : Subject) (is_hard : bool) :
  let scored := _evaluate_all_slots p subject is_hard in
  StronglySorted (fun x y : Z * TimeSlot => y.1 ≤ x.1) scored
  ∧ NoDup scored.*2
  ∧ (∀ x, x ∈ scored →
          x.2 ∈ all_time_slots
          ∧ x.1 = _evaluate_slot p x.2 subject is_hard
          ∧ 0 < x.1
          ∧ _is_slot_available p x.2 subject = true)
  ∧ (∀ s, s ∈ all_time_slots → 0 < _evaluate_slot p s subject is_hard →
          s ∈ scored.*2).
Proof.
  intros scored.
  set (g := fun s => _evaluate_slot p s subject is_hard).
  set (raw := filter (fun x : Z * TimeSlot => 0 < x.1)
                     ((fun slot => (g slot, slot)) <$> all_time_slots)).
  assert (scored = stable_sort (fun x y : Z * TimeSlot => y.1 <=? x.1) raw)
    as -> by reflexivity.
  pose proof (stable_sort_perm (fun x y : Z * TimeSlot => y.1 <=? x.1) raw)
    as Hperm.
  split; [|split; [|split]].
  - apply stable_sort_sorted.
    + intros a b Hab. apply Z.leb_le in Hab. exact Hab.
    + intros a b Hab. apply Z.leb_gt in Hab. lia.
    + intros a b c Hab Hbc. lia.
  - rewrite Hperm.
    apply (sublist_NoDup _ all_time_slots NoDup_all_time_slots).
    apply scored_sublist.
  - intros x Hx. rewrite Hperm in Hx. unfold raw in Hx.
    apply list_elem_of_filter in Hx as [Hpos Hx].
    apply list_elem_of_fmap in Hx as (s & -> & Hs). cbn [fst snd] in *.
    repeat split; try assumption. apply evaluate_slot_available in Hpos.
    exact Hpos.
  - intros s Hs Hpos. rewrite Hperm. apply list_elem_of_fmap.
    exists (g s, s). split; [reflexivity|]. unfold raw.
    apply list_elem_of_filter. split; [exact Hpos|].
    apply list_elem_of_fmap. exists s. auto.
Qed.

(** X16. [_find_best_slot] returns the first slot of the scored list that
    passes [_is_slot_available] and lies on a day not used yet; if there is
    none, the first one that passes [_is_slot_available]; and nothing only
    when no slot of the list passes. *)
Theorem best_slot_choice (p : Placer) (scored : list (Z * TimeSlot))
    (subject : Subject) (used : gset DayOfWeek) :
  match _find_best_slot p scored subject used with
  | Some b =>
      _is_slot_available p b subject = true
      ∧ (∃ pre sc post,
           scored = pre ++ (sc, b) :: post
           ∧ ∀ x, x ∈ pre → _is_slot_available p x.2 subject = true →
                  day x.2 ∈ used ∧ day b ∉ used)
      ∧ (day b ∈ used →
         ∀ x, x ∈ scored → _is_slot_available p x.2 subject = true →
              day x.2 ∈ used)
  | None => ∀ x, x ∈ scored → _is_slot_available p x.2 subject = false
  end.
Proof.
  unfold _find_best_slot.
  destruct (List.find (fun x => bool_decide (day x.2 ∉ used)
                                && _is_slot_available p x.2 subject) scored)
    as [[sc b]|] eqn:Hfresh.
  - apply find_first in Hfresh as (Hb & pre & post & -> & Hpre).
    cbn [snd] in *. apply andb_true_iff in Hb as [Hday Hav].
    apply bool_decide_eq_true in Hday.
    split; [exact Hav|]. split.
    + exists pre, sc, post. split; [reflexivity|]. intros x Hx Hxav.
      specialize (Hpre x Hx). rewrite Hxav, andb_true_r in Hpre.
      apply bool_decide_eq_false in Hpre. split; [|exact Hday].
      destruct (decide (day x.2 ∈ used)); tauto.
    + intros Hin. contradiction.
  - pose proof (proj1 (find_nothing _ _) Hfresh) as Hnone.
    destruct (List.find (fun x => _is_slot_available p x.2 subject) scored)
      as [[sc b]|] eqn:Hany.
    + apply find_first in Hany as (Hav & pre & post & Heq & Hpre).
      cbn [snd] in *. split; [exact Hav|]. split.
      * exists pre, sc, post. split; [exact Heq|]. intros x Hx Hxav.
        rewrite (Hpre x Hx) in Hxav. discriminate.
      * intros _ x Hx Hxav. specialize (Hnone x Hx).
        rewrite Hxav, andb_true_r in Hnone.
        apply bool_decide_eq_false in Hnone.
        destruct (decide (day x.2 ∈ used)); tauto.
    + exact (proj1 (find_nothing _ _) Hany).
Qed.

(** X17. [_place_subject] works through max(0, hours_per_week) hours. It
    appends the lessons it places to the schedule and changes nothing else in
    it; the number k it returns is the number of lessons appended; it adds k
    to [stats['placed']], the remaining hours to [stats['failed']], and one
    entry to [stats['conflicts']] per failed hour. Every lesson appended is a
    lesson of the subject in a cell of the grid that is not reserved, on a
    day its teacher works. *)
Theorem place_subject_accounts (lower : string → string) (ld : Loader)
    (p : Placer) (subject : Subject) :
  let p' := (_place_subject lower ld p subject).1 in
  let k := (_place_subject lower ld p subject).2 in
  ∃ added,
    schedule p' = schedule p ++ added
    ∧ Z.of_nat (length added) = k
    ∧ Forall (phase2_lesson ld (ege_slots p) subject) added
    ∧ 0 ≤ k ≤ hours_of subject
    ∧ placed (stats p') = placed (stats p) + k
    ∧ failed (stats p') = failed (stats p) + (hours_of subject - k)
    ∧ Z.of_nat (length (conflicts (stats p')))
      = Z.of_nat (length (conflicts (stats p))) + (hours_of subject - k)
    ∧ total_required (stats p') = total_required (stats p)
    ∧ ege_slots p' = ege_slots p.
Proof. apply place_subject_account. Qed.

(** X18. [place_all_mandatory_subjects] only appends to the schedule. Each
    lesson it appends belongs to a mandatory subject of the loader that has
    at least one class; it carries the subject's name and teacher and the
    subject's first class as its label, is not flagged as exam practice, lies
    in a cell of the grid that is not reserved for exam practice, on a day
    the teacher works, and has one of the loader's classrooms or none. The
    number of lessons appended is the increase of [stats['placed']]. *)
Theorem phase2_appends_mandatory_lessons (lower : string → string)
    (ld : Loader) (p : Placer) :
  let p' := place_all_mandatory_subjects lower ld p in
  ∃ added,
    schedule p' = schedule p ++ added
    ∧ ege_slots p' = ege_slots p
    ∧ Z.of_nat (length added) = placed (stats p') - placed (stats p)
    ∧ ∀ l, l ∈ added →
           ∃ sub, sub ∈ subjects ld ∧ s_subject_type sub = MANDATORY
                  ∧ s_classes sub ≠ []
                  ∧ phase2_lesson ld (ege_slots p) sub l.
Proof. apply place_all_appends. Qed.

(** X19. [_group_by_class] has one entry per class that some subject lists,
    and under each class the subjects that list it, in the order of the
    input, once for every time the subject lists the class. *)
Theorem group_by_class_entries (subs : list Subject) :
  let by_class := _group_by_class subs in
  NoDup by_class.*1
  ∧ (∀ c, c ∈ by_class.*1 ↔ ∃ sub, sub ∈ subs ∧ c ∈ s_classes sub)
  ∧ (∀ c l, (c, l) ∈ by_class →
            l = sub ← subs; replicate (listings c sub) sub).
Proof.
  cbv zeta. destruct (group_by_class_keys subs) as [Hnd Hin].
  split; [exact Hnd|]. split; [exact Hin|].
  intros c l Hl. rewrite <- group_by_class_entry.
  symmetry. apply entry_of_elem; assumption.
Qed.

(** X20. After [place_all_mandatory_subjects], [stats['total_required']] is
    the sum of the hours of the mandatory subjects, while [stats['placed']]
    and [stats['failed']] together grow by the hours of every mandatory
    subject counted once per class it lists (a negative number of hours
    counting as none): a subject is worked through once for each of its
    classes, and not at all if it has none. The two totals agree when every
    mandatory subject has exactly one class and no negative hours. *)
Theorem phase2_totals (lower : string → string) (ld : Loader) (p : Placer) :
  let p' := place_all_mandatory_subjects lower ld p in
  let mandatory :=
    filter (fun sub => s_subject_type sub = MANDATORY) (subjects ld) in
  total_required (stats p') = total s_hours_per_week mandatory
  ∧ placed (stats p') + failed (stats p')
    = placed (stats p) + failed (stats p)
      + total (fun sub => Z.of_nat (length (s_classes sub)) * hours_of sub)
              mandatory
  ∧ Z.of_nat (length (conflicts (stats p')))
    = Z.of_nat (length (conflicts (stats p)))
      + (failed (stats p') - failed (stats p))
  ∧ ((∀ sub, sub ∈ mandatory →
             length (s_classes sub) = 1%nat ∧ 0 ≤ s_hours_per_week sub) →
     placed (stats p') + failed (stats p')
     = placed (stats p) + failed (stats p) + total_required (stats p')).
Proof.
  cbv zeta. rewrite place_all_flat.
  set (mandatory := filter (fun sub => s_subject_type sub = MANDATORY)
                           (subjects ld)).
  match goal with
  | |- context [foldl _ ?p0 ?flat] =>
      pose proof (place_subjects_account lower ld flat p0) as H;
      set (start := p0) in *; set (subs := flat) in *
  end.
  cbv zeta in H. destruct H as (_ & Ht & added & _ & _ & _ & Hpf & Hc).
  assert (total hours_of subs
          = total (fun sub => Z.of_nat (length (s_classes sub)) * hours_of sub)
                  mandatory) as Hsum.
  { unfold subs. rewrite total_group_by_class. apply sum_perm.
    apply stable_sort_perm. }
  split; [exact Ht|]. split; [rewrite <- Hsum; exact Hpf|].
  split; [exact Hc|]. intros Hone. rewrite Hpf, Hsum, Ht.
  change (total_required (stats start)) with (total s_hours_per_week mandatory).
  f_equal. clear -Hone. induction mandatory as [|sub subs IH];
    [reflexivity|].
  rewrite !total_cons. rewrite IH by (intros x Hx; apply Hone; right; exact Hx).
  destruct (Hone sub ltac:(left)) as [-> Hpos]. unfold hours_of. lia.
Qed.

(** X21. [_sort_by_priority] returns a permutation of its input in which
    demanding subjects come before the others, among those subjects with
    more hours come first, and among those subjects whose teacher has more
    unavailable days. *)
Theorem sort_by_priority_sorted (lower : string → string)
    (subs : list Subject) :
  _sort_by_priority lower subs ≡ₚ subs
  ∧ StronglySorted (ranks_before lower) (_sort_by_priority lower subs).
Proof.
  unfold _sort_by_priority. split; [apply stable_sort_perm|].
  apply stable_sort_sorted.
  - intros a b. apply priority_le_true.
  - intros a b. apply priority_le_false.
  - apply ranks_before_trans.
Qed.

(** X22. From [__init__] on and after [place_all_mandatory_subjects], the
    three occupancy caches hold an entry for a key and a slot exactly when
    the schedule has a lesson with that teacher name, class label or room
    number in that slot; so [_is_slot_available] answers what the schedule
    itself says: the teacher works that day and has no lesson in the slot,
    none of the subject's classes has one, and the slot is not reserved. *)
Theorem caches_mirror_schedule (lower : string → string) (ld : Loader)
    (sched : list Lesson) (ege : list TimeSlot) :
  let p0 := init sched ege in
  let p := place_all_mandatory_subjects lower ld p0 in
  (caches_ok p0 sched ∧ caches_ok p (schedule p))
  ∧ (∀ s subject,
       _is_slot_available p0 s subject
       = legal_slot sched (list_to_set ege) subject s)
  ∧ (∀ s subject,
       _is_slot_available p s subject
       = legal_slot (schedule p) (list_to_set ege) subject s).
Proof.
  cbv zeta. destruct (init_ok sched ege) as (Hok & Hs & He).
  assert (caches_ok (init sched ege) (schedule (init sched ege))) as Hok0
    by (rewrite Hs; exact Hok).
  pose proof (place_all_caches lower ld _ Hok0) as Hok'.
  split; [split; assumption|]. split.
  - intros s subject. rewrite (is_slot_available_legal _ _ _ Hok0), Hs, He.
    reflexivity.
  - intros s subject. rewrite (is_slot_available_legal _ _ _ Hok').
    rewrite place_all_ege_slots, He. reflexivity.
Qed.

(** X23. With caches that mirror the schedule, the teacher and classroom
    checks of Phase 2 are at least as strict as [Schedule.is_teacher_busy]
    and [Schedule.is_classroom_busy] (they go by name and by room number
    where the queries compare whole records), while
    [Schedule.is_class_busy], a substring test on the label, answers yes
    wherever the class cache has an entry. *)
Theorem caches_and_busy_queries (p : Placer) (sched : list Lesson) :
  caches_ok p sched →
  (∀ t s, Queries.is_teacher_busy sched t s = true →
          is_Some (cache_row (_teacher_schedule p) (t_name t) !! s))
  ∧ (∀ c s, is_classroom_busy sched c s = true →
            classroom_free p (c_number c) s = false)
  ∧ (∀ c s, is_Some (cache_row (_class_schedule p) c !! s) →
            Queries.is_class_busy sched c s = true).
Proof.
  intros (Ht & Hc & Hr). split; [|split].
  - intros t s Hbusy. apply existsb_exists in Hbusy as (l & Hl & Hb).
    apply andb_true_iff in Hb as [Hlt Hls].
    apply bool_decide_eq_true in Hlt, Hls. apply Ht. exists l.
    split; [apply list_elem_of_In, Hl|]. unfold teacher_key.
    split; congruence.
  - intros c s Hbusy. apply existsb_exists in Hbusy as (l & Hl & Hb).
    apply andb_true_iff in Hb as [Hlc Hls].
    apply bool_decide_eq_true in Hlc, Hls.
    unfold classroom_free. apply bool_decide_eq_false.
    assert (is_Some (cache_row (_classroom_schedule p) (c_number c) !! s))
      as [x Hx].
    { apply Hr. exists l. split; [apply list_elem_of_In, Hl|].
      unfold room_key. rewrite Hlc. auto. }
    congruence.
  - intros c s Hsome. apply Hc in Hsome as (l & Hl & Hk & Hs).
    unfold Queries.is_class_busy. apply existsb_exists. exists l.
    split; [apply list_elem_of_In, Hl|].
    unfold cohort_key in Hk. injection Hk as ->.
    rewrite contains_refl, Hs. simpl. apply bool_decide_eq_true. reflexivity.
Qed.

Lemma caches_and_busy_queries_witness :
  (∀ t s, Queries.is_teacher_busy gap_day t s = true →
          is_Some (cache_row (_teacher_schedule (init gap_day []))
                             (t_name t) !! s))
  ∧ (∀ c s, is_classroom_busy gap_day c s = true →
            classroom_free (init gap_day []) (c_number c) s = false)
  ∧ (∀ c s, is_Some (cache_row (_class_schedule (init gap_day [])) c !! s) →
            Queries.is_class_busy gap_day c s = true).
Proof.
  apply (caches_and_busy_queries (init gap_day []) gap_day).
  apply init_ok.
Defined.

(** X24. Started on caches that mirror a schedule lying in the grid,
    [_place_subject] places as many lessons as the subject has hours, or as
    many as there are cells of the grid that [_is_slot_available] accepts for
    the subject at the start, whichever is less: each lesson placed takes
    exactly one such cell away, and an hour fails only when none is left. *)
Theorem place_subject_count (lower : string → string) (ld : Loader)
    (p : Placer) (subject : Subject) :
  caches_ok p (schedule p) →
  (∀ l, l ∈ schedule p → l_time_slot l ∈ all_time_slots) →
  (_place_subject lower ld p subject).2
  = Z.min (hours_of subject) (Z.of_nat (length (free_slots p subject))).
Proof. apply place_subject_count_free. Qed.

Lemma place_subject_count_witness :
  (_place_subject (fun s => s) one_room_school (init [] []) algebra7).2
  = Z.min (hours_of algebra7)
          (Z.of_nat (length (free_slots (init [] []) algebra7))).
Proof.
  apply (place_subject_count (fun s => s) one_room_school (init [] [])
           algebra7).
  - destruct (init_ok [] []) as (Hok & Hs & _). rewrite Hs. exact Hok.
  - intros l Hl. destruct (init_ok [] []) as (_ & Hs & _).
    rewrite Hs in Hl. apply elem_of_nil in Hl. destruct Hl.
Defined.

End Phase2Theorems.

(** ** The three phases in sequence *)

Module PipelineTheorems.
Import Pipeline Phase1More Phase2Cache Phase2More Phase3More Guarantees.
Import Spec Terms.

(** X25. In a complete run, Phase 1 leaves only exam-practice lessons, all
    in reserved slots; Phase 2 keeps them as they are and appends lessons
    that are not exam practice and lie in cells of the grid that are not
    reserved; Phase 3 returns the lessons of Phase 2 in the same order with
    nothing but their time slots changed, the time slots being the same up
    to order. *)
Theorem generate_phases (lower : string → string) (ld : Loader)
    (jitter : TimeSlot → Q) (quality : list Lesson → Q)
    (draws : list Phase3.Draw) (out : Outputs) :
  generate lower ld jitter quality draws = Some out →
  ∃ reserved added,
    Phase1.place_ege_practices ld jitter = Some (after_phase1 out, reserved)
    ∧ (∀ l, l ∈ after_phase1 out →
            l_is_ege_practice l = true ∧ l_time_slot l ∈ reserved)
    ∧ after_phase2 out = after_phase1 out ++ added
    ∧ (∀ l, l ∈ added →
            l_is_ege_practice l = false
            ∧ (l_time_slot l ∉ reserved)
            ∧ l_time_slot l ∈ all_time_slots)
    ∧ unslotted <$> after_phase3 out = unslotted <$> after_phase2 out
    ∧ l_time_slot <$> after_phase3 out ≡ₚ l_time_slot <$> after_phase2 out.
Proof.
  intros Hgen. apply generate_some in Hgen as (reserved & H1 & H2 & H3).
  destruct (place_ege_practices_lessons _ _ _ _ H1) as [Hsound _].
  pose proof (place_all_appends lower ld
                (Phase2.init (after_phase1 out) reserved)) as Happ.
  cbv zeta in Happ. destruct Happ as (added & Hs & _ & _ & Hfrom).
  destruct (init_ok (after_phase1 out) reserved) as (_ & Hinit & Hege).
  rewrite Hinit in Hs. rewrite Hege in Hfrom.
  exists reserved, added. split; [exact H1|]. split.
  { intros l Hl. destruct (Hsound l Hl) as (g & j & room & _ & Hj & _ & _ & ->).
    split; [reflexivity|]. eapply list_elem_of_lookup_2. exact Hj. }
  split; [rewrite H2; exact Hs|]. split.
  { intros l Hl. destruct (Hfrom l Hl) as (sub & _ & _ & _ & Hlesson).
    destruct Hlesson as (room & -> & Hgrid & Hnot & _).
    cbn [l_time_slot mandatory_lesson l_is_ege_practice] in *.
    split; [reflexivity|]. split; [|exact Hgrid].
    intros Hin. apply Hnot. apply elem_of_list_to_set. exact Hin. }
  rewrite H3.
  destruct (optimize_rearranged quality
              (Phase3._build_indices (after_phase2 out)) draws)
    as (Hu & Hp & _).
  split; assumption.
Qed.

Lemma generate_phases_witness :
  ∃ reserved added,
    Phase1.place_ege_practices small_school (fun _ => 0%Q)
    = Some (after_phase1 (default (mkOutputs [] [] []) small_run), reserved)
    ∧ (∀ l, l ∈ after_phase1 (default (mkOutputs [] [] []) small_run) →
            l_is_ege_practice l = true ∧ l_time_slot l ∈ reserved)
    ∧ after_phase2 (default (mkOutputs [] [] []) small_run)
      = after_phase1 (default (mkOutputs [] [] []) small_run) ++ added
    ∧ (∀ l, l ∈ added →
            l_is_ege_practice l = false
            ∧ (l_time_slot l ∉ reserved)
            ∧ l_time_slot l ∈ all_time_slots)
    ∧ unslotted <$> after_phase3 (default (mkOutputs [] [] []) small_run)
      = unslotted <$> after_phase2 (default (mkOutputs [] [] []) small_run)
    ∧ l_time_slot <$> after_phase3 (default (mkOutputs [] [] []) small_run)
      ≡ₚ l_time_slot <$> after_phase2 (default (mkOutputs [] [] []) small_run).
Proof.
  apply (generate_phases (fun s => s) small_school (fun _ => 0%Q)
           (fun _ => 0%Q)
           [Phase3.mkDraw 0 0 false; Phase3.mkDraw 3 1 true]
           (default (mkOutputs [] [] []) small_run)).
  vm_compute. reflexivity.
Defined.

End PipelineTheorems.
